(** * Shopping-behaviour preprocessing pipeline (scripts/preprocess.py)

    A shallow embedding of the pandas-based preprocessing pipeline and the
    verification of its specification.

    Modelling conventions.
    - A [DataFrame] is column oriented, as in pandas: an ordered list of
      named columns, each column carrying its dtype family (numeric, or
      object/category) and its values.  A missing value (NaN / None) is
      [None].
    - Numeric values are exact rationals ([Q]): float64 rounding and the
      infinities are idealised away, NaN is [None] and propagates through
      arithmetic and makes every comparison false, as in IEEE arithmetic.
    - Row labels are row positions: [read_csv] produces a [RangeIndex] and
      every operation of the pipeline keeps labels unique, so aligning a
      boolean Series with a frame by label is aligning it by the position
      its labels had in that frame.
    - Exceptions are values of [exn]; a function that may raise returns a
      [result].  Logging does not influence any returned value and is not
      modelled. *)

From Stdlib Require Import QArith Qround Lqa Lia ZArith Bool String Ascii List.
From Stdlib Require Import OrdersEx Sorted.
From stdpp Require Import base option list strings gmap.

Local Open Scope string_scope.
Local Open Scope list_scope.

(** ** Exceptions and results *)

Inductive exn : Type :=
| KeyError (key : string)
| TypeError
| IndexingError
| FileNotFoundError (path : string)
| OtherError (msg : string).

Inductive result (A : Type) : Type :=
| Ok (a : A)
| Raise (e : exn).
Arguments Ok {A} a.
Arguments Raise {A} e.

Definition rbind {A B} (m : result A) (k : A -> result B) : result B :=
  match m with
  | Ok a => k a
  | Raise e => Raise e
  end.

Notation "x <-r m ;; k" := (rbind m (fun x => k))
  (at level 100, m at next level, right associativity, only parsing).

(** A [for] loop whose body may raise. *)
Fixpoint foldM {A B} (f : A -> B -> result A) (l : list B) (a : A) : result A :=
  match l with
  | [] => Ok a
  | x :: l' => a' <-r f a x ;; foldM f l' a'
  end.

(** ** Numbers *)

Definition Qltb (x y : Q) : bool := negb (Qle_bool y x).

(** float arithmetic and comparison with NaN as [None] *)
Definition flift2 (op : Q -> Q -> Q) (a b : option Q) : option Q :=
  match a, b with
  | Some x, Some y => Some (Qred (op x y))
  | _, _ => None
  end.
Definition fadd := flift2 Qplus.
Definition fsub := flift2 Qminus.
Definition fmul := flift2 Qmult.

Definition flt (a b : option Q) : bool :=
  match a, b with
  | Some x, Some y => Qltb x y
  | _, _ => false
  end.
Definition fgt (a b : option Q) : bool := flt b a.
Definition fge (a b : option Q) : bool :=
  match a, b with
  | Some x, Some y => Qle_bool y x
  | _, _ => false
  end.

(** ** Columns, Series and frames *)

Abbreviation label := nat.

Inductive column : Type :=
| NumCol (vs : list (option Q))
| CatCol (vs : list (option string)).

Definition col_len (c : column) : nat :=
  match c with
  | NumCol vs => length vs
  | CatCol vs => length vs
  end.

Abbreviation DataFrame := (list (string * column)).

(** [df.columns] *)
Definition columns (df : DataFrame) : list string := map fst df.

(** [col in df.columns] *)
Definition has_column (df : DataFrame) (col : string) : bool :=
  existsb (String.eqb col) (columns df).

(** [df[col]] *)
Fixpoint getitem (df : DataFrame) (col : string) : option column :=
  match df with
  | [] => None
  | (n, c) :: df' => if String.eqb col n then Some c else getitem df' col
  end.

(** [df[col] = c]: replaces the column in place when it exists, appends it
    otherwise. *)
Fixpoint setitem (df : DataFrame) (col : string) (c : column) : DataFrame :=
  match df with
  | [] => [(col, c)]
  | (n, c0) :: df' =>
      if String.eqb col n then (n, c) :: df' else (n, c0) :: setitem df' col c
  end.

(** [len(df.index)] *)
Definition nrows (df : DataFrame) : nat :=
  match df with
  | [] => 0
  | (_, c) :: _ => col_len c
  end.

(** [df.copy()]: the copy has the value of the original. *)
Definition copy (df : DataFrame) : DataFrame := df.

(** A Series that no longer spans the whole frame: (row label, value). *)
Abbreviation Series A := (list (label * A)).

Definition s_index {A} (s : Series A) : list label := map fst s.
Definition s_values {A} (s : Series A) : list A := map snd s.

Fixpoint dropna_from {A} (i : label) (vs : list (option A)) : Series A :=
  match vs with
  | [] => []
  | Some v :: vs' => (i, v) :: dropna_from (S i) vs'
  | None :: vs' => dropna_from (S i) vs'
  end.

(** [s.dropna()] *)
Definition dropna {A} (vs : list (option A)) : Series A := dropna_from 0 vs.

(** [s.isna().any()] *)
Definition isna_any {A} (vs : list (option A)) : bool :=
  existsb (fun v => match v with None => true | Some _ => false end) vs.

(** Keeping the positions where the boolean array is true. *)
Fixpoint filter_mask {A} (mask : list bool) (l : list A) : list A :=
  match mask, l with
  | b :: mask', x :: l' =>
      if b then x :: filter_mask mask' l' else filter_mask mask' l'
  | _, _ => []
  end.

Definition col_filter (mask : list bool) (c : column) : column :=
  match c with
  | NumCol vs => NumCol (filter_mask mask vs)
  | CatCol vs => CatCol (filter_mask mask vs)
  end.

Definition filter_rows (mask : list bool) (df : DataFrame) : DataFrame :=
  map (fun nc => (fst nc, col_filter mask (snd nc))) df.

Fixpoint series_lookup {A} (s : Series A) (i : label) : option A :=
  match s with
  | [] => None
  | (j, v) :: s' => if Nat.eqb i j then Some v else series_lookup s' i
  end.

(** [df[key]] with a boolean Series key (pandas [check_bool_indexer]): a
    key whose index equals the frame's is used as it is; otherwise the key
    is reindexed on the frame's index, and a frame label the key does not
    have makes the key unalignable. *)
Definition getitem_bool (df : DataFrame) (key : Series bool) : result DataFrame :=
  let index := seq 0 (nrows df) in
  if decide (s_index key = index) then Ok (filter_rows (s_values key) df)
  else
    match mapM (series_lookup key) index with
    | Some bs => Ok (filter_rows bs df)
    | None => Raise IndexingError
    end.

(** [df.loc[mask, col] = value] on a numeric column, [mask] spanning the
    frame. *)
Fixpoint set_where {A} (mask : list bool) (value : A) (l : list A) : list A :=
  match mask, l with
  | b :: mask', x :: l' => (if b then value else x) :: set_where mask' value l'
  | _, _ => l
  end.

Definition loc_setitem (df : DataFrame) (mask : list bool) (col : string)
    (value : option Q) : DataFrame :=
  match getitem df col with
  | Some (NumCol vs) => setitem df col (NumCol (set_where mask value vs))
  | _ => df
  end.

(** ** Order statistics *)

Fixpoint insert_sorted (x : Q) (l : list Q) : list Q :=
  match l with
  | [] => [x]
  | y :: l' => if Qle_bool x y then x :: l else y :: insert_sorted x l'
  end.

Definition sort_values (l : list Q) : list Q := fold_right insert_sorted [] l.

(** Linear interpolation in the sorted, non-empty values [sorted] (numpy's
    default quantile method): the virtual index is [(n-1)*q]; the result
    interpolates between the two neighbouring order statistics. *)
Definition interpolate (sorted : list Q) (x0 : Q) (q : Q) : Q :=
  let n := length sorted in
  let pos := (inject_Z (Z.of_nat (n - 1)) * q)%Q in
  let lo := Z.to_nat (Qfloor pos) in
  let hi := Nat.min (S lo) (n - 1) in
  let gamma := (pos - inject_Z (Qfloor pos))%Q in
  let a := nth lo sorted x0 in
  let b := nth hi sorted x0 in
  Qred (a + (b - a) * gamma).

(** [Series.quantile(q)]; NaN on an empty Series. *)
Definition quantile (s : list Q) (q : Q) : option Q :=
  match sort_values s with
  | [] => None
  | (x0 :: _) as sorted => Some (interpolate sorted x0 q)
  end.

(** ** Outlier handling *)

Definition default_method : string := "iqr".
Definition default_threshold : Q := 3 # 2.
Definition default_action : string := "cap".

(** The bounds [(lower, upper)] computed from the non-missing values. *)
Definition iqr_bounds (threshold : Q) (s : list Q) : option Q * option Q :=
  let Q1 := quantile s (1 # 4) in
  let Q3 := quantile s (3 # 4) in
  let IQR := fsub Q3 Q1 in
  (fsub Q1 (fmul (Some threshold) IQR), fadd Q3 (fmul (Some threshold) IQR)).

(** [df[col] < bound] and [df[col] > bound], spanning the frame *)
Definition col_lt (df : DataFrame) (col : string) (bound : option Q) : list bool :=
  match getitem df col with
  | Some (NumCol vs) => map (fun v => flt v bound) vs
  | _ => []
  end.

Definition col_gt (df : DataFrame) (col : string) (bound : option Q) : list bool :=
  match getitem df col with
  | Some (NumCol vs) => map (fun v => fgt v bound) vs
  | _ => []
  end.

(** [(series < lower) | (series > upper)] *)
Definition outlier_mask (lower upper : option Q) (series : Series Q) : Series bool :=
  map (fun iv => (fst iv, flt (Some (snd iv)) lower || fgt (Some (snd iv)) upper))
    series.

(** [~mask] *)
Definition invert (mask : Series bool) : Series bool :=
  map (fun ib => (fst ib, negb (snd ib))) mask.

(** [mask.sum()] *)
Definition mask_sum (mask : Series bool) : nat :=
  length (List.filter id (s_values mask)).

(** One iteration of the loop over [columns].  [quantile] raises
    [TypeError] on a Series that is not numeric. *)
Definition handle_column (method : string) (threshold : Q) (action : string)
    (df_out : DataFrame) (col : string) : result DataFrame :=
  match getitem df_out col with
  | None => Ok df_out
  | Some c =>
      if String.eqb method "iqr" then
        match c with
        | CatCol _ => Raise TypeError
        | NumCol vs =>
            let series := dropna vs in
            let '(lower, upper) := iqr_bounds threshold (s_values series) in
            let mask := outlier_mask lower upper series in
            let outlier_count := mask_sum mask in
            if Nat.ltb 0 outlier_count then
              if String.eqb action "cap" then
                let df_out := loc_setitem df_out (col_lt df_out col lower) col lower in
                let df_out := loc_setitem df_out (col_gt df_out col upper) col upper in
                Ok df_out
              else if String.eqb action "remove" then
                getitem_bool df_out (invert mask)
              else Ok df_out
            else Ok df_out
        end
      else Ok df_out
  end.

(** The parameter [columns] of the source is [cols] here, [columns] being
    the name of [df.columns]. *)
Definition detect_and_handle_outliers (df : DataFrame) (cols : list string)
    (method : string) (threshold : Q) (action : string) : result DataFrame :=
  foldM (handle_column method threshold action) cols (copy df).

(** ** Cleaning *)

(** A row is the list of its cells, in column order. *)
Inductive cell : Type :=
| NumCell (v : option Q)
| CatCell (v : option string).

Abbreviation row := (list cell).

Definition col_cells (c : column) : list cell :=
  match c with
  | NumCol vs => map NumCell vs
  | CatCol vs => map CatCell vs
  end.

Fixpoint rows_n (n : nat) (df : DataFrame) : list row :=
  match df with
  | [] => repeat [] n
  | (_, c) :: df' => zip_with cons (col_cells c) (rows_n n df')
  end.

Definition rows (df : DataFrame) : list row := rows_n (nrows df) df.

(** Equality of cells as [duplicated] sees it: two missing values are
    equal. *)
Definition cell_eqb (a b : cell) : bool :=
  match a, b with
  | NumCell (Some x), NumCell (Some y) => Qeq_bool x y
  | NumCell None, NumCell None => true
  | CatCell (Some x), CatCell (Some y) => String.eqb x y
  | CatCell None, CatCell None => true
  | _, _ => false
  end.

Fixpoint row_eqb (r1 r2 : row) : bool :=
  match r1, r2 with
  | [], [] => true
  | a :: r1', b :: r2' => cell_eqb a b && row_eqb r1' r2'
  | _, _ => false
  end.

(** [df.duplicated()] (keep="first"): a row is flagged when an earlier row
    equals it. *)
Fixpoint duplicated_from (seen rs : list row) : list bool :=
  match rs with
  | [] => []
  | r :: rs' => existsb (row_eqb r) seen :: duplicated_from (r :: seen) rs'
  end.

Definition duplicated (df : DataFrame) : list bool :=
  duplicated_from [] (rows df).

(** [df.drop_duplicates()] *)
Definition drop_duplicates (df : DataFrame) : DataFrame :=
  filter_rows (map negb (duplicated df)) df.

(** [s.fillna(value)]; filling with NaN leaves the missing values. *)
Definition fillna {A} (value : option A) (vs : list (option A)) : list (option A) :=
  map (fun v => match v with None => value | Some _ => v end) vs.

(** [s.median()] over the non-missing values; NaN when there is none. *)
Definition median (s : list Q) : option Q :=
  match sort_values s with
  | [] => None
  | (x0 :: _) as sorted =>
      let n := length sorted in
      if Nat.even n
      then Some (Qred ((nth (n / 2 - 1) sorted x0 + nth (n / 2) sorted x0) / 2))
      else Some (nth (n / 2) sorted x0)
  end.

(** [df.select_dtypes(include=[np.number]).columns] *)
Definition num_cols (df : DataFrame) : list string :=
  omap (fun nc => match snd nc with NumCol _ => Some (fst nc) | CatCol _ => None end) df.

(** [df.select_dtypes(include=["object", "category"]).columns] *)
Definition cat_cols (df : DataFrame) : list string :=
  omap (fun nc => match snd nc with CatCol _ => Some (fst nc) | NumCol _ => None end) df.

(** [df[num_cols] = df[num_cols].fillna(df[num_cols].median())] *)
Definition fill_numeric (df : DataFrame) : DataFrame :=
  map (fun nc =>
         match snd nc with
         | NumCol vs => (fst nc, NumCol (fillna (median (s_values (dropna vs))) vs))
         | CatCol _ => nc
         end) df.

(** Sorted list of the distinct strings of a list. *)
Fixpoint insert_uniq (s : string) (l : list string) : list string :=
  match l with
  | [] => [s]
  | t :: l' =>
      match String_as_OT.compare s t with
      | Lt => s :: l
      | Eq => l
      | Gt => t :: insert_uniq s l'
      end
  end.

Definition sorted_unique (l : list string) : list string :=
  fold_right insert_uniq [] l.

Definition count_str (s : string) (l : list string) : nat :=
  length (List.filter (String.eqb s) l).

(** [s.mode()]: the most frequent non-missing values, sorted. *)
Definition mode (l : list string) : list string :=
  let u := sorted_unique l in
  let m := fold_right Nat.max 0 (map (fun s => count_str s l) u) in
  List.filter (fun s => Nat.eqb (count_str s l) m) u.

(** [s[0]] on the Series returned by [mode]: label 0 is absent from an
    empty Series. *)
Definition first_mode (l : list string) : result string :=
  match mode l with
  | m :: _ => Ok m
  | [] => Raise (KeyError "0")
  end.

(** One iteration of the loop over [cat_cols]. *)
Definition fill_categorical (df : DataFrame) (col : string) : result DataFrame :=
  match getitem df col with
  | Some (CatCol vs) =>
      if isna_any vs then
        mode_val <-r first_mode (s_values (dropna vs)) ;;
        Ok (setitem df col (CatCol (fillna (Some mode_val) vs)))
      else Ok df
  | _ => Ok df
  end.

Definition clean_data (df : DataFrame) : result DataFrame :=
  let df := drop_duplicates df in
  let df := fill_numeric df in
  foldM fill_categorical (cat_cols df) df.

(** ** Binning *)

(** Bin edges: a number or an infinity. *)
Inductive edge : Type :=
| NegInf
| Fin (q : Q)
| PosInf.

(** [b < x] and [b <= x] for an edge [b] and a number [x] *)
Definition edge_ltb (b : edge) (x : Q) : bool :=
  match b with
  | NegInf => true
  | Fin q => Qltb q x
  | PosInf => false
  end.

Definition edge_leb (b : edge) (x : Q) : bool :=
  match b with
  | NegInf => true
  | Fin q => Qle_bool q x
  | PosInf => false
  end.

Inductive side : Type := Left | Right.

(** [bins.searchsorted(x, side)]: the insertion point of [x] in the sorted
    [bins], before (left) or after (right) the entries equal to [x]. *)
Fixpoint searchsorted (bins : list edge) (x : Q) (sd : side) : nat :=
  match bins with
  | [] => 0
  | b :: bins' =>
      if match sd with Left => edge_ltb b x | Right => edge_leb b x end
      then S (searchsorted bins' x sd)
      else 0
  end.

(** [pd.cut(x, bins, labels, right)] (pandas [_bins_to_cuts], with
    include_lowest=False): a value whose insertion point is 0 or
    [len(bins)], and a missing value, get no label. *)
Definition cut (x : list (option Q)) (bins : list edge) (labels : list string)
    (right : bool) : list (option string) :=
  let sd := if right then Left else Right in
  map (fun v =>
         match v with
         | None => None
         | Some a =>
             let ids := searchsorted bins a sd in
             if Nat.eqb ids (length bins) || Nat.eqb ids 0 then None
             else labels !! (ids - 1)%nat
         end) x.

Fixpoint index_of (s : string) (l : list string) : option nat :=
  match l with
  | [] => None
  | t :: l' => if String.eqb s t then Some 0%nat else S <$> index_of s l'
  end.

Definition Q_of_nat (n : nat) : Q := inject_Z (Z.of_nat n).

(** [s.cat.codes]: position of the value among the categories, -1 for a
    missing value. *)
Definition cat_codes (categories : list string) (vs : list (option string))
    : list (option Q) :=
  map (fun v =>
         match v ≫= (fun s => index_of s categories) with
         | Some i => Some (Q_of_nat i)
         | None => Some (inject_Z (-1))
         end) vs.

Definition age_bins : list edge :=
  [Fin 0; Fin 18; Fin 25; Fin 35; Fin 45; Fin 55; Fin 65; Fin 100].
Definition age_labels : list string :=
  ["<18"; "18-24"; "25-34"; "35-44"; "45-54"; "55-64"; "65+"].

Definition purchase_bins : list edge :=
  [NegInf; Fin 30; Fin 50; Fin 75; Fin 100; PosInf].
Definition purchase_labels : list string :=
  ["Very Low"; "Low"; "Medium"; "High"; "Very High"].

(** [s == value] for a string [value]: false on missing values and on
    numbers. *)
Definition eq_str (c : column) (value : string) : list bool :=
  match c with
  | CatCol vs =>
      map (fun v => match v with Some t => String.eqb t value | None => false end) vs
  | NumCol vs => map (fun _ => false) vs
  end.

Section Formatting.

(** Python's [str] of a number, left abstract. *)
Variable num_repr : Q -> string.

(** [s.astype(str)]; a missing value becomes the string "nan". *)
Definition astype_str (c : column) : list string :=
  match c with
  | CatCol vs => map (fun v => match v with Some s => s | None => "nan" end) vs
  | NumCol vs => map (fun v => match v with Some q => num_repr q | None => "nan" end) vs
  end.

(** ** Feature engineering *)

(** 1. Age grouping *)
Definition add_age_group (df : DataFrame) : result DataFrame :=
  match getitem df "Age" with
  | None => Ok df
  | Some (CatCol _) => Raise TypeError
  | Some (NumCol vs) =>
      let age_group := cut vs age_bins age_labels false in
      let df := setitem df "Age_Group" (CatCol age_group) in
      Ok (setitem df "Age_Group_Ordinal" (NumCol (cat_codes age_labels age_group)))
  end.

(** 2. Purchase value categories *)
Definition add_purchase_category (df : DataFrame) : result DataFrame :=
  match getitem df "Purchase Amount (USD)" with
  | None => Ok df
  | Some (CatCol _) => Raise TypeError
  | Some (NumCol vs) =>
      Ok (setitem df "Purchase_Category"
            (CatCol (cut vs purchase_bins purchase_labels true)))
  end.

(** 3. Discount and promo interaction *)
Definition add_discount_or_promo (df : DataFrame) : result DataFrame :=
  match getitem df "Discount Applied", getitem df "Promo Code Used" with
  | Some d, Some p =>
      Ok (setitem df "Discount_or_Promo"
            (CatCol (map (fun b : bool => Some (if b then "Yes" else "No"))
                       (zip_with orb (eq_str d "Yes") (eq_str p "Yes")))))
  | _, _ => Ok df
  end.

(** 4. Loyalty proxy *)
Definition add_is_repeat_customer (df : DataFrame) : result DataFrame :=
  match getitem df "Previous Purchases" with
  | None => Ok df
  | Some (CatCol _) => Raise TypeError
  | Some (NumCol vs) =>
      Ok (setitem df "Is_Repeat_Customer"
            (NumCol (map (fun v => Some (if fge v (Some 10%Q) then 1%Q else 0%Q)) vs)))
  end.

(** 5. Season and category interaction *)
Definition add_season_category (df : DataFrame) : result DataFrame :=
  match getitem df "Season", getitem df "Category" with
  | Some s, Some c =>
      Ok (setitem df "Season_Category"
            (CatCol (zip_with (fun a b => Some (a +:+ "_" +:+ b))
                       (astype_str s) (astype_str c))))
  | _, _ => Ok df
  end.

Definition feature_engineering (df : DataFrame) : result DataFrame :=
  let df := copy df in
  df <-r add_age_group df ;;
  df <-r add_purchase_category df ;;
  df <-r add_discount_or_promo df ;;
  df <-r add_is_repeat_customer df ;;
  add_season_category df.

(** ** Encoding *)

Inductive encoder : Type :=
| LabelEncoder (classes_ : list string)
| OneHotEncoder (categories_ : list (list cell)).

(** [LabelEncoder.fit_transform(y)]: the classes are the sorted distinct
    values; a value is encoded by its position among the classes. *)
Definition label_fit (y : list string) : list string := sorted_unique y.

Definition label_transform (classes : list string) (y : list string)
    : list (option Q) :=
  map (fun s => Some (Q_of_nat (default 0%nat (index_of s classes)))) y.

Definition label_encode_column (st : DataFrame * gmap string encoder)
    (col : string) : DataFrame * gmap string encoder :=
  let '(df_enc, encoders) := st in
  match getitem df_enc col with
  | None => st
  | Some c =>
      let y := astype_str c in
      let classes := label_fit y in
      (setitem df_enc col (NumCol (label_transform classes y)),
       <[col := LabelEncoder classes]> encoders)
  end.

Fixpoint dedup_adjacent (l : list Q) : list Q :=
  match l with
  | x :: ((y :: _) as l') =>
      if Qeq_bool x y then dedup_adjacent l' else x :: dedup_adjacent l'
  | _ => l
  end.

(** The categories [OneHotEncoder] finds in a column: the sorted distinct
    values, a missing value last. *)
Definition onehot_categories (c : column) : list cell :=
  match c with
  | NumCol vs =>
      map (fun q => NumCell (Some q)) (dedup_adjacent (sort_values (s_values (dropna vs))))
      ++ (if isna_any vs then [NumCell None] else [])
  | CatCol vs =>
      map (fun s => CatCell (Some s)) (sorted_unique (s_values (dropna vs)))
      ++ (if isna_any vs then [CatCell None] else [])
  end.

Definition cell_str (k : cell) : string :=
  match k with
  | NumCell (Some q) => num_repr q
  | CatCell (Some s) => s
  | _ => "nan"
  end.

(** The indicator columns of one encoded column. *)
Definition onehot_column (drop_first : bool) (nc : string * column) : DataFrame :=
  let cats := onehot_categories (snd nc) in
  let kept := if drop_first then tail cats else cats in
  map (fun k =>
         (fst nc +:+ "_" +:+ cell_str k,
          NumCol (map (fun v => Some (if cell_eqb v k then 1%Q else 0%Q))
                    (col_cells (snd nc))))) kept.

(** [df[cols]]: a missing name raises [KeyError]. *)
Fixpoint getitems (df : DataFrame) (cols : list string) : result DataFrame :=
  match cols with
  | [] => Ok []
  | col :: cols' =>
      match getitem df col with
      | None => Raise (KeyError col)
      | Some c => rest <-r getitems df cols' ;; Ok ((col, c) :: rest)
      end
  end.

(** [df.drop(columns=cols)] for names known to be present *)
Definition drop_columns (df : DataFrame) (cols : list string) : DataFrame :=
  List.filter (fun nc => negb (existsb (String.eqb (fst nc)) cols)) df.

(** A list argument that is [None] or empty is falsy. *)
Definition truthy {A} (l : option (list A)) : option (list A) :=
  match l with
  | Some (_ :: _) => l
  | _ => None
  end.

Definition encode_categorical (df : DataFrame)
    (cols_onehot cols_label : option (list string)) (drop_first : bool)
    : result (DataFrame * gmap string encoder) :=
  let df_enc := copy df in
  let encoders : gmap string encoder := ∅ in
  let '(df_enc, encoders) :=
    match truthy cols_label with
    | Some cols => fold_left label_encode_column cols (df_enc, encoders)
    | None => (df_enc, encoders)
    end in
  match truthy cols_onehot with
  | Some cols =>
      X <-r getitems df_enc cols ;;
      let ohe_df := concat (map (onehot_column drop_first) X) in
      Ok (drop_columns df_enc cols ++ ohe_df,
          <["onehot" := OneHotEncoder (map (fun nc => onehot_categories (snd nc)) X)]>
            encoders)
  | None => Ok (df_enc, encoders)
  end.

End Formatting.

(** ** Loading and the whole pipeline *)

Section Pipeline.

(** The environment of [pd.read_csv]: the files that exist, with their
    text, and the parser (with the dtype coercion of [dtype_spec]), which
    raises on text it cannot load. *)
Variable file_text : string -> option string.
Variable parse_csv : string -> result DataFrame.
Variable num_repr : Q -> string.

Definition read_csv (file_path : string) : result DataFrame :=
  match file_text file_path with
  | None => Raise (FileNotFoundError file_path)
  | Some text => parse_csv text
  end.

(** The two [except] clauses log and re-raise the exception they caught. *)
Definition load_data (file_path : string) : result DataFrame :=
  match read_csv file_path with
  | Ok df => Ok df
  | Raise (FileNotFoundError p) => Raise (FileNotFoundError p)
  | Raise e => Raise e
  end.

Definition preprocess_pipeline (file_path : string) (handle_outliers : bool)
    (outlier_method : string) (encode_categoricals : bool)
    (onehot_cols label_cols : option (list string)) : result DataFrame :=
  df <-r load_data file_path ;;
  df <-r clean_data df ;;
  df <-r (if handle_outliers then
            let numeric_to_check :=
              ["Purchase Amount (USD)"; "Previous Purchases"; "Age"; "Review Rating"] in
            let present_cols := List.filter (has_column df) numeric_to_check in
            detect_and_handle_outliers df present_cols outlier_method
              default_threshold default_action
          else Ok df) ;;
  df <-r feature_engineering num_repr df ;;
  if encode_categoricals then
    r <-r encode_categorical num_repr df onehot_cols label_cols true ;;
    Ok (fst r)
  else Ok df.

End Pipeline.

(** ** Reference semantics

    Python passes frames by reference.  The functions below are the
    transformations of the pipeline, whose callers may keep using the frame
    they passed, with the frames as objects in a store: [copy], boolean
    indexing, [drop_duplicates] and [pd.concat] allocate a new object,
    [.loc] and column assignment mutate the object they are applied to.
    The store is returned also when an exception is raised. *)

Module Heap.

Abbreviation loc := nat.
Abbreviation heap := (gmap nat DataFrame).

Definition M (A : Type) : Type := heap -> result A * heap.

Definition ret {A} (a : A) : M A := fun h => (Ok a, h).

Definition bind {A B} (m : M A) (k : A -> M B) : M B :=
  fun h =>
    match m h with
    | (Ok a, h') => k a h'
    | (Raise e, h') => (Raise e, h')
    end.

Notation "x <- m ;; k" := (bind m (fun x => k))
  (at level 100, m at next level, right associativity, only parsing).
Notation "m ;;; k" := (bind m (fun _ => k))
  (at level 100, right associativity, only parsing).

Definition lift {A} (r : result A) : M A := fun h => (r, h).

Definition alloc (d : DataFrame) : M loc :=
  fun h => let l := fresh (dom h) in (Ok l, <[l := d]> h).

Definition load (l : loc) : M DataFrame :=
  fun h =>
    match h !! l with
    | Some d => (Ok d, h)
    | None => (Raise (OtherError "dangling reference"), h)
    end.

Definition store (l : loc) (d : DataFrame) : M unit :=
  fun h => (Ok tt, <[l := d]> h).

(** [df.copy()] *)
Definition copy (df : loc) : M loc :=
  d <- load df ;; alloc (copy d).

(** An in-place mutation of the object [l] *)
Definition mutate (l : loc) (f : DataFrame -> DataFrame) : M unit :=
  d <- load l ;; store l (f d).

(** A column derivation: the new columns are computed, which may raise,
    and then assigned in place. *)
Definition derive (l : loc) (f : DataFrame -> result DataFrame) : M unit :=
  d <- load l ;; d' <- lift (f d) ;; store l d'.

Fixpoint for_each {A B} (f : A -> B -> M A) (l : list B) (a : A) : M A :=
  match l with
  | [] => ret a
  | x :: l' => a' <- f a x ;; for_each f l' a'
  end.

(** One iteration of the loop over [columns]; [df_out] is the object the
    loop variable currently refers to, the result is the object it refers
    to afterwards. *)
Definition handle_column (method : string) (threshold : Q) (action : string)
    (df_out : loc) (col : string) : M loc :=
  d <- load df_out ;;
  match getitem d col with
  | None => ret df_out
  | Some c =>
      if String.eqb method "iqr" then
        match c with
        | CatCol _ => lift (Raise TypeError)
        | NumCol vs =>
            let series := dropna vs in
            let '(lower, upper) := iqr_bounds threshold (s_values series) in
            let mask := outlier_mask lower upper series in
            let outlier_count := mask_sum mask in
            if Nat.ltb 0 outlier_count then
              if String.eqb action "cap" then
                mutate df_out (fun d => loc_setitem d (col_lt d col lower) col lower) ;;;
                mutate df_out (fun d => loc_setitem d (col_gt d col upper) col upper) ;;;
                ret df_out
              else if String.eqb action "remove" then
                d <- load df_out ;;
                d' <- lift (getitem_bool d (invert mask)) ;;
                alloc d'
              else ret df_out
            else ret df_out
        end
      else ret df_out
  end.

Definition detect_and_handle_outliers (df : loc) (cols : list string)
    (method : string) (threshold : Q) (action : string) : M loc :=
  df_out <- copy df ;;
  for_each (handle_column method threshold action) cols df_out.

Definition feature_engineering (num_repr : Q -> string) (df : loc) : M loc :=
  df <- copy df ;;
  derive df add_age_group ;;;
  derive df add_purchase_category ;;;
  derive df add_discount_or_promo ;;;
  derive df add_is_repeat_customer ;;;
  derive df (add_season_category num_repr) ;;;
  ret df.

(** One iteration of the loop over [cat_cols]: the fill is assigned in
    place. *)
Definition fill_step (df : loc) (col : string) : M loc :=
  derive df (fun d => fill_categorical d col) ;;; ret df.

(** [clean_data]: [drop_duplicates] returns a new object, to which the
    name [df] is rebound and which the fills then mutate. *)
Definition clean_data (df : loc) : M loc :=
  d <- load df ;;
  df <- alloc (drop_duplicates d) ;;
  mutate df fill_numeric ;;;
  d <- load df ;;
  for_each fill_step (cat_cols d) df.

(** One iteration of the label-encoding loop: the codes are assigned in
    place to the copy, the encoder is added to the dictionary. *)
Definition label_step (num_repr : Q -> string) (df_enc : loc)
    (encoders : gmap string encoder) (col : string) : M (gmap string encoder) :=
  d <- load df_enc ;;
  match getitem d col with
  | None => ret encoders
  | Some c =>
      let y := astype_str num_repr c in
      let classes := label_fit y in
      store df_enc (setitem d col (NumCol (label_transform classes y))) ;;;
      ret (<[col := LabelEncoder classes]> encoders)
  end.

(** [encode_categorical]: the copy is label-encoded in place; [pd.concat]
    returns a new object. *)
Definition encode_categorical (num_repr : Q -> string) (df : loc)
    (cols_onehot cols_label : option (list string)) (drop_first : bool)
    : M (loc * gmap string encoder) :=
  df_enc <- copy df ;;
  encoders <- match truthy cols_label with
              | Some cols => for_each (label_step num_repr df_enc) cols ∅
              | None => ret ∅
              end ;;
  match truthy cols_onehot with
  | Some cols =>
      d <- load df_enc ;;
      X <- lift (getitems d cols) ;;
      let ohe_df := concat (map (onehot_column num_repr drop_first) X) in
      df_enc <- alloc (drop_columns d cols ++ ohe_df) ;;
      ret (df_enc,
           <["onehot" := OneHotEncoder (map (fun nc => onehot_categories (snd nc)) X)]>
             encoders)
  | None => ret (df_enc, encoders)
  end.

End Heap.

(** ** Well-formed frames and what the specification speaks about *)

(** Column names are distinct and all columns have the same length. *)
Definition wf (df : DataFrame) : Prop :=
  NoDup (columns df) /\ Forall (fun nc => col_len (snd nc) = nrows df) df.

(** All columns have [n] values. *)
Definition all_len (n : nat) (df : DataFrame) : Prop :=
  Forall (fun nc => col_len (snd nc) = n) df.

Definition cell_missing (k : cell) : bool :=
  match k with
  | NumCell None | CatCell None => true
  | _ => false
  end.

(** No missing value in a column / in the frame *)
Definition col_complete (c : column) : Prop :=
  Forall (fun k => cell_missing k = false) (col_cells c).

Definition complete (df : DataFrame) : Prop :=
  Forall (fun nc => col_complete (snd nc)) df.

(** A column all of whose values are missing, and that has values *)
Definition entirely_missing (c : column) : Prop :=
  (0 < col_len c)%nat /\ Forall (fun k => cell_missing k = true) (col_cells c).

(** No row equals an earlier row. *)
Definition no_duplicate_rows (df : DataFrame) : Prop :=
  Forall (fun b => b = false) (duplicated df).

(** The non-missing values of a column *)
Definition nonmissing {A} (vs : list (option A)) : list A := s_values (dropna vs).

(** What the cleaner does to a numeric column and to a categorical column *)
Definition fill_num_col (c : column) : column :=
  match c with
  | NumCol vs => NumCol (fillna (median (nonmissing vs)) vs)
  | CatCol _ => c
  end.

Definition fill_cat_col (c : column) : result column :=
  match c with
  | CatCol vs =>
      if isna_any vs then
        mode_val <-r first_mode (nonmissing vs) ;;
        Ok (CatCol (fillna (Some mode_val) vs))
      else Ok c
  | NumCol _ => Ok c
  end.

(** Clamping a value between two bounds. *)
Definition clamp (lower upper : Q) (v : Q) : Q :=
  if Qltb v lower then lower else if Qltb upper v then upper else v.

(** A numeric column with its values clamped to the IQR bounds computed
    from its own non-missing values (unchanged when it has none). *)
Definition capped (threshold : Q) (vs : list (option Q)) : list (option Q) :=
  match iqr_bounds threshold (nonmissing vs) with
  | (Some lower, Some upper) => map (option_map (clamp lower upper)) vs
  | _ => vs
  end.


(** The listed columns that exist hold numbers. *)
Definition numeric_targets (df : DataFrame) (cols : list string) : Prop :=
  forall col c, col ∈ cols -> getitem df col = Some c -> exists vs, c = NumCol vs.

(** The listed columns that exist hold numbers, none of them missing. *)
Definition complete_targets (df : DataFrame) (cols : list string) : Prop :=
  forall col c, col ∈ cols -> getitem df col = Some c ->
    exists vs, c = NumCol vs /\ Forall is_Some vs.

(** The rows a column keeps in remove mode: those whose value is not
    outside the bounds computed from the column's non-missing values. *)
Definition within_bounds (threshold : Q) (vs : list (option Q)) : list bool :=
  let '(lower, upper) := iqr_bounds threshold (nonmissing vs) in
  map (fun v => negb (flt v lower || fgt v upper)) vs.

(** Removal as the specification words it: the target columns are taken in
    the order of the list, and each one filters the rows of the table as
    the earlier ones left it. *)
Fixpoint remove_outliers (threshold : Q) (cols : list string) (df : DataFrame)
    : DataFrame :=
  match cols with
  | [] => df
  | col :: cols' =>
      match getitem df col with
      | Some (NumCol vs) =>
          remove_outliers threshold cols'
            (filter_rows (within_bounds threshold vs) df)
      | _ => remove_outliers threshold cols' df
      end
  end.

(** The number of positions a mask keeps *)
Definition count_true (mask : list bool) : nat := length (List.filter id mask).

(** Filtering by [m1] and then by [m2] is filtering by one mask. *)
Fixpoint mask_and_then (m1 m2 : list bool) : list bool :=
  match m1 with
  | [] => []
  | false :: m1' => false :: mask_and_then m1' m2
  | true :: m1' =>
      match m2 with
      | [] => false :: mask_and_then m1' []
      | b :: m2' => b :: mask_and_then m1' m2'
      end
  end.

(** [df'] is [df] with some rows dropped, the others unchanged and in
    order. *)
Definition rows_dropped (df df' : DataFrame) : Prop :=
  df' = df \/ exists mask, df' = filter_rows mask df.

(** The label [pd.cut] gives one age *)
Definition age_group (v : option Q) : option string :=
  default None (head (cut [v] age_bins age_labels false)).

(** The age intervals [lo, hi) with their labels *)
Definition age_intervals : list (Q * Q * string) :=
  [(0, 18, "<18"); (18, 25, "18-24"); (25, 35, "25-34"); (35, 45, "35-44");
   (45, 55, "45-54"); (55, 65, "55-64"); (65, 100, "65+")]%Q.

(** The order of strings by which classes are sorted *)
Abbreviation str_lt := String_as_OT.lt.


(** What a computation on the loop variable guarantees: the objects of the
    initial store [h0] are untouched, the resulting reference is not one of
    them, and the frame it refers to is the one the value-level function
    computes. *)
Definition simulates (h0 : gmap nat DataFrame) (r : result DataFrame)
    (out : result nat * gmap nat DataFrame) : Prop :=
  match out with
  | (Ok l, h') => h0 ⊆ h' /\ h0 !! l = None /\ exists d', h' !! l = Some d' /\ r = Ok d'
  | (Raise e, h') => h0 ⊆ h' /\ r = Raise e
  end.

(** The label [pd.cut] gives one purchase amount *)
Definition purchase_category (v : option Q) : option string :=
  default None (head (cut [v] purchase_bins purchase_labels true)).

(** The names of the columns [feature_engineering] derives *)
Definition derived_names : list string :=
  ["Age_Group"; "Age_Group_Ordinal"; "Purchase_Category"; "Discount_or_Promo";
   "Is_Repeat_Customer"; "Season_Category"].

(** The columns whose values [feature_engineering] compares with numbers *)
Definition numeric_sources : list string :=
  ["Age"; "Purchase Amount (USD)"; "Previous Purchases"].


(** Whether a categorical value is the string "Yes" *)
Definition is_yes (v : option string) : bool :=
  match v with
  | Some s => String.eqb s "Yes"
  | None => false
  end.


(** [df'] has the columns of [df], in their order, followed by columns
    whose names are among [names]. *)
Definition appends_only (names : list string) (df df' : DataFrame) : Prop :=
  columns df `prefix_of` columns df'
  /\ forall n, n ∈ columns df' -> n ∈ columns df \/ n ∈ names.

(** No two categories at different positions are equal. *)
Definition distinct_cells (cats : list cell) : Prop :=
  forall j j' k k', cats !! j = Some k -> cats !! j' = Some k' ->
    cell_eqb k k' = true -> j = j'.


(** Whether a name is a column of text (object or category dtype) *)
Definition is_text (df : DataFrame) (col : string) : bool :=
  match getitem df col with
  | Some (CatCol _) => true
  | _ => false
  end.

(** Whether some value of the column lies outside the bounds computed from
    its non-missing values *)
Definition has_outlier (k : Q) (vs : list (option Q)) : bool :=
  existsb negb (within_bounds k vs).

(** The quartiles of the non-missing values of a column differ. *)
Definition quartiles_differ (vs : list (option Q)) : Prop :=
  forall q1 q3, quantile (nonmissing vs) (1 # 4) = Some q1 ->
    quantile (nonmissing vs) (3 # 4) = Some q3 -> ~ (q1 == q3)%Q.

(** A column the cleaner has nothing left to do on: no missing value, or,
    for a numeric column, no value at all. *)
Definition settled (c : column) : Prop :=
  match c with
  | NumCol vs => Forall is_Some vs \/ Forall (fun v => v = None) vs
  | CatCol vs => Forall is_Some vs
  end.

(** The columns the pipeline checks for outliers *)
Definition numeric_to_check : list string :=
  ["Purchase Amount (USD)"; "Previous Purchases"; "Age"; "Review Rating"].

(** The values of an indicator column *)
Definition indicator_values (vals : list (option Q)) : Prop :=
  Forall (fun v => v = Some 0%Q \/ v = Some 1%Q) vals.

(** ** Example frames *)

Definition some_q (z : Z) : option Q := Some (inject_Z z).

(** A formatting of numbers for the examples, none of which formats one *)
Definition no_repr (q : Q) : string := "".

(** One extreme value in column A. *)
Definition ex_outlier : DataFrame :=
  [("A", NumCol (map some_q [1; 2; 3; 4; 100]%Z));
   ("B", NumCol (map some_q [10; 20; 30; 40; 50]%Z))].

(** The same column A with a missing value in a sixth row. *)
Definition ex_outlier_missing : DataFrame :=
  [("A", NumCol (map some_q [1; 2; 3; 4; 100]%Z ++ [None]))].

(** A table with a duplicate row and missing values of both kinds *)
Definition ex_dirty : DataFrame :=
  [("Age", NumCol [some_q 30; None; some_q 30; some_q 50]);
   ("Gender", CatCol [Some "F"; Some "M"; Some "F"; None])].

(** Two rows that [clean_data] makes equal: the missing B is filled with
    the median 5. *)
Definition ex_fill_makes_duplicate : DataFrame :=
  [("A", NumCol (map some_q [1; 1]%Z));
   ("B", NumCol [None; some_q 5])].

(** A numeric column without any value *)
Definition ex_all_missing_numeric : DataFrame :=
  [("Review Rating", NumCol [None; None])].

(** A categorical column without any value *)
Definition ex_all_missing_categorical : DataFrame :=
  [("Age", NumCol (map some_q [30; 40]%Z));
   ("Gender", CatCol [None; None])].

(** A table with the single age 100 *)
Definition ex_age_100 : DataFrame := [("Age", NumCol [some_q 100])].

(** The ages of the specification's example *)
Definition ex_ages : DataFrame := [("Age", NumCol (map some_q [17; 18; 40; 70]%Z))].

(** A table with a categorical column to encode *)
Definition ex_seasons : DataFrame :=
  [("Season", CatCol [Some "Winter"; Some "Fall"; None; Some "Winter"; Some "Spring"]);
   ("Age", NumCol (map some_q [30; 40; 50; 60; 70]%Z))].

(** A store with one frame, at address 0 *)
Definition ex_store : gmap nat DataFrame := {[ 0%nat := ex_outlier ]}.

(** A file system with one file, and a parser that accepts nothing *)
Definition ex_file_text (path : string) : option string :=
  if String.eqb path "shopping_behavior.csv" then Some "Customer ID,Age" else None.

(** A table with the source columns of every derivation *)
Definition ex_shop : DataFrame :=
  [("Age", NumCol (map some_q [17; 30; 70]%Z));
   ("Purchase Amount (USD)", NumCol (map some_q [30; 60; 150]%Z));
   ("Discount Applied", CatCol [Some "Yes"; Some "No"; Some "No"]);
   ("Promo Code Used", CatCol [Some "No"; Some "No"; None]);
   ("Previous Purchases", NumCol (map some_q [3; 10; 25]%Z));
   ("Season", CatCol [Some "Winter"; Some "Fall"; None]);
   ("Category", CatCol [Some "Clothing"; Some "Footwear"; Some "Clothing"])].



(** A column whose quartiles coincide, with one extreme value *)
Definition ex_flat : DataFrame := [("A", NumCol (map some_q [1; 1; 1; 1; 100]%Z))].

(** A categorical column with two most frequent values *)
Definition ex_tie : DataFrame :=
  [("Id", NumCol (map some_q [1; 2; 3; 4; 5]%Z));
   ("Size", CatCol [Some "M"; Some "L"; None; Some "M"; Some "L"])].

(** A file system with one file that the parser reads as [ex_shop] with its
    first row repeated *)
Definition ex_shop_twice : DataFrame :=
  [("Age", NumCol (map some_q [17; 17; 30; 70]%Z));
   ("Purchase Amount (USD)", NumCol (map some_q [30; 30; 60; 150]%Z));
   ("Gender", CatCol [Some "F"; Some "F"; None; Some "M"])].
Definition ex_parse_shop (text : string) : result DataFrame := Ok ex_shop_twice.

(** * Verification *)

(** ** Results *)

Lemma rbind_ok {A B} (m : result A) (k : A -> result B) b :
  rbind m k = Ok b -> exists a, m = Ok a /\ k a = Ok b.
Proof. destruct m as [a|e]; simpl; [eauto | discriminate]. Qed.

Lemma rbind_raise {A B} (m : result A) (k : A -> result B) e :
  rbind m k = Raise e -> m = Raise e \/ exists a, m = Ok a /\ k a = Raise e.
Proof. destruct m as [a|e']; simpl; [eauto | intros [= ->]; auto]. Qed.

(** ** Comparisons of rationals *)

Lemma Qltb_lt (x y : Q) : Qltb x y = true <-> (x < y)%Q.
Proof.
  unfold Qltb. rewrite negb_true_iff. split.
  - intros H. apply Qnot_le_lt. intros Hle. apply Qle_bool_iff in Hle. congruence.
  - intros H. destruct (Qle_bool y x) eqn:E; [|reflexivity].
    apply Qle_bool_iff in E. exfalso. apply (Qlt_not_le _ _ H E).
Qed.

Lemma Qltb_ge (x y : Q) : Qltb x y = false <-> (y <= x)%Q.
Proof.
  unfold Qltb. rewrite negb_false_iff. apply Qle_bool_iff.
Qed.

Lemma Qle_bool_false (x y : Q) : Qle_bool x y = false <-> (y < x)%Q.
Proof.
  rewrite <- Qltb_lt. unfold Qltb. destruct (Qle_bool x y); simpl; intuition congruence.
Qed.

(** ** Frames: reading and writing columns *)

Lemma getitem_setitem_eq df col c : getitem (setitem df col c) col = Some c.
Proof.
  induction df as [|[n c0] df IH]; simpl.
  - by rewrite String.eqb_refl.
  - destruct (String.eqb col n) eqn:E; simpl; rewrite E; [done | exact IH].
Qed.

Lemma getitem_setitem_ne df col col' c :
  col <> col' -> getitem (setitem df col c) col' = getitem df col'.
Proof.
  intros Hne. induction df as [|[n c0] df IH]; simpl.
  - destruct (String.eqb col' col) eqn:E; [|done].
    apply String.eqb_eq in E. congruence.
  - destruct (String.eqb col n) eqn:E; simpl.
    + apply String.eqb_eq in E. subst n.
      destruct (String.eqb col' col) eqn:E'; [|done].
      apply String.eqb_eq in E'. congruence.
    + by rewrite IH.
Qed.

Lemma setitem_same df col c : getitem df col = Some c -> setitem df col c = df.
Proof.
  induction df as [|[n c0] df IH]; simpl; [done|].
  destruct (String.eqb col n) eqn:E.
  - by intros [= ->].
  - intros H. by rewrite IH.
Qed.

Lemma columns_setitem df col c c0 :
  getitem df col = Some c0 -> columns (setitem df col c) = columns df.
Proof.
  unfold columns. induction df as [|[n c1] df IH]; simpl; [done|].
  destruct (String.eqb col n) eqn:E; simpl; [done|].
  intros H. by rewrite IH.
Qed.

Lemma getitem_Some_elem df col c : getitem df col = Some c -> (col, c) ∈ df.
Proof.
  induction df as [|[n c0] df IH]; simpl; [done|].
  destruct (String.eqb col n) eqn:E.
  - apply String.eqb_eq in E. subst. intros [= ->]. left.
  - intros H. right. auto.
Qed.

Lemma getitem_None df col : getitem df col = None <-> col ∉ columns df.
Proof.
  unfold columns. induction df as [|[n c0] df IH]; simpl.
  - split; [intros _; apply not_elem_of_nil | done].
  - rewrite not_elem_of_cons. destruct (String.eqb col n) eqn:E.
    + apply String.eqb_eq in E. subst. split; [done | intros [? _]; done].
    + apply String.eqb_neq in E. rewrite IH. tauto.
Qed.

Lemma getitem_elem df col c :
  NoDup (columns df) -> (col, c) ∈ df -> getitem df col = Some c.
Proof.
  unfold columns. induction df as [|[n c0] df IH]; simpl.
  - intros _ H. by apply elem_of_nil in H.
  - rewrite NoDup_cons. intros [Hn Hnd] H. apply elem_of_cons in H as [[= -> ->]|H].
    + by rewrite String.eqb_refl.
    + destruct (String.eqb col n) eqn:E; [|auto].
      apply String.eqb_eq in E. subst. exfalso. apply Hn.
      apply list_elem_of_fmap. by exists (n, c).
Qed.

Lemma has_column_getitem df col : has_column df col = true <-> getitem df col <> None.
Proof.
  unfold has_column, columns. induction df as [|[n c0] df IH]; simpl; [split; done|].
  destruct (String.eqb col n); simpl; [split; done | exact IH].
Qed.

Lemma nrows_setitem df col c c0 :
  getitem df col = Some c0 -> col_len c = col_len c0 ->
  nrows (setitem df col c) = nrows df.
Proof.
  destruct df as [|[n c1] df]; simpl; [done|].
  destruct (String.eqb col n); simpl; [|done]. by intros [= ->].
Qed.

Lemma length_set_where {A} mask (v : A) l : length (set_where mask v l) = length l.
Proof.
  revert l. induction mask as [|b mask IH]; intros [|x l]; simpl; auto.
Qed.

Lemma set_where_map {A} (p : A -> bool) (v : A) l :
  set_where (map p l) v l = map (fun x => if p x then v else x) l.
Proof. induction l as [|x l IH]; simpl; [done | by rewrite IH]. Qed.

(** ** Sorting and quantiles *)

Lemma insert_sorted_length x l : length (insert_sorted x l) = S (length l).
Proof.
  induction l as [|y l IH]; simpl; [done|].
  destruct (Qle_bool x y); simpl; [done | by rewrite IH].
Qed.

Lemma sort_values_length l : length (sort_values l) = length l.
Proof.
  induction l as [|x l IH]; simpl; [done|].
  by rewrite insert_sorted_length, IH.
Qed.

Lemma insert_sorted_Forall (P : Q -> Prop) x l :
  P x -> Forall P l -> Forall P (insert_sorted x l).
Proof.
  intros Hx. induction 1 as [|y l Hy Hl IH]; simpl.
  - by constructor.
  - destruct (Qle_bool x y); repeat constructor; auto.
Qed.

Lemma insert_sorted_sorted x l :
  StronglySorted Qle l -> StronglySorted Qle (insert_sorted x l).
Proof.
  induction 1 as [|y l Hs IH Hy]; simpl.
  - repeat constructor.
  - destruct (Qle_bool x y) eqn:E.
    + apply Qle_bool_iff in E. constructor; [by constructor|].
      constructor; [done|]. eapply Forall_impl; [exact Hy|].
      intros z Hz. simpl in Hz. by apply Qle_trans with y.
    + apply Qle_bool_false in E. constructor; [done|].
      apply insert_sorted_Forall; [by apply Qlt_le_weak | done].
Qed.

Lemma sort_values_sorted l : StronglySorted Qle (sort_values l).
Proof.
  induction l as [|x l IH]; simpl; [constructor | by apply insert_sorted_sorted].
Qed.

Lemma sorted_nth_le (l : list Q) d i j :
  StronglySorted Qle l -> (i <= j)%nat -> (j < length l)%nat ->
  (nth i l d <= nth j l d)%Q.
Proof.
  intros Hs. revert i j. induction Hs as [|x l Hs IH Hx]; intros i j Hij Hj.
  - simpl in Hj. lia.
  - destruct i as [|i], j as [|j]; simpl in *; try lia.
    + apply Qle_refl.
    + rewrite Forall_forall in Hx. apply Hx. apply list_elem_of_In, nth_In. lia.
    + apply IH; lia.
Qed.

(** A quantile of level in [0,1] grows with the level. *)
Lemma interpolate_mono sorted x0 q1 q2 :
  StronglySorted Qle sorted -> (1 <= length sorted)%nat ->
  (0 <= q1)%Q -> (q1 <= q2)%Q -> (q2 <= 1)%Q ->
  (interpolate sorted x0 q1 <= interpolate sorted x0 q2)%Q.
Proof.
  intros Hs Hn H0 H12 H1. unfold interpolate. rewrite !Qred_correct.
  set (n := length sorted) in *.
  set (N := inject_Z (Z.of_nat (n - 1))).
  assert (HN : (0 <= N)%Q).
  { subst N. change 0%Q with (inject_Z 0). rewrite <- Zle_Qle. lia. }
  set (p1 := (N * q1)%Q). set (p2 := (N * q2)%Q).
  assert (Hp1 : (0 <= p1)%Q) by (subst p1; nra).
  assert (Hp12 : (p1 <= p2)%Q) by (subst p1 p2; nra).
  assert (Hp2 : (p2 <= N)%Q) by (subst p2; nra).
  pose proof (Qfloor_le p1) as Hf1. pose proof (Qlt_floor p1) as Hc1.
  pose proof (Qfloor_le p2) as Hf2. pose proof (Qlt_floor p2) as Hc2.
  assert (Hz1 : (0 <= Qfloor p1)%Z).
  { change 0%Z with (Qfloor 0). by apply Qfloor_resp_le. }
  assert (Hz12 : (Qfloor p1 <= Qfloor p2)%Z) by (by apply Qfloor_resp_le).
  assert (Hz2 : (Qfloor p2 <= Z.of_nat (n - 1))%Z).
  { rewrite <- (Qfloor_Z (Z.of_nat (n - 1))). by apply Qfloor_resp_le. }
  set (f1 := Qfloor p1) in *. set (f2 := Qfloor p2) in *.
  rewrite inject_Z_plus in Hc1, Hc2. change (inject_Z 1) with 1%Q in Hc1, Hc2.
  set (lo1 := Z.to_nat f1). set (lo2 := Z.to_nat f2).
  set (hi1 := Nat.min (S lo1) (n - 1)). set (hi2 := Nat.min (S lo2) (n - 1)).
  assert (Ha1 : (nth lo1 sorted x0 <= nth hi1 sorted x0)%Q)
    by (apply sorted_nth_le; [done | lia | fold n; lia]).
  assert (Ha2 : (nth lo2 sorted x0 <= nth hi2 sorted x0)%Q)
    by (apply sorted_nth_le; [done | lia | fold n; lia]).
  destruct (decide (f1 = f2)) as [Heq|Hne].
  - assert (Hlo : lo2 = lo1) by (subst lo1 lo2; congruence).
    assert (Hhi : hi2 = hi1) by (subst hi1 hi2; congruence).
    rewrite Hlo, Hhi in *. rewrite <- Heq in *. nra.
  - assert (Hmid : (nth hi1 sorted x0 <= nth lo2 sorted x0)%Q)
      by (apply sorted_nth_le; [done | lia | fold n; lia]).
    nra.
Qed.

Lemma quantile_mono s q1 q2 v1 v2 :
  (0 <= q1)%Q -> (q1 <= q2)%Q -> (q2 <= 1)%Q ->
  quantile s q1 = Some v1 -> quantile s q2 = Some v2 -> (v1 <= v2)%Q.
Proof.
  intros H0 H12 H1. unfold quantile.
  pose proof (sort_values_sorted s) as Hs.
  destruct (sort_values s) as [|x0 l] eqn:E; [done|].
  intros Hv1 Hv2. injection Hv1 as <-. injection Hv2 as <-.
  apply interpolate_mono; auto. simpl. lia.
Qed.

(** ** Outlier bounds and masks *)

Lemma elem_of_dropna_from {A} (vs : list (option A)) i x :
  x ∈ s_values (dropna_from i vs) <-> Some x ∈ vs.
Proof.
  revert i. induction vs as [|[v|] vs IH]; intros i; simpl.
  - split; intros H; by apply elem_of_nil in H.
  - rewrite !elem_of_cons, IH. split; intros [?|?]; auto; left; congruence.
  - rewrite elem_of_cons, IH. split; [auto | intros [?|?]; [done | auto]].
Qed.

Lemma elem_of_nonmissing {A} (vs : list (option A)) x :
  x ∈ nonmissing vs <-> Some x ∈ vs.
Proof. apply elem_of_dropna_from. Qed.

Lemma quantile_None s q : quantile s q = None <-> s = [].
Proof.
  unfold quantile. pose proof (sort_values_length s) as Hl.
  destruct (sort_values s) as [|x0 l]; destruct s; simpl in *; split; try done.
Qed.

(** The bounds are both NaN (no value), or two numbers in order. *)
Lemma iqr_bounds_cases k s :
  (0 <= k)%Q ->
  (s = [] /\ iqr_bounds k s = (None, None)) \/
  (s <> [] /\ exists l u, iqr_bounds k s = (Some l, Some u) /\ (l <= u)%Q).
Proof.
  intros Hk. unfold iqr_bounds.
  destruct (quantile s (1 # 4)) as [a|] eqn:E1.
  - destruct (quantile s (3 # 4)) as [b|] eqn:E3.
    + right. split; [intros ->; done|]. eexists _, _. split; [reflexivity|].
      assert (a <= b)%Q
        by (apply (quantile_mono s (1#4) (3#4) a b); [lra | lra | lra | done | done]).
      rewrite !Qred_correct. nra.
    + apply quantile_None in E3. subst s. done.
  - apply quantile_None in E1. subst s. left. done.
Qed.

Lemma filter_id_none (l : list bool) :
  length (List.filter id l) = 0%nat -> Forall (fun b => b = false) l.
Proof.
  induction l as [|[] l IH]; cbn; intros H; [constructor | done | constructor; auto].
Qed.

Lemma mask_sum_zero lower upper (series : Series Q) :
  mask_sum (outlier_mask lower upper series) = 0%nat ->
  forall x, x ∈ s_values series ->
    flt (Some x) lower || fgt (Some x) upper = false.
Proof.
  intros H x Hx. apply filter_id_none in H. rewrite Forall_forall in H.
  apply H. unfold s_values, outlier_mask in *. rewrite map_map.
  apply list_elem_of_fmap in Hx as ([i v] & -> & Hin).
  apply list_elem_of_fmap. by exists (i, v).
Qed.

Lemma setitem_setitem df col c1 c2 :
  setitem (setitem df col c1) col c2 = setitem df col c2.
Proof.
  induction df as [|[n c0] df IH]; simpl.
  - by rewrite String.eqb_refl.
  - destruct (String.eqb col n) eqn:E; simpl; rewrite E; [done | by rewrite IH].
Qed.

Lemma clamp_two_pass l u (v : option Q) :
  (l <= u)%Q ->
  (let v1 := if flt v (Some l) then Some l else v in
   if fgt v1 (Some u) then Some u else v1) = option_map (clamp l u) v.
Proof.
  intros Hlu. destruct v as [x|]; simpl; [|done]. unfold clamp, fgt. simpl.
  destruct (Qltb x l) eqn:E; simpl.
  - apply Qltb_ge in Hlu. by rewrite Hlu.
  - by destruct (Qltb u x).
Qed.

(** One iteration in cap mode clamps the column. *)
Lemma handle_column_cap df col vs k :
  (0 <= k)%Q -> getitem df col = Some (NumCol vs) ->
  handle_column "iqr" k "cap" df col = Ok (setitem df col (NumCol (capped k vs))).
Proof.
  intros Hk Hget. unfold handle_column, capped, nonmissing. rewrite Hget.
  change (String.eqb "iqr" "iqr") with true.
  change (String.eqb "cap" "cap") with true. cbv iota.
  destruct (iqr_bounds_cases k (s_values (dropna vs)) Hk)
    as [[Hs ->]|[Hs (l & u & -> & Hlu)]].
  - assert (dropna vs = []) as -> by (by destruct (dropna vs)).
    cbn. by rewrite setitem_same.
  - destruct (Nat.ltb 0 _) eqn:Ec.
    + unfold loc_setitem, col_lt. rewrite Hget.
      unfold col_gt. rewrite getitem_setitem_eq, setitem_setitem.
      do 3 f_equal. rewrite !set_where_map, map_map.
      apply map_ext. intros v. apply (clamp_two_pass l u v Hlu).
    + apply Nat.ltb_ge in Ec.
      assert (Hz : mask_sum (outlier_mask (Some l) (Some u) (dropna vs)) = 0%nat) by lia.
      rewrite setitem_same; [done|]. rewrite Hget. do 2 f_equal.
      symmetry. rewrite <- (map_id vs) at 2. apply map_ext_in. intros [x|] Hx; [|done].
      simpl. f_equal.
      pose proof (mask_sum_zero _ _ _ Hz x) as Hm.
      rewrite (elem_of_dropna_from vs 0 x) in Hm.
      apply list_elem_of_In in Hx. specialize (Hm Hx).
      apply orb_false_iff in Hm as [Hm1 Hm2]. unfold fgt in Hm2. simpl in *.
      unfold clamp. by rewrite Hm1, Hm2.
Qed.

Lemma handle_column_absent m k a df col :
  getitem df col = None -> handle_column m k a df col = Ok df.
Proof. intros H. unfold handle_column. by rewrite H. Qed.

Lemma capped_length k vs : length (capped k vs) = length vs.
Proof.
  unfold capped. destruct (iqr_bounds k (nonmissing vs)) as [[l|] [u|]]; try done.
  by rewrite length_map.
Qed.

Lemma capped_lookup k vs l u i :
  iqr_bounds k (nonmissing vs) = (Some l, Some u) ->
  capped k vs !! i = option_map (clamp l u) <$> vs !! i.
Proof. intros H. unfold capped. rewrite H. apply list_lookup_fmap. Qed.




(** ** What one iteration can do to the frame *)

Lemma filter_mask_nil_r {A} (m : list bool) : filter_mask m (@nil A) = [].
Proof. by destruct m as [|[] m]. Qed.

Lemma filter_mask_and_then {A} (m1 m2 : list bool) (l : list A) :
  filter_mask m2 (filter_mask m1 l) = filter_mask (mask_and_then m1 m2) l.
Proof.
  revert m2 l. induction m1 as [|[] m1 IH]; intros m2 l; simpl.
  - by destruct m2.
  - destruct l as [|x l]; [by rewrite filter_mask_nil_r; destruct m2 as [|[] ?] |].
    destruct m2 as [|b m2]; simpl.
    + rewrite <- IH. by destruct (filter_mask m1 l).
    + rewrite IH. by destruct b.
  - destruct l as [|x l]; [apply filter_mask_nil_r | apply IH].
Qed.

Lemma filter_mask_length {A} (m : list bool) (l : list A) :
  (length (filter_mask m l) <= length l)%nat.
Proof.
  revert l. induction m as [|b m IH]; intros [|x l]; simpl; try lia.
  specialize (IH l). destruct b; simpl; lia.
Qed.

Lemma col_filter_and_then m1 m2 c :
  col_filter m2 (col_filter m1 c) = col_filter (mask_and_then m1 m2) c.
Proof. destruct c; simpl; by rewrite filter_mask_and_then. Qed.

Lemma filter_rows_and_then m1 m2 df :
  filter_rows m2 (filter_rows m1 df) = filter_rows (mask_and_then m1 m2) df.
Proof.
  unfold filter_rows. rewrite map_map. apply map_ext. intros [n c]. simpl.
  by rewrite col_filter_and_then.
Qed.

Lemma getitem_filter_rows mask df col :
  getitem (filter_rows mask df) col = col_filter mask <$> getitem df col.
Proof.
  induction df as [|[n c] df IH]; simpl; [done|].
  by destruct (String.eqb col n).
Qed.

Lemma columns_filter_rows mask df : columns (filter_rows mask df) = columns df.
Proof. unfold columns, filter_rows. rewrite map_map. by apply map_ext. Qed.

Lemma col_filter_len mask c : (col_len (col_filter mask c) <= col_len c)%nat.
Proof. destruct c; simpl; apply filter_mask_length. Qed.

Lemma nrows_filter_rows mask df : (nrows (filter_rows mask df) <= nrows df)%nat.
Proof. destruct df as [|[n c] df]; simpl; [lia | apply col_filter_len]. Qed.

Lemma rows_dropped_refl df : rows_dropped df df.
Proof. by left. Qed.

Lemma rows_dropped_trans d1 d2 d3 :
  rows_dropped d1 d2 -> rows_dropped d2 d3 -> rows_dropped d1 d3.
Proof.
  intros [->|[m1 ->]] [->|[m2 ->]]; try (by left); try (right; by eauto).
  right. exists (mask_and_then m1 m2). apply filter_rows_and_then.
Qed.

Lemma rows_dropped_nrows df df' : rows_dropped df df' -> (nrows df' <= nrows df)%nat.
Proof. intros [->|[m ->]]; [lia | apply nrows_filter_rows]. Qed.

Lemma getitem_bool_ok df key df' :
  getitem_bool df key = Ok df' -> exists mask, df' = filter_rows mask df.
Proof.
  unfold getitem_bool. destruct (decide _); [intros [= <-]; eauto|].
  destruct (mapM _ _); [intros [= <-]; eauto | done].
Qed.

(** An iteration leaves the frame as it is, or rewrites the values of its
    column (cap), or drops rows (remove). *)
Lemma handle_column_cases m k a df col df' :
  handle_column m k a df col = Ok df' ->
  df' = df
  \/ (a = "cap" /\ exists vs vs', getitem df col = Some (NumCol vs)
        /\ length vs' = length vs /\ df' = setitem df col (NumCol vs'))
  \/ (a = "remove" /\ exists mask, df' = filter_rows mask df).
Proof.
  unfold handle_column. destruct (getitem df col) as [[vs|vs]|] eqn:Hget;
    [| destruct (String.eqb m "iqr"); [done | intros [= <-]; by left]
     | intros [= <-]; by left].
  destruct (String.eqb m "iqr"); [|intros [= <-]; by left].
  destruct (iqr_bounds k (s_values (dropna vs))) as [lower upper].
  destruct (Nat.ltb 0 _); [|intros [= <-]; by left].
  destruct (String.eqb a "cap") eqn:Ecap.
  - apply String.eqb_eq in Ecap. intros [= <-]. right. left. split; [done|].
    unfold loc_setitem, col_lt. rewrite Hget. unfold col_gt.
    rewrite getitem_setitem_eq, setitem_setitem.
    eexists vs, _. split; [done|]. split; [|reflexivity].
    by rewrite !length_set_where.
  - destruct (String.eqb a "remove") eqn:Erem; [|intros [= <-]; by left].
    apply String.eqb_eq in Erem. intros H. right. right. split; [done|].
    by apply getitem_bool_ok in H.
Qed.

Lemma handle_column_columns m k a df col df' :
  handle_column m k a df col = Ok df' -> columns df' = columns df.
Proof.
  intros H. apply handle_column_cases in H
    as [->|[(_ & vs & vs' & Hget & _ & ->)|(_ & mask & ->)]]; [done | |].
  - by eapply columns_setitem.
  - apply columns_filter_rows.
Qed.

Lemma foldM_app {A B} (f : A -> B -> result A) l1 l2 a :
  foldM f (l1 ++ l2) a = (a' <-r foldM f l1 a ;; foldM f l2 a').
Proof.
  revert a. induction l1 as [|x l1 IH]; intros a; simpl; [done|].
  destruct (f a x); simpl; [apply IH | done].
Qed.

(** Names that are not column names do not influence the loop. *)
Lemma outlier_loop_skips m k a (names : list string) cols :
  forall df, columns df = names ->
  foldM (handle_column m k a) cols df =
  foldM (handle_column m k a)
    (List.filter (fun col => existsb (String.eqb col) names) cols) df.
Proof.
  induction cols as [|col cols IH]; intros df Hn; simpl; [done|].
  destruct (existsb (String.eqb col) names) eqn:E; simpl.
  - destruct (handle_column m k a df col) as [df1|e] eqn:H1; simpl; [|done].
    apply IH. apply handle_column_columns in H1. congruence.
  - rewrite handle_column_absent; [simpl; by apply IH|].
    destruct (getitem df col) eqn:Hg; [|done].
    assert (has_column df col = true) as Hh by (apply has_column_getitem; congruence).
    unfold has_column in Hh. congruence.
Qed.

Lemma outlier_loop_columns m k a cols :
  forall df df', foldM (handle_column m k a) cols df = Ok df' ->
  columns df' = columns df.
Proof.
  induction cols as [|col cols IH]; intros df df'; simpl; [by intros [= <-]|].
  intros H. apply rbind_ok in H as (df1 & H1 & H2).
  apply IH in H2. apply handle_column_columns in H1. congruence.
Qed.

(** Outside remove mode only the listed columns change. *)
Lemma outlier_loop_frame m k a cols :
  a <> "remove" ->
  forall df df', foldM (handle_column m k a) cols df = Ok df' ->
  nrows df' = nrows df /\
  forall col, col ∉ cols -> getitem df' col = getitem df col.
Proof.
  intros Ha. induction cols as [|col cols IH]; intros df df'; simpl.
  - by intros [= <-].
  - intros H. apply rbind_ok in H as (df1 & H1 & H2).
    apply IH in H2 as [Hr Hg].
    apply handle_column_cases in H1
      as [->|[(_ & vs & vs' & Hget & Hlen & ->)|(? & _)]]; [| |done].
    + split; [done|]. intros c Hc. apply Hg. rewrite not_elem_of_cons in Hc. tauto.
    + split.
      * rewrite Hr. eapply nrows_setitem; [done|]. simpl. done.
      * intros c Hc. rewrite not_elem_of_cons in Hc. destruct Hc as [Hne Hc].
        rewrite Hg by done. by rewrite getitem_setitem_ne.
Qed.

(** In remove mode rows are dropped and nothing else changes. *)
Lemma outlier_loop_remove m k cols :
  forall df df', foldM (handle_column m k "remove") cols df = Ok df' ->
  rows_dropped df df'.
Proof.
  induction cols as [|col cols IH]; intros df df'; simpl.
  - intros [= <-]. apply rows_dropped_refl.
  - intros H. apply rbind_ok in H as (df1 & H1 & H2).
    apply IH in H2. eapply rows_dropped_trans; [|exact H2].
    apply handle_column_cases in H1 as [->|[(? & _)|(_ & mask & ->)]];
      [by left | done | right; eauto].
Qed.

Lemma detect_other_method df cols m k a :
  m <> "iqr" -> detect_and_handle_outliers df cols m k a = Ok df.
Proof.
  intros Hm. unfold detect_and_handle_outliers, copy.
  induction cols as [|col cols IH]; simpl; [done|].
  assert (handle_column m k a df col = Ok df) as ->; [|exact IH].
  unfold handle_column. apply String.eqb_neq in Hm. rewrite Hm.
  by destruct (getitem df col).
Qed.

(** C8 (as amended). Listed names that are not column names are skipped:
    the call does what the call without them does, error or not.  When a
    table is returned it has the columns of the input; outside remove
    mode it has the input's row count and every column that is not listed
    is identical to the input's; in remove mode the table is the input or
    the input with rows dropped, so that a column that is not listed keeps
    its values in the rows that are left. *)
Theorem outliers_skip_unknown_and_frame (df : DataFrame) (cols : list string)
    (m : string) (k : Q) (a : string) :
  detect_and_handle_outliers df cols m k a
  = detect_and_handle_outliers df (List.filter (has_column df) cols) m k a
  /\ forall df', detect_and_handle_outliers df cols m k a = Ok df' ->
       columns df' = columns df
       /\ (a <> "remove" ->
           nrows df' = nrows df
           /\ forall col, col ∉ cols -> getitem df' col = getitem df col)
       /\ (a = "remove" ->
           df' = df
           \/ exists mask, forall col,
                getitem df' col = col_filter mask <$> getitem df col).
Proof.
  unfold detect_and_handle_outliers, copy. split.
  - apply (outlier_loop_skips m k a (columns df) cols df eq_refl).
  - intros df' H. split; [by eapply outlier_loop_columns|]. split.
    + intros Ha. by eapply outlier_loop_frame.
    + intros ->. apply outlier_loop_remove in H as [->|[mask ->]]; [by left|].
      right. exists mask. intros col. apply getitem_filter_rows.
Qed.

(** C8, the claim as stated fails in remove mode: dropping the row of the
    outlier of A shortens the column B, which is not a target. *)
Lemma remove_shortens_other_columns :
  exists df',
    detect_and_handle_outliers ex_outlier ["A"; "Z"] "iqr" (3 # 2) "remove" = Ok df'
    /\ getitem ex_outlier "B" = Some (NumCol (map some_q [10; 20; 30; 40; 50]%Z))
    /\ getitem df' "B" = Some (NumCol (map some_q [10; 20; 30; 40]%Z))
    /\ getitem df' "B" <> getitem ex_outlier "B".
Proof.
  eexists. split; [vm_compute; reflexivity|]. split; [reflexivity|].
  split; [reflexivity|]. discriminate.
Qed.

(** C2, the failing input: a target column with a missing value and an
    outlier.  The mask built from the Series without its missing values
    lacks the label of the row with the missing value, and indexing the
    frame with it raises instead of dropping the row of the outlier. *)
Theorem remove_raises_with_missing_value :
  detect_and_handle_outliers ex_outlier_missing ["A"] "iqr" (3 # 2) "remove"
  = Raise IndexingError.
Proof. vm_compute. reflexivity. Qed.

(** ** Rows of a frame and duplicates *)

Lemma filter_mask_count {A} (mask : list bool) (l : list A) :
  length l = length mask -> length (filter_mask mask l) = count_true mask.
Proof.
  unfold count_true. revert l.
  induction mask as [|[] mask IH]; intros [|x l]; cbn; try done; intros [= H]; auto.
Qed.

Lemma filter_mask_repeat {A} (x : A) (mask : list bool) :
  filter_mask mask (repeat x (length mask)) = repeat x (count_true mask).
Proof.
  unfold count_true. induction mask as [|[] mask IH]; cbn; [done | by rewrite IH | done].
Qed.

Lemma filter_mask_zip_with {A B C} (f : A -> B -> C) mask l1 l2 :
  filter_mask mask (zip_with f l1 l2)
  = zip_with f (filter_mask mask l1) (filter_mask mask l2).
Proof.
  revert l1 l2. induction mask as [|b mask IH]; intros [|x l1] [|y l2]; simpl; try done.
  all: destruct b; simpl; try done.
  - by destruct (filter_mask mask l1).
  - by rewrite IH.
Qed.

Lemma filter_mask_map {A B} (f : A -> B) mask l :
  filter_mask mask (map f l) = map f (filter_mask mask l).
Proof.
  revert l. induction mask as [|b mask IH]; intros [|x l]; simpl; try done.
  destruct b; simpl; by rewrite IH.
Qed.

Lemma filter_mask_all_true {A} (mask : list bool) (l : list A) :
  Forall (fun b => b = true) mask -> (length l <= length mask)%nat ->
  filter_mask mask l = l.
Proof.
  intros H. revert l. induction H as [|b0 mask Hb _ IH]; intros [|x l]; simpl; try done.
  - lia.
  - intros Hl. rewrite Hb, IH; [done | lia].
Qed.

Lemma filter_mask_sublist {A} (mask : list bool) (l : list A) :
  filter_mask mask l `sublist_of` l.
Proof.
  revert l. induction mask as [|b mask IH]; intros [|x l]; simpl;
    try apply sublist_nil_l.
  destruct b; [by apply sublist_skip | by apply sublist_cons].
Qed.

Lemma col_cells_filter mask c :
  col_cells (col_filter mask c) = filter_mask mask (col_cells c).
Proof. destruct c; simpl; by rewrite filter_mask_map. Qed.

Lemma col_cells_length c : length (col_cells c) = col_len c.
Proof. destruct c; simpl; apply length_map. Qed.

Lemma rows_n_length n df : all_len n df -> length (rows_n n df) = n.
Proof.
  induction 1 as [|[name c] df Hc Hdf IH]; simpl.
  - apply repeat_length.
  - rewrite length_zip_with, IH, col_cells_length. simpl in Hc. lia.
Qed.

Lemma all_len_filter_rows n mask df :
  all_len n df -> length mask = n ->
  all_len (count_true mask) (filter_rows mask df).
Proof.
  intros H Hm. unfold all_len, filter_rows. rewrite Forall_map.
  eapply Forall_impl; [exact H|]. intros [name c] Hc. simpl in *.
  rewrite <- col_cells_length, col_cells_filter.
  apply filter_mask_count. rewrite col_cells_length. congruence.
Qed.

Lemma rows_n_filter_rows n mask df :
  all_len n df -> length mask = n ->
  rows_n (count_true mask) (filter_rows mask df) = filter_mask mask (rows_n n df).
Proof.
  intros H Hm. induction H as [|[name c] df Hc Hdf IH]; simpl.
  - subst n. by rewrite filter_mask_repeat.
  - by rewrite IH, col_cells_filter, filter_mask_zip_with.
Qed.

Lemma wf_all_len df : wf df -> all_len (nrows df) df.
Proof. by intros [_ H]. Qed.

Lemma nrows_all_len n df : all_len n df -> df <> [] -> nrows df = n.
Proof. intros H Hne. destruct H as [|[name c] df Hc _]; [done | exact Hc]. Qed.

Lemma rows_filter_rows mask df :
  wf df -> length mask = nrows df ->
  rows (filter_rows mask df) = filter_mask mask (rows df).
Proof.
  intros Hwf Hm. unfold rows. destruct (decide (df = [])) as [->|Hne].
  - simpl. by rewrite filter_mask_nil_r.
  - rewrite <- (rows_n_filter_rows (nrows df)); [|by apply wf_all_len | done].
    f_equal. apply (nrows_all_len (count_true mask)).
    + apply (all_len_filter_rows (nrows df)); [by apply wf_all_len | done].
    + by destruct df.
Qed.

Lemma wf_filter_rows mask df :
  wf df -> length mask = nrows df -> wf (filter_rows mask df).
Proof.
  intros Hwf Hm. split.
  - rewrite columns_filter_rows. apply Hwf.
  - destruct (decide (df = [])) as [->|Hne]; [constructor|].
    pose proof (all_len_filter_rows (nrows df) mask df (wf_all_len df Hwf) Hm) as H.
    rewrite (nrows_all_len _ _ H); [done | by destruct df].
Qed.

Lemma duplicated_from_length seen rs : length (duplicated_from seen rs) = length rs.
Proof.
  revert seen. induction rs as [|r rs IH]; intros seen; simpl; [done | by rewrite IH].
Qed.

Lemma duplicated_length df : wf df -> length (duplicated df) = nrows df.
Proof.
  intros Hwf. unfold duplicated, rows.
  rewrite duplicated_from_length. apply rows_n_length. by apply wf_all_len.
Qed.

Lemma rows_drop_duplicates df :
  wf df ->
  rows (drop_duplicates df) = filter_mask (map negb (duplicated df)) (rows df).
Proof.
  intros Hwf. apply rows_filter_rows; [done|].
  rewrite length_map. by apply duplicated_length.
Qed.

Lemma wf_drop_duplicates df : wf df -> wf (drop_duplicates df).
Proof.
  intros Hwf. apply wf_filter_rows; [done|].
  rewrite length_map. by apply duplicated_length.
Qed.

(** Equality of rows is an equivalence. *)
Lemma cell_eqb_refl a : cell_eqb a a = true.
Proof.
  destruct a as [[x|]|[s|]]; simpl; auto using Qeq_bool_refl, String.eqb_refl.
Qed.

Lemma cell_eqb_trans a b c :
  cell_eqb a b = true -> cell_eqb b c = true -> cell_eqb a c = true.
Proof.
  destruct a as [[x|]|[s|]], b as [[y|]|[t|]], c as [[z|]|[u|]]; simpl; try done.
  - apply Qeq_bool_trans.
  - rewrite !String.eqb_eq. congruence.
Qed.

Lemma row_eqb_refl r : row_eqb r r = true.
Proof. induction r as [|a r IH]; simpl; [done | by rewrite cell_eqb_refl]. Qed.

Lemma row_eqb_trans r1 r2 r3 :
  row_eqb r1 r2 = true -> row_eqb r2 r3 = true -> row_eqb r1 r3 = true.
Proof.
  revert r2 r3. induction r1 as [|a r1 IH]; intros [|b r2] [|c r3]; simpl; try done.
  rewrite !andb_true_iff. intros [H1 H2] [H3 H4]. split.
  - by eapply cell_eqb_trans.
  - by eapply IH.
Qed.

Lemma existsb_row_eqb r (seen : list row) :
  existsb (row_eqb r) seen = true <-> exists s, s ∈ seen /\ row_eqb r s = true.
Proof.
  rewrite existsb_exists. split; intros (s & Hs & He); exists s;
    (split; [by apply list_elem_of_In | done]).
Qed.

(** After dropping the flagged rows no row equals an earlier one. *)
Lemma filtered_rows_distinct rs :
  forall seen seen', seen' ⊆ seen ->
  Forall (fun b => b = false)
    (duplicated_from seen' (filter_mask (map negb (duplicated_from seen rs)) rs)).
Proof.
  induction rs as [|r rs IH]; intros seen seen' Hsub; simpl; [constructor|].
  destruct (existsb (row_eqb r) seen) eqn:E; simpl.
  - apply IH. intros x Hx. right. auto.
  - constructor.
    + destruct (existsb (row_eqb r) seen') eqn:E'; [|done].
      apply existsb_row_eqb in E' as (s & Hs & He).
      assert (existsb (row_eqb r) seen = true) as Ht
        by (apply existsb_row_eqb; exists s; split; [by apply Hsub | done]).
      congruence.
    + apply IH. intros x Hx. apply elem_of_cons in Hx as [->|Hx]; [left | right; auto].
Qed.

(** Every row equals a row that is kept (or one seen before). *)
Lemma kept_rows_cover rs :
  forall seen r, r ∈ rs ->
  (exists s, s ∈ seen /\ row_eqb r s = true)
  \/ exists r', r' ∈ filter_mask (map negb (duplicated_from seen rs)) rs
       /\ row_eqb r r' = true.
Proof.
  induction rs as [|r0 rs IH]; intros seen r Hr; [by apply elem_of_nil in Hr|].
  simpl. apply elem_of_cons in Hr as [->|Hr].
  - destruct (existsb (row_eqb r0) seen) eqn:E; simpl.
    + left. by apply existsb_row_eqb.
    + right. exists r0. split; [left | apply row_eqb_refl].
  - destruct (IH (r0 :: seen) r Hr) as [(s & Hs & He)|(r' & Hr' & He)].
    + apply elem_of_cons in Hs as [->|Hs]; [|left; eauto].
      destruct (existsb (row_eqb r0) seen) eqn:E; simpl.
      * apply existsb_row_eqb in E as (s & Hs & He').
        left. exists s. split; [done|]. by eapply row_eqb_trans.
      * right. exists r0. split; [left | done].
    + right. exists r'. split; [|done].
      destruct (existsb (row_eqb r0) seen); simpl; [done | by right].
Qed.

Lemma drop_duplicates_distinct df : wf df -> no_duplicate_rows (drop_duplicates df).
Proof.
  intros Hwf. unfold no_duplicate_rows, duplicated at 1.
  rewrite rows_drop_duplicates by done. by apply filtered_rows_distinct.
Qed.

Lemma drop_duplicates_cover df r :
  wf df -> r ∈ rows df ->
  exists r', r' ∈ rows (drop_duplicates df) /\ row_eqb r r' = true.
Proof.
  intros Hwf Hr. rewrite rows_drop_duplicates by done.
  destruct (kept_rows_cover (rows df) [] r Hr) as [(s & Hs & _)|H]; [|done].
  by apply elem_of_nil in Hs.
Qed.

Lemma drop_duplicates_clean df :
  wf df -> no_duplicate_rows df -> drop_duplicates df = df.
Proof.
  intros Hwf Hnd. unfold drop_duplicates, filter_rows.
  rewrite <- (map_id df) at 2. apply map_ext_in. intros [name c] Hin. simpl. f_equal.
  assert (Hlen : col_len c = nrows df).
  { destruct Hwf as [_ Hl]. rewrite Forall_forall in Hl.
    apply (Hl (name, c)). by apply list_elem_of_In. }
  assert (Hall : Forall (fun b => b = true) (map negb (duplicated df))).
  { rewrite Forall_map. eapply Forall_impl; [exact Hnd|]. by intros b ->. }
  assert (Hm : length (map negb (duplicated df)) = nrows df)
    by (rewrite length_map; by apply duplicated_length).
  destruct c as [vs|vs]; simpl in *; f_equal;
    (apply filter_mask_all_true; [done | lia]).
Qed.

(** ** Filling missing values *)

Lemma isna_any_false {A} (vs : list (option A)) :
  isna_any vs = false <-> Forall is_Some vs.
Proof.
  unfold isna_any. induction vs as [|[v|] vs IH]; simpl.
  - split; [constructor | done].
  - rewrite IH. split; [by constructor | by inversion 1].
  - split; [done | inversion 1 as [|? ? [? ?]]; done].
Qed.

Lemma fillna_complete {A} (value : option A) vs :
  Forall is_Some vs -> fillna value vs = vs.
Proof.
  unfold fillna. induction 1 as [|v vs [x ->] _ IH]; simpl; [done | by rewrite IH].
Qed.

Lemma fillna_Some_complete {A} (x : A) vs : Forall is_Some (fillna (Some x) vs).
Proof.
  unfold fillna. apply Forall_map, Forall_forall. intros [v|] _; simpl; eauto.
Qed.

Lemma fillna_length {A} (value : option A) vs : length (fillna value vs) = length vs.
Proof. apply length_map. Qed.

Lemma col_complete_num vs : col_complete (NumCol vs) <-> Forall is_Some vs.
Proof.
  unfold col_complete. simpl. rewrite Forall_map. apply Forall_proper; [|done].
  intros [x|]; simpl; split; intros H; eauto; try done; by destruct H.
Qed.

Lemma col_complete_cat vs : col_complete (CatCol vs) <-> Forall is_Some vs.
Proof.
  unfold col_complete. simpl. rewrite Forall_map. apply Forall_proper; [|done].
  intros [x|]; simpl; split; intros H; eauto; try done; by destruct H.
Qed.

Lemma getitem_fill_numeric df col :
  getitem (fill_numeric df) col = fill_num_col <$> getitem df col.
Proof.
  induction df as [|[n c] df IH]; simpl; [done|].
  destruct c as [vs|vs]; simpl; by destruct (String.eqb col n).
Qed.

Lemma columns_fill_numeric df : columns (fill_numeric df) = columns df.
Proof.
  unfold columns, fill_numeric. rewrite map_map. apply map_ext.
  by intros [n [vs|vs]].
Qed.

Lemma cat_cols_fill_numeric df : cat_cols (fill_numeric df) = cat_cols df.
Proof.
  unfold cat_cols, fill_numeric.
  induction df as [|[n [vs|vs]] df IH]; simpl; [done | exact IH | f_equal; exact IH].
Qed.


Lemma fill_categorical_alt df col :
  fill_categorical df col =
  match getitem df col with
  | Some c => c' <-r fill_cat_col c ;; Ok (setitem df col c')
  | None => Ok df
  end.
Proof.
  unfold fill_categorical. destruct (getitem df col) as [[vs|vs]|] eqn:Hget; simpl.
  - by rewrite setitem_same.
  - destruct (isna_any vs); simpl.
    + by destruct (first_mode _).
    + by rewrite setitem_same.
  - done.
Qed.




(** ** The mode *)

Lemma insert_uniq_elem s l x : x ∈ insert_uniq s l <-> x = s \/ x ∈ l.
Proof.
  induction l as [|t l IH]; simpl.
  - rewrite list_elem_of_singleton. split; [auto | intros [?|H]; [done|]].
    by apply elem_of_nil in H.
  - destruct (String_as_OT.compare_spec s t) as [Heq|Hlt|Hgt].
    + change (s = t) in Heq. subst t. rewrite elem_of_cons. tauto.
    + rewrite elem_of_cons. tauto.
    + rewrite !elem_of_cons, IH. tauto.
Qed.

Lemma sorted_unique_elem l x : x ∈ sorted_unique l <-> x ∈ l.
Proof.
  unfold sorted_unique. induction l as [|s l IH]; simpl; [done|].
  rewrite insert_uniq_elem, elem_of_cons, IH. tauto.
Qed.

Lemma fold_max_ge {A} (f : A -> nat) l x :
  x ∈ l -> (f x <= fold_right Nat.max 0%nat (map f l))%nat.
Proof.
  induction l as [|y l IH]; intros Hx; [by apply elem_of_nil in Hx|].
  simpl. apply elem_of_cons in Hx as [->|Hx]; [lia|]. specialize (IH Hx). lia.
Qed.

Lemma fold_max_attained {A} (f : A -> nat) l :
  l <> [] -> exists x, x ∈ l /\ f x = fold_right Nat.max 0%nat (map f l).
Proof.
  induction l as [|y l IH]; [done|]. intros _. simpl.
  destruct l as [|z l].
  - exists y. split; [left | simpl; lia].
  - destruct IH as (x & Hx & Hfx); [done|].
    destruct (Nat.max_spec (f y) (fold_right Nat.max 0%nat (map f (z :: l))))
      as [[_ ->]|[_ ->]].
    + exists x. split; [by right | done].
    + exists y. split; [left | done].
Qed.

Lemma mode_elem l m :
  m ∈ mode l <->
  m ∈ l /\ count_str m l
          = fold_right Nat.max 0%nat (map (fun s => count_str s l) (sorted_unique l)).
Proof.
  unfold mode. rewrite list_elem_of_In, filter_In, <- list_elem_of_In.
  rewrite sorted_unique_elem, Nat.eqb_eq. done.
Qed.

Lemma mode_nonempty l : l <> [] -> mode l <> [].
Proof.
  intros Hne.
  destruct (fold_max_attained (fun s => count_str s l) (sorted_unique l))
    as (x & Hx & Hfx).
  - destruct l as [|s l]; [done|]. intros Hnil.
    assert (s ∈ sorted_unique (s :: l)) as Hs by (apply sorted_unique_elem; left).
    rewrite Hnil in Hs. by apply elem_of_nil in Hs.
  - intros Hnil. assert (x ∈ mode l) as Hm.
    { apply mode_elem. split; [by apply sorted_unique_elem | done]. }
    rewrite Hnil in Hm. by apply elem_of_nil in Hm.
Qed.

Lemma count_str_absent s l : s ∉ l -> count_str s l = 0%nat.
Proof.
  unfold count_str. induction l as [|t l IH]; simpl; [done|].
  rewrite not_elem_of_cons. intros [Hne Hnin].
  apply String.eqb_neq in Hne. rewrite Hne. auto.
Qed.

(** The value [first_mode] returns is a most frequent value. *)
Lemma first_mode_most_frequent l m :
  first_mode l = Ok m -> m ∈ l /\ forall s, (count_str s l <= count_str m l)%nat.
Proof.
  unfold first_mode. destruct (mode l) as [|m0 ms] eqn:E; [done|]. intros [= <-].
  assert (m0 ∈ mode l) as Hm by (rewrite E; left).
  apply mode_elem in Hm as [Hin Hmax]. split; [done|]. intros s.
  destruct (decide (s ∈ l)) as [Hs|Hs].
  - rewrite Hmax. apply (fold_max_ge (fun s => count_str s l)).
    by apply sorted_unique_elem.
  - rewrite count_str_absent by done. lia.
Qed.

Lemma first_mode_raise l e :
  first_mode l = Raise e <-> l = [] /\ e = KeyError "0".
Proof.
  unfold first_mode. split.
  - destruct (mode l) as [|m ms] eqn:E; [|done]. intros [= <-]. split; [|done].
    destruct l as [|s l]; [done|]. exfalso. by apply (mode_nonempty (s :: l)).
  - by intros [-> ->].
Qed.

Lemma nonmissing_nil {A} (vs : list (option A)) :
  nonmissing vs = [] <-> Forall (fun v => v = None) vs.
Proof.
  split.
  - intros H. apply Forall_forall. intros [x|] Hx; [|done].
    apply elem_of_nonmissing in Hx. rewrite H in Hx. by apply elem_of_nil in Hx.
  - intros H. destruct (nonmissing vs) as [|x l] eqn:E; [done|].
    assert (x ∈ nonmissing vs) as Hx by (rewrite E; left).
    apply elem_of_nonmissing in Hx. rewrite Forall_forall in H.
    by specialize (H _ Hx).
Qed.

Lemma entirely_missing_cat vs :
  entirely_missing (CatCol vs) <-> vs <> [] /\ Forall (fun v => v = None) vs.
Proof.
  unfold entirely_missing. simpl. rewrite Forall_map. split.
  - intros [Hl Hall]. split; [by destruct vs; [simpl in Hl; lia|] |].
    eapply Forall_impl; [exact Hall|]. by intros [x|].
  - intros [Hne Hall]. split; [destruct vs; [done | simpl; lia] |].
    eapply Forall_impl; [exact Hall|]. by intros v ->.
Qed.

(** Filling a categorical column raises exactly when the column has values
    and all of them are missing; the exception is the [KeyError] of
    [mode()[0]]. *)
Lemma fill_cat_col_raise c e :
  fill_cat_col c = Raise e <->
  e = KeyError "0" /\ exists vs, c = CatCol vs /\ entirely_missing (CatCol vs).
Proof.
  destruct c as [vs|vs]; simpl.
  - split; [done | intros (_ & vs' & ? & _); done].
  - destruct (isna_any vs) eqn:Ena.
    + split.
      * intros H. apply rbind_raise in H as [H|(m & _ & H)]; [|done].
        apply first_mode_raise in H as [Hnil ->]. split; [done|].
        exists vs. split; [done|]. apply entirely_missing_cat. split.
        -- intros ->. done.
        -- by apply nonmissing_nil.
      * intros (-> & vs' & [= <-] & Hm). apply entirely_missing_cat in Hm as [_ Hall].
        apply nonmissing_nil in Hall. rewrite Hall. done.
    + split; [done|]. intros (_ & vs' & [= <-] & Hm).
      apply entirely_missing_cat in Hm as [Hne Hall].
      apply isna_any_false in Ena. destruct vs as [|v vs]; [done|].
      apply Forall_cons in Ena as [[x ->] _]. apply Forall_cons in Hall as [? _]. done.
Qed.

Lemma fill_cat_col_ok c c' :
  fill_cat_col c = Ok c' ->
  col_len c' = col_len c /\
  match c with
  | NumCol _ => c' = c
  | CatCol vs =>
      col_complete c'
      /\ (c' = c \/ exists m, first_mode (nonmissing vs) = Ok m
                    /\ c' = CatCol (fillna (Some m) vs))
  end.
Proof.
  destruct c as [vs|vs]; simpl; [by intros [= <-]|].
  destruct (isna_any vs) eqn:Ena.
  - intros H. apply rbind_ok in H as (m & Hm & [= <-]). simpl.
    split; [apply fillna_length|]. split; [|right; eauto].
    apply col_complete_cat, fillna_Some_complete.
  - intros [= <-]. split; [done|]. split; [|by left].
    by apply col_complete_cat, isna_any_false.
Qed.

(** ** The loop over the categorical columns *)

Lemma fill_loop cols :
  NoDup cols -> forall df,
  match foldM fill_categorical cols df with
  | Ok df' =>
      columns df' = columns df /\ nrows df' = nrows df
      /\ (forall col, col ∉ cols -> getitem df' col = getitem df col)
      /\ (forall col c, col ∈ cols -> getitem df col = Some c ->
          exists c', fill_cat_col c = Ok c' /\ getitem df' col = Some c')
  | Raise e =>
      exists col c, col ∈ cols /\ getitem df col = Some c /\ fill_cat_col c = Raise e
  end.
Proof.
  induction 1 as [|col cols Hnin Hnd IH]; intros df; simpl.
  - repeat split; try done. intros col c H. by apply elem_of_nil in H.
  - rewrite fill_categorical_alt. destruct (getitem df col) as [c|] eqn:Hget; simpl.
    + destruct (fill_cat_col c) as [c'|e] eqn:Hfill; simpl.
      * set (df1 := setitem df col c').
        assert (Hne : forall col0, col0 ∈ cols -> getitem df1 col0 = getitem df col0).
        { intros col0 Hin. subst df1. apply getitem_setitem_ne. by intros ->. }
        specialize (IH df1). destruct (foldM fill_categorical cols df1) as [df'|e].
        -- destruct IH as (Hc & Hr & Hout & Hin). split; [|split; [|split]].
           ++ rewrite Hc. subst df1. by eapply columns_setitem.
           ++ rewrite Hr. subst df1. eapply nrows_setitem; [done|].
              by apply fill_cat_col_ok in Hfill as [? _].
           ++ intros col0 H0. rewrite not_elem_of_cons in H0. destruct H0 as [H0 H1].
              rewrite Hout by done. subst df1. by apply getitem_setitem_ne.
           ++ intros col0 c0 H0 Hg. apply elem_of_cons in H0 as [->|H0].
              ** rewrite Hget in Hg. injection Hg as <-. exists c'. split; [done|].
                 rewrite Hout by done. subst df1. apply getitem_setitem_eq.
              ** apply Hin; [done|]. by rewrite Hne.
        -- destruct IH as (col0 & c0 & H0 & Hg & Hraise).
           exists col0, c0. split; [by right|]. split; [|done]. by rewrite <- Hne.
      * exists col, c. split; [left | done].
    + specialize (IH df). destruct (foldM fill_categorical cols df) as [df'|e].
      * destruct IH as (Hc & Hr & Hout & Hin). repeat split; try done.
        -- intros col0 H0. rewrite not_elem_of_cons in H0. apply Hout. tauto.
        -- intros col0 c0 H0 Hg. apply elem_of_cons in H0 as [->|H0]; [congruence|].
           by apply Hin.
      * destruct IH as (col0 & c0 & H0 & Hg & Hraise).
        exists col0, c0. split; [by right | done].
Qed.

Lemma cat_cols_sublist df : cat_cols df `sublist_of` columns df.
Proof.
  unfold cat_cols, columns. induction df as [|[n [vs|vs]] df IH]; simpl.
  - constructor.
  - by apply sublist_cons.
  - by apply sublist_skip.
Qed.

Lemma cat_cols_elem df col :
  col ∈ cat_cols df <-> exists vs, (col, CatCol vs) ∈ df.
Proof.
  unfold cat_cols. rewrite list_elem_of_omap. split.
  - intros ([n [vs|vs]] & Hin & Heq); simpl in Heq; [done|].
    injection Heq as ->. eauto.
  - intros [vs Hin]. exists (col, CatCol vs). done.
Qed.

(** ** Rows and the cells of a column *)

Lemma lookup_map {A B} (f : A -> B) (l : list A) i : map f l !! i = f <$> l !! i.
Proof. exact (list_lookup_fmap f l i). Qed.

Lemma map_head_zip_cons {A} (l1 : list A) (l2 : list (list A)) :
  (length l1 <= length l2)%nat ->
  map (fun r : list A => r !! 0%nat) (zip_with cons l1 l2) = map Some l1.
Proof.
  revert l2. induction l1 as [|x l1 IH]; intros [|y l2]; simpl; try done; try lia.
  intros H. rewrite IH; [done | lia].
Qed.

Lemma map_tail_zip_cons {A} p (l1 : list A) (l2 : list (list A)) :
  (length l2 <= length l1)%nat ->
  map (fun r : list A => r !! S p) (zip_with cons l1 l2)
  = map (fun r : list A => r !! p) l2.
Proof.
  revert l2. induction l1 as [|x l1 IH]; intros [|y l2]; simpl; try done; try lia.
  intros H. rewrite IH; [done | lia].
Qed.

Lemma rows_n_column n df : forall p name c,
  all_len n df -> df !! p = Some (name, c) ->
  map (fun r : row => r !! p) (rows_n n df) = map Some (col_cells c).
Proof.
  induction df as [|[n0 c0] df IH]; intros p name c Hlen Hp; [done|].
  apply Forall_cons in Hlen as [Hc0 Hlen]. simpl in Hc0.
  pose proof (rows_n_length n df Hlen) as Hrl.
  pose proof (col_cells_length c0) as Hcl.
  destruct p as [|p]; simpl in *.
  - injection Hp as -> ->. apply map_head_zip_cons. lia.
  - rewrite map_tail_zip_cons by lia. by eapply IH.
Qed.

Lemma row_cell n df p name c (r : row) :
  all_len n df -> df !! p = Some (name, c) -> r ∈ rows_n n df ->
  exists k, r !! p = Some k /\ k ∈ col_cells c.
Proof.
  intros Hlen Hp Hr.
  assert (r !! p ∈ map (fun r : row => r !! p) (rows_n n df)) as H
    by (apply list_elem_of_fmap; eauto).
  rewrite (rows_n_column n df p name c Hlen Hp) in H.
  apply list_elem_of_fmap in H as (k & Hk & Hin). eauto.
Qed.

Lemma cell_row n df p name c (k : cell) :
  all_len n df -> df !! p = Some (name, c) -> k ∈ col_cells c ->
  exists r : row, r ∈ rows_n n df /\ r !! p = Some k.
Proof.
  intros Hlen Hp Hk.
  assert (Some k ∈ map Some (col_cells c)) as H
    by (apply list_elem_of_fmap; eauto).
  rewrite <- (rows_n_column n df p name c Hlen Hp) in H.
  apply list_elem_of_fmap in H as (r & Hr & Hin). eauto.
Qed.

Lemma row_eqb_lookup (r r' : row) p a :
  row_eqb r r' = true -> r !! p = Some a ->
  exists b, r' !! p = Some b /\ cell_eqb a b = true.
Proof.
  revert r' p. induction r as [|x r IH]; intros [|y r'] p; simpl; try done.
  rewrite andb_true_iff. intros [Hxy Hr]. destruct p as [|p]; simpl.
  - intros [= <-]. eauto.
  - by apply IH.
Qed.

(** Every cell of a column is equal to a cell that [drop_duplicates] keeps
    in that column. *)
Lemma drop_duplicates_cell df col c k :
  wf df -> getitem df col = Some c -> k ∈ col_cells c ->
  exists k', k' ∈ col_cells (col_filter (map negb (duplicated df)) c)
             /\ cell_eqb k k' = true.
Proof.
  intros Hwf Hget Hk.
  apply getitem_Some_elem, list_elem_of_lookup in Hget as [p Hp].
  destruct (cell_row (nrows df) df p col c k (wf_all_len df Hwf) Hp Hk)
    as (r & Hr & Hrp).
  destruct (drop_duplicates_cover df r Hwf Hr) as (r' & Hr' & Heq).
  destruct (row_eqb_lookup r r' p k Heq Hrp) as (k' & Hk' & Hkk).
  exists k'. split; [|done].
  pose proof (wf_drop_duplicates df Hwf) as Hwf'.
  destruct (row_cell (nrows (drop_duplicates df)) (drop_duplicates df) p col
              (col_filter (map negb (duplicated df)) c) r'
              (wf_all_len _ Hwf')) as (k'' & Hk'' & Hin); [| exact Hr' |].
  - unfold drop_duplicates, filter_rows. rewrite lookup_map, Hp. done.
  - congruence.
Qed.

Lemma duplicated_first df :
  wf df -> (0 < nrows df)%nat -> exists bs, duplicated df = false :: bs.
Proof.
  intros Hwf Hn. unfold duplicated.
  pose proof (rows_n_length (nrows df) df (wf_all_len df Hwf)) as Hl.
  fold (rows df) in Hl. destruct (rows df) as [|r rs]; simpl in *; [lia | eauto].
Qed.

Lemma wf_col_len df col c : wf df -> getitem df col = Some c -> col_len c = nrows df.
Proof.
  intros [_ Hl] Hget. apply getitem_Some_elem in Hget.
  rewrite Forall_forall in Hl. apply (Hl _ Hget).
Qed.

Lemma filter_mask_Forall {A} (P : A -> Prop) mask l :
  Forall P l -> Forall P (filter_mask mask l).
Proof.
  intros H. revert mask. induction H as [|x l Hx _ IH]; intros [|[] mask]; simpl;
    try constructor; auto.
Qed.

(** A categorical column is entirely missing before [drop_duplicates]
    exactly when it is afterwards. *)
Lemma entirely_missing_drop_duplicates df col vs :
  wf df -> getitem df col = Some (CatCol vs) ->
  entirely_missing (CatCol vs)
  <-> entirely_missing (CatCol (filter_mask (map negb (duplicated df)) vs)).
Proof.
  intros Hwf Hget. rewrite !entirely_missing_cat. split.
  - intros [Hne Hall]. split.
    + pose proof (wf_col_len df col _ Hwf Hget) as Hlen. simpl in Hlen.
      destruct vs as [|v vs]; [done|].
      destruct (duplicated_first df Hwf) as [bs ->]; [simpl in Hlen; lia|]. done.
    + by apply filter_mask_Forall.
  - intros [Hne Hall]. split; [intros ->; by rewrite filter_mask_nil_r in Hne|].
    apply Forall_forall. intros v Hv.
    destruct (drop_duplicates_cell df col (CatCol vs) (CatCell v) Hwf Hget)
      as (k' & Hk' & Heq); [simpl; apply list_elem_of_fmap; eauto|].
    simpl in Hk'. apply list_elem_of_fmap in Hk' as (v' & -> & Hv').
    rewrite Forall_forall in Hall. rewrite (Hall _ Hv') in Heq.
    by destruct v.
Qed.

(** ** The cleaner as a whole *)

Lemma getitem_drop_duplicates df col :
  getitem (drop_duplicates df) col
  = col_filter (map negb (duplicated df)) <$> getitem df col.
Proof. apply getitem_filter_rows. Qed.

Lemma columns_drop_duplicates df : columns (drop_duplicates df) = columns df.
Proof. apply columns_filter_rows. Qed.

Lemma clean_data_unfold df :
  clean_data df =
  foldM fill_categorical (cat_cols (drop_duplicates df))
    (fill_numeric (drop_duplicates df)).
Proof. unfold clean_data. by rewrite cat_cols_fill_numeric. Qed.

Lemma cat_cols_NoDup df : NoDup (columns df) -> NoDup (cat_cols df).
Proof. intros H. apply (sublist_NoDup _ _ H), cat_cols_sublist. Qed.

Lemma cat_cols_getitem df col :
  NoDup (columns df) ->
  col ∈ cat_cols df <-> exists vs, getitem df col = Some (CatCol vs).
Proof.
  intros Hnd. rewrite cat_cols_elem. split; intros [vs H]; exists vs.
  - by apply getitem_elem.
  - by apply getitem_Some_elem.
Qed.

(** [clean_data] raises only the [KeyError] of an entirely missing
    categorical column. *)
Lemma clean_data_raise_inv df e :
  wf df -> clean_data df = Raise e ->
  e = KeyError "0"
  /\ exists col vs, getitem df col = Some (CatCol vs) /\ entirely_missing (CatCol vs).
Proof.
  intros Hwf Hrun. rewrite clean_data_unfold in Hrun.
  set (d0 := drop_duplicates df) in *.
  assert (Hnd : NoDup (columns d0)) by (subst d0; rewrite columns_drop_duplicates; apply Hwf).
  pose proof (fill_loop (cat_cols d0) (cat_cols_NoDup d0 Hnd) (fill_numeric d0)) as H.
  rewrite Hrun in H. destruct H as (col & c & _ & Hget & Hraise).
  apply fill_cat_col_raise in Hraise as (-> & vs1 & -> & Hmiss). split; [done|].
  rewrite getitem_fill_numeric in Hget. subst d0.
  rewrite getitem_drop_duplicates in Hget.
  destruct (getitem df col) as [[vs|vs]|] eqn:Hdf; simpl in Hget; try done.
  injection Hget as <-. exists col, vs. split; [done|].
  by eapply entirely_missing_drop_duplicates.
Qed.

Lemma clean_data_raise_intro df col vs :
  wf df -> getitem df col = Some (CatCol vs) -> entirely_missing (CatCol vs) ->
  clean_data df = Raise (KeyError "0").
Proof.
  intros Hwf Hget Hmiss.
  destruct (clean_data df) as [df'|e] eqn:Hrun.
  - exfalso. rewrite clean_data_unfold in Hrun.
    set (d0 := drop_duplicates df) in *.
    assert (Hnd : NoDup (columns d0))
      by (subst d0; rewrite columns_drop_duplicates; apply Hwf).
    pose proof (fill_loop (cat_cols d0) (cat_cols_NoDup d0 Hnd) (fill_numeric d0)) as H.
    rewrite Hrun in H. destruct H as (_ & _ & _ & Hin).
    set (fvs := filter_mask (map negb (duplicated df)) vs).
    assert (Hg0 : getitem d0 col = Some (CatCol fvs))
      by (subst d0; by rewrite getitem_drop_duplicates, Hget).
    destruct (Hin col (CatCol fvs)) as (c' & Hok & _).
    + apply cat_cols_getitem; eauto.
    + by rewrite getitem_fill_numeric, Hg0.
    + assert (fill_cat_col (CatCol fvs) = Raise (KeyError "0")) as Hr.
      { apply fill_cat_col_raise. split; [done|]. exists fvs. split; [done|].
        by apply (entirely_missing_drop_duplicates df col vs). }
      congruence.
  - by apply clean_data_raise_inv in Hrun as [-> _].
Qed.

(** C4. On a well-formed table, [clean_data] raises exactly when some
    categorical column is entirely missing (it has values and all of them
    are missing); it then returns no table, and the exception is the
    [KeyError] raised by [mode()[0]] on the empty Series of modes, the only
    exception [clean_data] raises. *)
Theorem clean_data_raises_iff_entirely_missing (df : DataFrame) :
  wf df ->
  ((exists col vs, getitem df col = Some (CatCol vs) /\ entirely_missing (CatCol vs))
   <-> clean_data df = Raise (KeyError "0"))
  /\ ((exists col vs, getitem df col = Some (CatCol vs) /\ entirely_missing (CatCol vs))
      -> forall df', clean_data df <> Ok df')
  /\ (forall e, clean_data df = Raise e -> e = KeyError "0").
Proof.
  intros Hwf. split; [split|split].
  - intros (col & vs & Hget & Hmiss). by eapply clean_data_raise_intro.
  - intros H. by apply clean_data_raise_inv in H as [_ H].
  - intros (col & vs & Hget & Hmiss) df' Hok.
    rewrite (clean_data_raise_intro df col vs Hwf Hget Hmiss) in Hok. done.
  - intros e H. by apply clean_data_raise_inv in H as [-> _].
Qed.

Lemma median_None s : median s = None <-> s = [].
Proof.
  unfold median. pose proof (sort_values_length s) as Hl.
  destruct (sort_values s) as [|x0 l]; destruct s; simpl in *; split; try done.
  by case_match.
Qed.

Lemma fillna_None {A} (vs : list (option A)) : fillna None vs = vs.
Proof.
  unfold fillna. rewrite <- (map_id vs) at 2. apply map_ext. by intros [x|].
Qed.

Lemma fillna_keeps {A} (value : option A) vs i x :
  vs !! i = Some (Some x) -> fillna value vs !! i = Some (Some x).
Proof. intros H. unfold fillna. by rewrite lookup_map, H. Qed.

(** C3 (as amended). On a well-formed table without an entirely missing
    categorical column, [clean_data] returns a table.  Its rows come from
    the input with every row that equals an earlier row dropped: the rows
    kept are rows of the input in their order, no two of them are equal,
    and every row of the input equals one of them.  The columns are those
    of the input.  A numeric column is filled with the median of its
    non-missing values and then has no missing value, unless it has no
    non-missing value at all, in which case it is unchanged (entirely
    missing); a categorical column is unchanged when nothing is missing and
    otherwise filled with its mode, and has no missing value. *)
Theorem clean_data_deduplicates_and_fills (df : DataFrame) :
  wf df ->
  (forall col vs, getitem df col = Some (CatCol vs) -> ~ entirely_missing (CatCol vs)) ->
  exists df',
    clean_data df = Ok df'
    /\ (rows (drop_duplicates df) `sublist_of` rows df
        /\ no_duplicate_rows (drop_duplicates df)
        /\ forall r, r ∈ rows df ->
             exists r', r' ∈ rows (drop_duplicates df) /\ row_eqb r r' = true)
    /\ columns df' = columns df
    /\ nrows df' = nrows (drop_duplicates df)
    /\ forall col,
         match getitem (drop_duplicates df) col with
         | None => getitem df' col = None
         | Some (NumCol vs) =>
             getitem df' col = Some (NumCol (fillna (median (nonmissing vs)) vs))
             /\ (nonmissing vs <> [] ->
                 col_complete (NumCol (fillna (median (nonmissing vs)) vs)))
             /\ (nonmissing vs = [] -> fillna (median (nonmissing vs)) vs = vs)
         | Some (CatCol vs) =>
             exists vs', getitem df' col = Some (CatCol vs')
               /\ col_complete (CatCol vs')
               /\ (vs' = vs
                   \/ exists m, first_mode (nonmissing vs) = Ok m
                        /\ (forall s, (count_str s (nonmissing vs)
                                       <= count_str m (nonmissing vs))%nat)
                        /\ vs' = fillna (Some m) vs)
         end.
Proof.
  intros Hwf Hcat.
  destruct (clean_data df) as [df'|e] eqn:Hrun.
  2:{ apply clean_data_raise_inv in Hrun as (_ & col & vs & Hget & Hmiss); [|done].
      exfalso. by apply (Hcat col vs). }
  exists df'. split; [done|]. split.
  { split; [|split].
    - rewrite rows_drop_duplicates by done. apply filter_mask_sublist.
    - by apply drop_duplicates_distinct.
    - intros r Hr. by apply drop_duplicates_cover. }
  rewrite clean_data_unfold in Hrun.
  set (d0 := drop_duplicates df) in *.
  assert (Hnd : NoDup (columns d0))
    by (subst d0; rewrite columns_drop_duplicates; apply Hwf).
  pose proof (fill_loop (cat_cols d0) (cat_cols_NoDup d0 Hnd) (fill_numeric d0)) as H.
  rewrite Hrun in H. destruct H as (Hcols & Hrows & Hout & Hin).
  split; [|split].
  - rewrite Hcols, columns_fill_numeric. subst d0. apply columns_drop_duplicates.
  - rewrite Hrows. destruct d0 as [|[n [vs|vs]] d0']; simpl; try done.
    apply fillna_length.
  - intros col. destruct (getitem d0 col) as [[vs|vs]|] eqn:Hget.
    + assert (Hnc : col ∉ cat_cols d0).
      { intros Hc. apply cat_cols_getitem in Hc as [vs0 Hc]; [|done]. congruence. }
      rewrite (Hout col Hnc), getitem_fill_numeric, Hget. simpl.
      split; [done|]. split.
      * intros Hne. apply col_complete_num.
        destruct (median (nonmissing vs)) as [m|] eqn:Em.
        -- apply fillna_Some_complete.
        -- apply median_None in Em. done.
      * intros Hnil. apply median_None in Hnil. rewrite Hnil. apply fillna_None.
    + destruct (Hin col (CatCol vs)) as (c' & Hok & Hget').
      * apply cat_cols_getitem; eauto.
      * by rewrite getitem_fill_numeric, Hget.
      * apply fill_cat_col_ok in Hok as [_ [Hcomplete Hcases]].
        destruct Hcases as [->|(m & Hm & ->)].
        -- exists vs. split; [done|]. split; [done | by left].
        -- exists (fillna (Some m) vs). split; [done|]. split; [done|].
           right. exists m. split; [done|]. split; [|done].
           by apply first_mode_most_frequent in Hm as [_ ?].
    + assert (Hnc : col ∉ cat_cols d0).
      { intros Hc. apply cat_cols_getitem in Hc as [vs0 Hc]; [|done]. congruence. }
      by rewrite (Hout col Hnc), getitem_fill_numeric, Hget.
Qed.

(** C3, the claim as stated fails: a numeric column that is entirely
    missing has NaN as its median, and filling with NaN leaves every value
    missing. *)
Lemma clean_data_leaves_all_missing_numeric :
  clean_data ex_all_missing_numeric = Ok [("Review Rating", NumCol [None])]
  /\ ~ complete [("Review Rating", NumCol [None])].
Proof.
  split; [vm_compute; reflexivity|].
  unfold complete, col_complete. intros H. apply Forall_cons in H as [H _].
  simpl in H. apply Forall_cons in H as [H _]. done.
Qed.

(** ** Age groups *)

Lemma cut_age_group vs : cut vs age_bins age_labels false = map age_group vs.
Proof. unfold cut. apply map_ext. by intros [a|]. Qed.

Ltac decide_edges a :=
  repeat match goal with
    | |- context [Qle_bool ?e a] =>
        first [ rewrite (proj2 (Qle_bool_iff e a)) by lra
              | rewrite (proj2 (Qle_bool_false e a)) by lra ]
    end.

Lemma age_group_interval a lo hi lbl :
  (lo, hi, lbl) ∈ age_intervals -> (lo <= a)%Q -> (a < hi)%Q ->
  age_group (Some a) = Some lbl.
Proof.
  unfold age_intervals. rewrite !elem_of_cons, elem_of_nil.
  intros H Hlo Hhi. unfold age_group, cut, age_bins. cbn [map head default searchsorted edge_leb].
  repeat (destruct H as [[= -> -> ->]|H]; [decide_edges a; reflexivity|]).
  done.
Qed.

Lemma age_group_outside a :
  (a < 0)%Q \/ (100 <= a)%Q -> age_group (Some a) = None.
Proof.
  intros H. unfold age_group, cut, age_bins. cbn [map head default searchsorted edge_leb].
  destruct H; decide_edges a; reflexivity.
Qed.

Lemma age_interval_exists a :
  (0 <= a)%Q -> (a < 100)%Q ->
  exists lo hi lbl, (lo, hi, lbl) ∈ age_intervals /\ (lo <= a)%Q /\ (a < hi)%Q.
Proof.
  intros H0 H100. unfold age_intervals.
  destruct (Qlt_le_dec a 18); [exists 0%Q, 18%Q, "<18"; split; [set_solver | lra]|].
  destruct (Qlt_le_dec a 25); [exists 18%Q, 25%Q, "18-24"; split; [set_solver | lra]|].
  destruct (Qlt_le_dec a 35); [exists 25%Q, 35%Q, "25-34"; split; [set_solver | lra]|].
  destruct (Qlt_le_dec a 45); [exists 35%Q, 45%Q, "35-44"; split; [set_solver | lra]|].
  destruct (Qlt_le_dec a 55); [exists 45%Q, 55%Q, "45-54"; split; [set_solver | lra]|].
  destruct (Qlt_le_dec a 65); [exists 55%Q, 65%Q, "55-64"; split; [set_solver | lra]|].
  exists 65%Q, 100%Q, "65+". split; [set_solver | lra].
Qed.

(** ** The derivations of [feature_engineering] *)

Lemma add_age_group_numeric df vs :
  getitem df "Age" = Some (NumCol vs) ->
  add_age_group df =
  Ok (setitem (setitem df "Age_Group" (CatCol (map age_group vs)))
        "Age_Group_Ordinal" (NumCol (cat_codes age_labels (map age_group vs)))).
Proof. intros H. unfold add_age_group. by rewrite H, cut_age_group. Qed.

Lemma add_purchase_category_frame df :
  numeric_targets df ["Purchase Amount (USD)"] ->
  exists df', add_purchase_category df = Ok df'
    /\ forall n, n <> "Purchase_Category" -> getitem df' n = getitem df n.
Proof.
  intros Hnum. unfold add_purchase_category.
  destruct (getitem df "Purchase Amount (USD)") as [c|] eqn:Hget; [|by eexists].
  destruct (Hnum _ c ltac:(left) Hget) as [vs ->].
  eexists. split; [done|]. intros n Hn. by apply getitem_setitem_ne.
Qed.

Lemma add_discount_or_promo_frame df :
  exists df', add_discount_or_promo df = Ok df'
    /\ forall n, n <> "Discount_or_Promo" -> getitem df' n = getitem df n.
Proof.
  unfold add_discount_or_promo.
  destruct (getitem df "Discount Applied"), (getitem df "Promo Code Used");
    eexists; (split; [done|]); intros n Hn; try done.
  by apply getitem_setitem_ne.
Qed.

Lemma add_is_repeat_customer_frame df :
  numeric_targets df ["Previous Purchases"] ->
  exists df', add_is_repeat_customer df = Ok df'
    /\ forall n, n <> "Is_Repeat_Customer" -> getitem df' n = getitem df n.
Proof.
  intros Hnum. unfold add_is_repeat_customer.
  destruct (getitem df "Previous Purchases") as [c|] eqn:Hget; [|by eexists].
  destruct (Hnum _ c ltac:(left) Hget) as [vs ->].
  eexists. split; [done|]. intros n Hn. by apply getitem_setitem_ne.
Qed.

Lemma add_season_category_frame nr df :
  exists df', add_season_category nr df = Ok df'
    /\ forall n, n <> "Season_Category" -> getitem df' n = getitem df n.
Proof.
  unfold add_season_category.
  destruct (getitem df "Season"), (getitem df "Category");
    eexists; (split; [done|]); intros n Hn; try done.
  by apply getitem_setitem_ne.
Qed.

(** With a numeric Age column, and numeric purchase columns where they
    exist, [feature_engineering] returns a table whose Age_Group column is
    the age column labelled value by value. *)
Lemma feature_engineering_age_group nr df vs :
  getitem df "Age" = Some (NumCol vs) ->
  numeric_targets df ["Purchase Amount (USD)"; "Previous Purchases"] ->
  exists df', feature_engineering nr df = Ok df'
    /\ getitem df' "Age_Group" = Some (CatCol (map age_group vs))
    /\ getitem df' "Age_Group_Ordinal"
       = Some (NumCol (cat_codes age_labels (map age_group vs))).
Proof.
  intros Hage Hnum. unfold feature_engineering, copy.
  rewrite (add_age_group_numeric df vs Hage). cbn [rbind].
  set (df1 := setitem (setitem df _ _) _ _).
  assert (H1 : forall n, n <> "Age_Group" -> n <> "Age_Group_Ordinal" ->
                         getitem df1 n = getitem df n).
  { intros n Hn1 Hn2. subst df1. by rewrite !getitem_setitem_ne. }
  destruct (add_purchase_category_frame df1) as (df2 & -> & H2).
  { intros col c Hin. apply list_elem_of_singleton in Hin as ->.
    rewrite H1 by done. apply Hnum. left. }
  cbn [rbind].
  destruct (add_discount_or_promo_frame df2) as (df3 & -> & H3). cbn [rbind].
  destruct (add_is_repeat_customer_frame df3) as (df4 & -> & H4).
  { intros col c Hin. apply list_elem_of_singleton in Hin as ->.
    rewrite H3, H2, H1 by done. apply Hnum. right. left. }
  cbn [rbind].
  destruct (add_season_category_frame nr df4) as (df5 & -> & H5).
  exists df5. split; [done|].
  rewrite !H5, !H4, !H3, !H2 by done. subst df1. split.
  - rewrite getitem_setitem_ne by done. apply getitem_setitem_eq.
  - apply getitem_setitem_eq.
Qed.

(** C1 (as amended). For a table with a numeric Age column (and numeric
    purchase columns, where present), [feature_engineering] returns a table
    whose Age_Group labels each age by the bins [0,18), [18,25), [25,35),
    [35,45), [45,55), [55,65), [65,100), every bin, the last one included,
    closed on the left and open on the right: an age in [0,100) gets
    exactly one label, the label of its bin; an age of 100 or more, a
    negative age and a missing age get no label. *)
Theorem age_group_bins_left_closed (nr : Q -> string) (df : DataFrame)
    (vs : list (option Q)) :
  getitem df "Age" = Some (NumCol vs) ->
  numeric_targets df ["Purchase Amount (USD)"; "Previous Purchases"] ->
  exists df' groups,
    feature_engineering nr df = Ok df'
    /\ getitem df' "Age_Group" = Some (CatCol groups)
    /\ length groups = length vs
    /\ forall i,
         (vs !! i = Some None -> groups !! i = Some None)
         /\ forall a, vs !! i = Some (Some a) ->
              (forall lo hi lbl, (lo, hi, lbl) ∈ age_intervals ->
                 (lo <= a)%Q -> (a < hi)%Q -> groups !! i = Some (Some lbl))
              /\ ((a < 0)%Q \/ (100 <= a)%Q -> groups !! i = Some None)
              /\ ((0 <= a)%Q -> (a < 100)%Q ->
                  exists lbl, groups !! i = Some (Some lbl) /\ lbl ∈ age_labels
                    /\ forall lbl', groups !! i = Some (Some lbl') -> lbl' = lbl).
Proof.
  intros Hage Hnum.
  destruct (feature_engineering_age_group nr df vs Hage Hnum) as (df' & Hrun & Hg & _).
  exists df', (map age_group vs). split; [done|]. split; [done|].
  split; [apply length_map|]. intros i. split.
  - intros Hi. by rewrite lookup_map, Hi.
  - intros a Hi. rewrite lookup_map, Hi. simpl. split; [|split].
    + intros lo hi lbl Hin Hlo Hhi. by rewrite (age_group_interval a lo hi lbl).
    + intros Hout. by rewrite age_group_outside.
    + intros H0 H100.
      destruct (age_interval_exists a H0 H100) as (lo & hi & lbl & Hin & Hlo & Hhi).
      exists lbl. rewrite (age_group_interval a lo hi lbl Hin Hlo Hhi).
      split; [done|]. split; [|by intros lbl' [= ->]].
      unfold age_intervals in Hin. unfold age_labels.
      rewrite !elem_of_cons, elem_of_nil in Hin. rewrite !elem_of_cons.
      repeat (destruct Hin as [[= _ _ ->]|Hin]; [tauto|]). done.
Qed.

(** C1, the claim as stated fails at Age = 100: the last bin is open on
    the right as the others are, and the age 100 gets no label (ordinal
    code -1) instead of "65+". *)
Lemma age_100_has_no_label :
  exists df',
    feature_engineering no_repr ex_age_100 = Ok df'
    /\ getitem df' "Age_Group" = Some (CatCol [None])
    /\ getitem df' "Age_Group" <> Some (CatCol [Some "65+"])
    /\ getitem df' "Age_Group_Ordinal" = Some (NumCol [some_q (-1)]).
Proof.
  eexists. split; [vm_compute; reflexivity|]. split; [reflexivity|].
  split; [discriminate | reflexivity].
Qed.

(** ** Sorted classes and their positions *)

Lemma insert_uniq_Forall (P : string -> Prop) s l :
  P s -> Forall P l -> Forall P (insert_uniq s l).
Proof.
  intros Hs. induction 1 as [|t l Ht Hl IH]; simpl.
  - by constructor.
  - destruct (String_as_OT.compare s t); repeat constructor; auto.
Qed.

Lemma insert_uniq_sorted s l :
  StronglySorted str_lt l -> StronglySorted str_lt (insert_uniq s l).
Proof.
  induction 1 as [|t l Hs IH Ht]; simpl.
  - repeat constructor.
  - destruct (String_as_OT.compare_spec s t) as [Heq|Hlt|Hgt].
    + by constructor.
    + constructor; [by constructor|]. constructor; [done|].
      eapply Forall_impl; [exact Ht|]. intros u Hu. simpl in Hu.
      by transitivity t.
    + constructor; [done|]. by apply insert_uniq_Forall.
Qed.

Lemma sorted_unique_sorted l : StronglySorted str_lt (sorted_unique l).
Proof.
  induction l as [|s l IH]; simpl; [constructor | by apply insert_uniq_sorted].
Qed.

Lemma str_lt_irrefl s : ~ str_lt s s.
Proof. apply (irreflexivity str_lt). Qed.

Lemma sorted_lt_NoDup l : StronglySorted str_lt l -> NoDup l.
Proof.
  induction 1 as [|s l Hs IH Hl]; constructor; [|done].
  intros Hin. rewrite Forall_forall in Hl. by apply (str_lt_irrefl s), Hl.
Qed.





Lemma Q_of_nat_lt i j : (Q_of_nat i < Q_of_nat j)%Q <-> (i < j)%nat.
Proof. unfold Q_of_nat. rewrite <- Zlt_Qlt. lia. Qed.


(** ** The label-encoding loop *)



Lemma getitem_app df1 df2 col c :
  getitem df1 col = Some c -> getitem (df1 ++ df2) col = Some c.
Proof.
  induction df1 as [|[n c0] df1 IH]; simpl; [done|].
  by destruct (String.eqb col n).
Qed.

Lemma getitem_drop_columns df cols col :
  col ∉ cols -> getitem (drop_columns df cols) col = getitem df col.
Proof.
  intros Hnin. unfold drop_columns. induction df as [|[n c0] df IH]; simpl; [done|].
  destruct (existsb (String.eqb n) cols) eqn:E; simpl.
  - destruct (String.eqb col n) eqn:E'; [|done].
    apply String.eqb_eq in E'. subst n. exfalso. apply Hnin.
    apply existsb_exists in E as (x & Hx & Heq). apply String.eqb_eq in Heq. subst x.
    by apply list_elem_of_In.
  - by rewrite IH.
Qed.



(** ** Loading *)


(** ** Frames as objects: the input is not mutated *)

Section HeapSimulation.

Implicit Types (h : gmap nat DataFrame) (l : nat).

Lemma fresh_not_in h0 h : h0 ⊆ h -> h0 !! fresh (dom h) = None.
Proof.
  intros Hsub. apply not_elem_of_dom. intros Hin.
  apply (is_fresh (dom h)). by apply (subseteq_dom h0 h).
Qed.

Lemma handle_column_simulates m k a h0 h df_out d col :
  h0 ⊆ h -> h0 !! df_out = None -> h !! df_out = Some d ->
  simulates h0 (handle_column m k a d col) (Heap.handle_column m k a df_out col h).
Proof.
  intros Hsub Hfresh Hd.
  assert (Hret : simulates h0 (Ok d) (Ok df_out, h)) by (simpl; eauto).
  unfold Heap.handle_column, handle_column, Heap.bind, Heap.load. rewrite Hd.
  destruct (getitem d col) as [[vs|vs]|]; [| |exact Hret].
  2:{ destruct (String.eqb m "iqr"); [|exact Hret]. by split. }
  destruct (String.eqb m "iqr"); [|exact Hret].
  destruct (iqr_bounds k (s_values (dropna vs))) as [lower upper].
  destruct (Nat.ltb 0 _); [|exact Hret].
  destruct (String.eqb a "cap").
  - unfold Heap.mutate, Heap.bind, Heap.load, Heap.store, Heap.ret.
    rewrite Hd. rewrite lookup_insert_eq. simpl.
    split; [|split; [done|]].
    + apply insert_subseteq_r; [done|]. by apply insert_subseteq_r.
    + eexists. split; [apply lookup_insert_eq | done].
  - destruct (String.eqb a "remove"); [|exact Hret].
    unfold Heap.lift, Heap.alloc. rewrite Hd.
    destruct (getitem_bool d _) as [d'|e]; [|by split]. simpl.
    split; [|split].
    + apply insert_subseteq_r; [by apply fresh_not_in | done].
    + by apply fresh_not_in.
    + eexists. split; [apply lookup_insert_eq | done].
Qed.

Lemma for_each_simulates m k a h0 cols :
  forall h df_out d,
  h0 ⊆ h -> h0 !! df_out = None -> h !! df_out = Some d ->
  simulates h0 (foldM (handle_column m k a) cols d)
    (Heap.for_each (Heap.handle_column m k a) cols df_out h).
Proof.
  induction cols as [|col cols IH]; intros h df_out d Hsub Hfresh Hd.
  - simpl. eauto.
  - simpl. unfold Heap.bind.
    pose proof (handle_column_simulates m k a h0 h df_out d col Hsub Hfresh Hd) as Hstep.
    destruct (Heap.handle_column m k a df_out col h) as [[l|e] h1]; simpl in Hstep.
    + destruct Hstep as (Hsub1 & Hfresh1 & d1 & Hd1 & ->). simpl. by apply IH.
    + destruct Hstep as [Hsub1 ->]. simpl. done.
Qed.

Lemma detect_simulates m k a h df d cols :
  h !! df = Some d ->
  simulates h (detect_and_handle_outliers d cols m k a)
    (Heap.detect_and_handle_outliers df cols m k a h).
Proof.
  intros Hd. unfold Heap.detect_and_handle_outliers, Heap.copy, Heap.bind, Heap.load.
  rewrite Hd. unfold Heap.alloc. unfold detect_and_handle_outliers.
  apply for_each_simulates.
  - apply insert_subseteq. by apply fresh_not_in.
  - by apply fresh_not_in.
  - apply lookup_insert_eq.
Qed.

Lemma derive_simulates h0 h l d (f g : DataFrame -> result DataFrame)
    (rest : Heap.M nat) :
  h0 ⊆ h -> h0 !! l = None -> h !! l = Some d ->
  (forall h1 d1, h0 ⊆ h1 -> h1 !! l = Some d1 -> simulates h0 (g d1) (rest h1)) ->
  simulates h0 (rbind (f d) g) (Heap.bind (Heap.derive l f) (fun _ => rest) h).
Proof.
  intros Hsub Hfresh Hd Hrest.
  unfold Heap.derive, Heap.bind, Heap.load, Heap.lift, Heap.store. rewrite Hd.
  destruct (f d) as [d1|e]; simpl; [|by split].
  apply Hrest; [by apply insert_subseteq_r | apply lookup_insert_eq].
Qed.

Lemma feature_engineering_simulates nr h df d :
  h !! df = Some d ->
  simulates h (feature_engineering nr d) (Heap.feature_engineering nr df h).
Proof.
  intros Hd. unfold Heap.feature_engineering, feature_engineering.
  unfold Heap.copy at 1. unfold Heap.bind at 1 2, Heap.load. rewrite Hd.
  unfold Heap.alloc. set (l := fresh (dom h)). set (h1 := <[l := copy d]> h).
  assert (Hfresh : h !! l = None) by (by apply fresh_not_in).
  assert (Hsub : h ⊆ h1) by (by apply insert_subseteq).
  assert (Hl : h1 !! l = Some (copy d)) by apply lookup_insert_eq.
  apply derive_simulates; [done..|]. intros h2 d2 Hsub2 Hl2.
  apply derive_simulates; [done..|]. intros h3 d3 Hsub3 Hl3.
  apply derive_simulates; [done..|]. intros h4 d4 Hsub4 Hl4.
  apply derive_simulates; [done..|]. intros h5 d5 Hsub5 Hl5.
  replace (add_season_category nr d5)
    with (rbind (add_season_category nr d5) Ok) by (by destruct (add_season_category _ _)).
  apply derive_simulates; [done..|]. intros h6 d6 Hsub6 Hl6.
  simpl. eauto.
Qed.

End HeapSimulation.

(** C10. Run on a store in which the reference [df] holds the frame [d],
    [detect_and_handle_outliers] and [feature_engineering] leave every
    object of that store as it was, the caller's frame included, whether
    they return or raise; the reference they return is a new object, which
    holds the frame the value-level function computes from [d].  With a
    method other than "iqr", [detect_and_handle_outliers] returns a new
    object holding a frame equal to the input. *)
Theorem input_frame_is_not_mutated (h : gmap nat DataFrame) (df : nat)
    (d : DataFrame) (cols : list string) (m : string) (k : Q) (a : string)
    (nr : Q -> string) :
  h !! df = Some d ->
  (forall out h', Heap.detect_and_handle_outliers df cols m k a h = (out, h') ->
     h ⊆ h' /\ h' !! df = Some d
     /\ match out with
        | Ok l => l <> df /\ h !! l = None
                  /\ exists d', h' !! l = Some d'
                       /\ detect_and_handle_outliers d cols m k a = Ok d'
        | Raise e => detect_and_handle_outliers d cols m k a = Raise e
        end)
  /\ (forall out h', Heap.feature_engineering nr df h = (out, h') ->
     h ⊆ h' /\ h' !! df = Some d
     /\ match out with
        | Ok l => l <> df /\ h !! l = None
                  /\ exists d', h' !! l = Some d' /\ feature_engineering nr d = Ok d'
        | Raise e => feature_engineering nr d = Raise e
        end)
  /\ (m <> "iqr" ->
      detect_and_handle_outliers d cols m k a = Ok d
      /\ exists l h', Heap.detect_and_handle_outliers df cols m k a h = (Ok l, h')
           /\ l <> df /\ h' !! l = Some d /\ h' !! df = Some d).
Proof.
  intros Hd.
  assert (Hgen : forall r (out : result nat) h', simulates h r (out, h') ->
            h ⊆ h' /\ h' !! df = Some d
            /\ match out with
               | Ok l => l <> df /\ h !! l = None
                         /\ exists d', h' !! l = Some d' /\ r = Ok d'
               | Raise e => r = Raise e
               end).
  { intros r [l|e] h' Hsim; simpl in Hsim.
    - destruct Hsim as (Hsub & Hfresh & d' & Hl & ->).
      split; [done|]. split; [by eapply lookup_weaken|].
      split; [congruence|]. eauto.
    - destruct Hsim as [Hsub ->]. split; [done|]. split; [by eapply lookup_weaken | done]. }
  split; [|split].
  - intros out h' Hrun. apply Hgen. rewrite <- Hrun. by apply detect_simulates.
  - intros out h' Hrun. apply Hgen. rewrite <- Hrun. by apply feature_engineering_simulates.
  - intros Hm. pose proof (detect_other_method d cols m k a Hm) as Hpure.
    split; [done|].
    pose proof (detect_simulates m k a h df d cols Hd) as Hsim.
    destruct (Heap.detect_and_handle_outliers df cols m k a h) as [[l|e] h'].
    + apply Hgen in Hsim as (_ & Hdf & Hne & _ & d' & Hl & Hd').
      exists l, h'. split; [done|]. split; [done|]. split; [congruence | done].
    + simpl in Hsim. destruct Hsim as [_ Hr]. congruence.
Qed.

(** ** Remove mode on columns without missing values *)

Lemma remove_never_adds_rows df cols m k df' :
  detect_and_handle_outliers df cols m k "remove" = Ok df' ->
  rows_dropped df df' /\ (nrows df' <= nrows df)%nat.
Proof.
  unfold detect_and_handle_outliers, copy. intros H.
  apply outlier_loop_remove in H. split; [done | by apply rows_dropped_nrows].
Qed.

Lemma dropna_from_complete {A} (vs : list (option A)) i :
  Forall is_Some vs ->
  s_index (dropna_from i vs) = seq i (length vs)
  /\ map Some (s_values (dropna_from i vs)) = vs.
Proof.
  intros H. revert i. induction H as [|v vs [x ->] _ IH]; intros i; simpl; [done|].
  destruct (IH (S i)) as [-> ->]. done.
Qed.

Lemma filter_rows_all_true mask df :
  wf df -> Forall (fun b => b = true) mask -> length mask = nrows df ->
  filter_rows mask df = df.
Proof.
  intros Hwf Hall Hm. unfold filter_rows.
  rewrite <- (map_id df) at 2. apply map_ext_in. intros [name c] Hin. simpl. f_equal.
  assert (Hlen : col_len c = nrows df).
  { destruct Hwf as [_ Hl]. rewrite Forall_forall in Hl.
    apply (Hl (name, c)). by apply list_elem_of_In. }
  destruct c as [vs|vs]; simpl in *; f_equal;
    (apply filter_mask_all_true; [done | lia]).
Qed.

Lemma within_bounds_length k vs : length (within_bounds k vs) = length vs.
Proof.
  unfold within_bounds. destruct (iqr_bounds k (nonmissing vs)). apply length_map.
Qed.

(** One iteration in remove mode, on a column without missing values,
    keeps the rows whose value is within the bounds. *)
Lemma handle_column_remove_complete df col vs k :
  wf df -> getitem df col = Some (NumCol vs) -> Forall is_Some vs ->
  handle_column "iqr" k "remove" df col
  = Ok (filter_rows (within_bounds k vs) df).
Proof.
  intros Hwf Hget Hcomplete. unfold handle_column, within_bounds, nonmissing.
  rewrite Hget. change (String.eqb "iqr" "iqr") with true.
  change (String.eqb "remove" "cap") with false.
  change (String.eqb "remove" "remove") with true. cbv iota.
  destruct (dropna_from_complete vs 0 Hcomplete) as [Hidx Hvals]. fold (dropna vs) in *.
  destruct (iqr_bounds k (s_values (dropna vs))) as [lower upper].
  assert (Hkeep : s_values (invert (outlier_mask lower upper (dropna vs)))
                  = map (fun v => negb (flt v lower || fgt v upper)) vs).
  { rewrite <- Hvals at 2. unfold s_values, invert, outlier_mask.
    rewrite !map_map. by apply map_ext. }
  assert (Hlen : length vs = nrows df)
    by (by rewrite <- (wf_col_len df col (NumCol vs) Hwf Hget)).
  destruct (Nat.ltb 0 _) eqn:Ec.
  - unfold getitem_bool.
    assert (s_index (invert (outlier_mask lower upper (dropna vs)))
            = seq 0 (nrows df)) as Hi.
    { rewrite <- Hlen, <- Hidx. unfold s_index, invert, outlier_mask.
      rewrite !map_map. by apply map_ext. }
    rewrite decide_True by done. by rewrite Hkeep.
  - apply Nat.ltb_ge in Ec.
    assert (Hz : mask_sum (outlier_mask lower upper (dropna vs)) = 0%nat) by lia.
    rewrite filter_rows_all_true; [done | done | | by rewrite length_map].
    apply Forall_map, Forall_forall. intros [x|] Hx.
    + rewrite (mask_sum_zero _ _ _ Hz x); [done|]. by apply elem_of_dropna_from.
    + rewrite Forall_forall in Hcomplete. by destruct (Hcomplete _ Hx).
Qed.

(** Where no target column has a missing value, remove mode returns the
    rows that the sequential filter of the specification keeps. *)
Lemma remove_filters_sequentially k cols :
  forall df, wf df -> complete_targets df cols ->
  detect_and_handle_outliers df cols "iqr" k "remove"
  = Ok (remove_outliers k cols df).
Proof.
  unfold detect_and_handle_outliers, copy.
  induction cols as [|col cols IH]; intros df Hwf Hct; simpl; [done|].
  destruct (getitem df col) as [c|] eqn:Hget.
  - destruct (Hct col c ltac:(left) Hget) as (vs & -> & Hcomplete).
    rewrite (handle_column_remove_complete df col vs k Hwf Hget Hcomplete). simpl.
    assert (Hm : length (within_bounds k vs) = nrows df).
    { rewrite within_bounds_length.
      by rewrite <- (wf_col_len df col (NumCol vs) Hwf Hget). }
    apply IH; [by apply wf_filter_rows|].
    intros col0 c0 Hin Hg. rewrite getitem_filter_rows in Hg.
    destruct (getitem df col0) as [c1|] eqn:Hg1; [|done].
    destruct (Hct col0 c1 ltac:(by right) Hg1) as (vs1 & -> & Hc1).
    injection Hg as <-. eexists. split; [done|]. by apply filter_mask_Forall.
  - rewrite (handle_column_absent _ _ _ _ _ Hget). simpl.
    apply IH; [done|]. intros col0 c0 Hin. apply Hct. by right.
Qed.

(** ** The theorems at concrete tables *)

(** The example of the specification: ages 17, 18, 40 and 70. *)
Example age_groups_of_ex_ages :
  exists df', feature_engineering no_repr ex_ages = Ok df'
    /\ getitem df' "Age_Group"
       = Some (CatCol [Some "<18"; Some "18-24"; Some "35-44"; Some "65+"]).
Proof. eexists. split; [vm_compute; reflexivity | reflexivity]. Qed.

(** Capping the outlier 100 of column A (Q1 = 2, Q3 = 4, bounds -1 and 7)
    writes the upper bound 7 in its place and keeps the five rows. *)
Example cap_ex_outlier :
  detect_and_handle_outliers ex_outlier ["A"] default_method default_threshold
    default_action
  = Ok [("A", NumCol (map some_q [1; 2; 3; 4; 7]%Z));
        ("B", NumCol (map some_q [10; 20; 30; 40; 50]%Z))].
Proof. vm_compute. reflexivity. Qed.

(** Removing it drops the fifth row of every column. *)
Example remove_ex_outlier :
  detect_and_handle_outliers ex_outlier ["A"] "iqr" (3 # 2) "remove"
  = Ok [("A", NumCol (map some_q [1; 2; 3; 4]%Z));
        ("B", NumCol (map some_q [10; 20; 30; 40]%Z))].
Proof. vm_compute. reflexivity. Qed.

(** Cleaning [ex_dirty]: the third row repeats the first and is dropped;
    the missing age becomes the median 40 of 30 and 50, the missing gender
    the mode, "F" (a tie with "M", broken by the order of strings). *)
Example clean_ex_dirty :
  clean_data ex_dirty
  = Ok [("Age", NumCol (map some_q [30; 40; 50]%Z));
        ("Gender", CatCol [Some "F"; Some "M"; Some "F"])].
Proof. vm_compute. reflexivity. Qed.

(** Label encoding of [ex_seasons]: the classes are "Fall" < "Spring" <
    "Winter" < "nan". *)
Example encode_ex_seasons :
  exists encoders,
    encode_categorical no_repr ex_seasons None (Some ["Season"]) true
    = Ok ([("Season", NumCol (map some_q [2; 0; 3; 2; 1]%Z));
           ("Age", NumCol (map some_q [30; 40; 50; 60; 70]%Z))], encoders)
    /\ encoders !! "Season"
       = Some (LabelEncoder ["Fall"; "Spring"; "Winter"; "nan"]).
Proof. eexists. split; [reflexivity|]. apply lookup_insert_eq. Qed.

Ltac concrete_targets :=
  let col := fresh "col" in
  let c := fresh "c" in
  let Hin := fresh "Hin" in
  let Hget := fresh "Hget" in
  intros col c Hin Hget;
  repeat (apply elem_of_cons in Hin as [->|Hin]);
  try (by apply elem_of_nil in Hin);
  vm_compute in Hget;
  first [ discriminate Hget | injection Hget as <-; eexists; reflexivity ].

Lemma wf_ex_outlier : wf ex_outlier.
Proof. split; [compute_done | repeat constructor]. Qed.


Lemma outliers_skip_unknown_and_frame_witness :
  detect_and_handle_outliers ex_outlier ["A"; "Z"] "iqr" (3 # 2) "cap"
  = detect_and_handle_outliers ex_outlier ["A"] "iqr" (3 # 2) "cap".
Proof.
  exact (proj1 (outliers_skip_unknown_and_frame ex_outlier ["A"; "Z"] "iqr" (3 # 2) "cap")).
Defined.


Lemma wf_ex_all_missing_categorical : wf ex_all_missing_categorical.
Proof. split; [compute_done | repeat constructor]. Qed.

Lemma clean_data_raises_iff_entirely_missing_witness :
  wf ex_all_missing_categorical
  /\ clean_data ex_all_missing_categorical = Raise (KeyError "0").
Proof.
  split; [exact wf_ex_all_missing_categorical|].
  apply (proj1 (clean_data_raises_iff_entirely_missing ex_all_missing_categorical
                  wf_ex_all_missing_categorical)).
  exists "Gender", [None; None]. split; [reflexivity|].
  split; [simpl; lia | repeat constructor].
Defined.

Lemma wf_ex_dirty : wf ex_dirty.
Proof. split; [compute_done | repeat constructor]. Qed.

Lemma ex_dirty_no_missing_column col vs :
  getitem ex_dirty col = Some (CatCol vs) -> ~ entirely_missing (CatCol vs).
Proof.
  simpl. destruct (String.eqb col "Age"); [discriminate|].
  destruct (String.eqb col "Gender"); [|discriminate].
  intros [= <-] [_ H]. apply Forall_cons in H as [H _]. discriminate H.
Qed.

Lemma clean_data_deduplicates_and_fills_witness :
  wf ex_dirty
  /\ (forall col vs, getitem ex_dirty col = Some (CatCol vs) ->
        ~ entirely_missing (CatCol vs))
  /\ exists df', clean_data ex_dirty = Ok df' /\ columns df' = columns ex_dirty.
Proof.
  split; [exact wf_ex_dirty|]. split; [exact ex_dirty_no_missing_column|].
  destruct (clean_data_deduplicates_and_fills ex_dirty wf_ex_dirty
              ex_dirty_no_missing_column) as (df' & Hrun & _ & Hcols & _).
  exists df'. split; [exact Hrun | exact Hcols].
Defined.

Lemma age_group_bins_left_closed_witness :
  getitem ex_ages "Age" = Some (NumCol (map some_q [17; 18; 40; 70]%Z))
  /\ numeric_targets ex_ages ["Purchase Amount (USD)"; "Previous Purchases"]
  /\ exists df' groups,
       feature_engineering no_repr ex_ages = Ok df'
       /\ getitem df' "Age_Group" = Some (CatCol groups)
       /\ length groups = 4%nat.
Proof.
  assert (H1 : getitem ex_ages "Age" = Some (NumCol (map some_q [17; 18; 40; 70]%Z)))
    by reflexivity.
  assert (H2 : numeric_targets ex_ages ["Purchase Amount (USD)"; "Previous Purchases"])
    by concrete_targets.
  split; [exact H1|]. split; [exact H2|].
  destruct (age_group_bins_left_closed no_repr ex_ages _ H1 H2)
    as (df' & groups & Hrun & Hg & Hlen & _).
  exists df', groups. split; [exact Hrun|]. split; [exact Hg | exact Hlen].
Defined.



Lemma input_frame_is_not_mutated_witness :
  ex_store !! 0%nat = Some ex_outlier
  /\ "zscore" <> "iqr"
  /\ detect_and_handle_outliers ex_outlier ["A"] "zscore" (3 # 2) "cap" = Ok ex_outlier.
Proof.
  assert (H1 : ex_store !! 0%nat = Some ex_outlier) by reflexivity.
  assert (H2 : "zscore" <> "iqr") by discriminate.
  split; [exact H1|]. split; [exact H2|].
  exact (proj1 (proj2 (proj2 (input_frame_is_not_mutated ex_store 0%nat ex_outlier
                                ["A"] "zscore" (3 # 2) "cap" no_repr H1)) H2)).
Defined.

(** * Further properties of the pipeline *)

Ltac in_concrete_list := rewrite !elem_of_cons; auto 12.

(** ** The derivations of [feature_engineering], one by one *)

Lemma add_age_group_inv df df' :
  add_age_group df = Ok df' ->
  (forall n, n <> "Age_Group" -> n <> "Age_Group_Ordinal" ->
     getitem df' n = getitem df n)
  /\ match getitem df "Age" with
     | None => df' = df
     | Some (NumCol vs) =>
         df' = setitem (setitem df "Age_Group" (CatCol (map age_group vs)))
                 "Age_Group_Ordinal" (NumCol (cat_codes age_labels (map age_group vs)))
     | Some (CatCol _) => False
     end.
Proof.
  unfold add_age_group. destruct (getitem df "Age") as [[vs|vs]|]; [| done |].
  - rewrite cut_age_group. intros [= <-]. split; [|done].
    intros n H1 H2. by rewrite !getitem_setitem_ne.
  - by intros [= <-].
Qed.

Lemma add_purchase_category_inv df df' :
  add_purchase_category df = Ok df' ->
  (forall n, n <> "Purchase_Category" -> getitem df' n = getitem df n)
  /\ match getitem df "Purchase Amount (USD)" with
     | None => df' = df
     | Some (NumCol vs) =>
         df' = setitem df "Purchase_Category" (CatCol (map purchase_category vs))
     | Some (CatCol _) => False
     end.
Proof.
  unfold add_purchase_category.
  destruct (getitem df "Purchase Amount (USD)") as [[vs|vs]|]; [| done |].
  - assert (cut vs purchase_bins purchase_labels true = map purchase_category vs) as ->.
    { unfold cut. apply map_ext. by intros [a|]. }
    intros [= <-]. split; [|done]. intros n Hn. by rewrite getitem_setitem_ne.
  - by intros [= <-].
Qed.

Lemma add_discount_or_promo_inv df df' :
  add_discount_or_promo df = Ok df' ->
  (forall n, n <> "Discount_or_Promo" -> getitem df' n = getitem df n)
  /\ match getitem df "Discount Applied", getitem df "Promo Code Used" with
     | Some d, Some p =>
         df' = setitem df "Discount_or_Promo"
                 (CatCol (map (fun b : bool => Some (if b then "Yes" else "No"))
                            (zip_with orb (eq_str d "Yes") (eq_str p "Yes"))))
     | _, _ => df' = df
     end.
Proof.
  unfold add_discount_or_promo.
  destruct (getitem df "Discount Applied"), (getitem df "Promo Code Used");
    intros [= <-]; (split; [|done]); intros n Hn; try done.
  by rewrite getitem_setitem_ne.
Qed.

Lemma add_is_repeat_customer_inv df df' :
  add_is_repeat_customer df = Ok df' ->
  (forall n, n <> "Is_Repeat_Customer" -> getitem df' n = getitem df n)
  /\ match getitem df "Previous Purchases" with
     | None => df' = df
     | Some (NumCol vs) =>
         df' = setitem df "Is_Repeat_Customer"
                 (NumCol (map (fun v => Some (if fge v (Some 10%Q) then 1%Q else 0%Q)) vs))
     | Some (CatCol _) => False
     end.
Proof.
  unfold add_is_repeat_customer.
  destruct (getitem df "Previous Purchases") as [[vs|vs]|]; [| done |].
  - intros [= <-]. split; [|done]. intros n Hn. by rewrite getitem_setitem_ne.
  - by intros [= <-].
Qed.

Lemma add_season_category_inv nr df df' :
  add_season_category nr df = Ok df' ->
  (forall n, n <> "Season_Category" -> getitem df' n = getitem df n)
  /\ match getitem df "Season", getitem df "Category" with
     | Some s, Some c =>
         df' = setitem df "Season_Category"
                 (CatCol (zip_with (fun a b => Some (a +:+ "_" +:+ b))
                            (astype_str nr s) (astype_str nr c)))
     | _, _ => df' = df
     end.
Proof.
  unfold add_season_category.
  destruct (getitem df "Season"), (getitem df "Category");
    intros [= <-]; (split; [|done]); intros n Hn; try done.
  by rewrite getitem_setitem_ne.
Qed.

(** A run that returns has gone through the five derivations. *)
Lemma feature_engineering_steps nr df df' :
  feature_engineering nr df = Ok df' <->
  exists d1 d2 d3 d4,
    add_age_group df = Ok d1 /\ add_purchase_category d1 = Ok d2
    /\ add_discount_or_promo d2 = Ok d3 /\ add_is_repeat_customer d3 = Ok d4
    /\ add_season_category nr d4 = Ok df'.
Proof.
  unfold feature_engineering, copy. split.
  - intros H. apply rbind_ok in H as (d1 & H1 & H).
    apply rbind_ok in H as (d2 & H2 & H). apply rbind_ok in H as (d3 & H3 & H).
    apply rbind_ok in H as (d4 & H4 & H). by exists d1, d2, d3, d4.
  - intros (d1 & d2 & d3 & d4 & -> & H2 & H3 & H4 & H5). simpl.
    rewrite H2. simpl. rewrite H3. simpl. by rewrite H4.
Qed.

(** The columns the derivations read are not columns they write: at every
    stage a source column is the input's. *)
Lemma feature_engineering_chain nr df df' :
  feature_engineering nr df = Ok df' ->
  exists d1 d2 d3 d4,
    add_age_group df = Ok d1 /\ add_purchase_category d1 = Ok d2
    /\ add_discount_or_promo d2 = Ok d3 /\ add_is_repeat_customer d3 = Ok d4
    /\ add_season_category nr d4 = Ok df'
    /\ (forall n, n ∉ derived_names ->
          getitem d1 n = getitem df n /\ getitem d2 n = getitem df n
          /\ getitem d3 n = getitem df n /\ getitem d4 n = getitem df n
          /\ getitem df' n = getitem df n).
Proof.
  intros H. apply feature_engineering_steps in H as (d1 & d2 & d3 & d4 & H1 & H2 & H3 & H4 & H5).
  exists d1, d2, d3, d4. do 5 (split; [done|]).
  intros n Hn. unfold derived_names in Hn. rewrite !not_elem_of_cons in Hn.
  destruct Hn as (N1 & N2 & N3 & N4 & N5 & N6 & _).
  apply add_age_group_inv in H1 as [F1 _]. apply add_purchase_category_inv in H2 as [F2 _].
  apply add_discount_or_promo_inv in H3 as [F3 _].
  apply add_is_repeat_customer_inv in H4 as [F4 _].
  apply add_season_category_inv in H5 as [F5 _].
  by rewrite F5, F4, F3, F2, F1.
Qed.

(** [feature_engineering] returns when the columns it compares with
    numbers are numeric, where they exist. *)
Lemma feature_engineering_total nr df :
  numeric_targets df numeric_sources -> exists df', feature_engineering nr df = Ok df'.
Proof.
  intros Hnum. unfold numeric_sources in Hnum.
  assert (exists d1, add_age_group df = Ok d1) as [d1 H1].
  { unfold add_age_group. destruct (getitem df "Age") as [c|] eqn:E; [|eauto].
    destruct (Hnum "Age" c) as [vs ->]; [in_concrete_list | done | eauto]. }
  pose proof (add_age_group_inv df d1 H1) as [F1 _].
  destruct (add_purchase_category_frame d1) as (d2 & H2 & F2).
  { intros col c Hin. apply list_elem_of_singleton in Hin as ->.
    rewrite F1 by done. apply Hnum. in_concrete_list. }
  destruct (add_discount_or_promo_frame d2) as (d3 & H3 & F3).
  destruct (add_is_repeat_customer_frame d3) as (d4 & H4 & F4).
  { intros col c Hin. apply list_elem_of_singleton in Hin as ->.
    rewrite F3, F2, F1 by done. apply Hnum. in_concrete_list. }
  destruct (add_season_category_frame nr d4) as (d5 & H5 & F5).
  exists d5. apply feature_engineering_steps. by exists d1, d2, d3, d4.
Qed.

(** What the table returned holds under each derived name. *)
Lemma feature_engineering_derived nr df df' :
  feature_engineering nr df = Ok df' ->
  (forall vs, getitem df "Age" = Some (NumCol vs) ->
     getitem df' "Age_Group" = Some (CatCol (map age_group vs))
     /\ getitem df' "Age_Group_Ordinal"
        = Some (NumCol (cat_codes age_labels (map age_group vs))))
  /\ (forall vs, getitem df "Purchase Amount (USD)" = Some (NumCol vs) ->
        getitem df' "Purchase_Category" = Some (CatCol (map purchase_category vs)))
  /\ (forall d p, getitem df "Discount Applied" = Some d ->
        getitem df "Promo Code Used" = Some p ->
        getitem df' "Discount_or_Promo"
        = Some (CatCol (map (fun b : bool => Some (if b then "Yes" else "No"))
                          (zip_with orb (eq_str d "Yes") (eq_str p "Yes")))))
  /\ (forall vs, getitem df "Previous Purchases" = Some (NumCol vs) ->
        getitem df' "Is_Repeat_Customer"
        = Some (NumCol (map (fun v => Some (if fge v (Some 10%Q) then 1%Q else 0%Q)) vs)))
  /\ (forall s c, getitem df "Season" = Some s -> getitem df "Category" = Some c ->
        getitem df' "Season_Category"
        = Some (CatCol (zip_with (fun a b => Some (a +:+ "_" +:+ b))
                          (astype_str nr s) (astype_str nr c)))).
Proof.
  intros H.
  apply feature_engineering_chain in H
    as (d1 & d2 & d3 & d4 & H1 & H2 & H3 & H4 & H5 & Hsrc).
  assert (Hs : forall n, n ∉ derived_names ->
            getitem d1 n = getitem df n /\ getitem d2 n = getitem df n
            /\ getitem d3 n = getitem df n /\ getitem d4 n = getitem df n) by
    (intros n Hn; destruct (Hsrc n Hn) as (?&?&?&?&?); auto).
  assert (Hnd : forall n, n ∈ ["Age"; "Purchase Amount (USD)"; "Discount Applied";
                               "Promo Code Used"; "Previous Purchases"; "Season";
                               "Category"] -> n ∉ derived_names).
  { intros n Hn. unfold derived_names.
    repeat (apply elem_of_cons in Hn as [->|Hn]; [rewrite !not_elem_of_cons;
      repeat split; (discriminate || apply not_elem_of_nil)|]).
    by apply elem_of_nil in Hn. }
  apply add_age_group_inv in H1 as [F1 I1].
  apply add_purchase_category_inv in H2 as [F2 I2].
  apply add_discount_or_promo_inv in H3 as [F3 I3].
  apply add_is_repeat_customer_inv in H4 as [F4 I4].
  apply add_season_category_inv in H5 as [F5 I5].
  split; [|split; [|split; [|split]]].
  - intros vs Hage. rewrite Hage in I1.
    rewrite !F5, !F4, !F3, !F2 by done. subst d1. split.
    + rewrite getitem_setitem_ne by done. apply getitem_setitem_eq.
    + apply getitem_setitem_eq.
  - intros vs Hp. destruct (Hs "Purchase Amount (USD)") as (E1 & _); [apply Hnd; in_concrete_list|].
    rewrite E1, Hp in I2. rewrite F5, F4, F3 by done. subst d2. apply getitem_setitem_eq.
  - intros d p Hd Hp.
    destruct (Hs "Discount Applied") as (_ & E1 & _); [apply Hnd; in_concrete_list|].
    destruct (Hs "Promo Code Used") as (_ & E2 & _); [apply Hnd; in_concrete_list|].
    rewrite E1, E2, Hd, Hp in I3. rewrite F5, F4 by done. subst d3.
    apply getitem_setitem_eq.
  - intros vs Hp.
    destruct (Hs "Previous Purchases") as (_ & _ & E1 & _); [apply Hnd; in_concrete_list|].
    rewrite E1, Hp in I4. rewrite F5 by done. subst d4. apply getitem_setitem_eq.
  - intros s c Hsn Hc.
    destruct (Hs "Season") as (_ & _ & _ & E1); [apply Hnd; in_concrete_list|].
    destruct (Hs "Category") as (_ & _ & _ & E2); [apply Hnd; in_concrete_list|].
    rewrite E1, E2, Hsn, Hc in I5. subst df'. apply getitem_setitem_eq.
Qed.

Ltac decide_lt a :=
  repeat match goal with
    | |- context [Qltb ?e a] =>
        first [ rewrite (proj2 (Qltb_lt e a)) by lra
              | rewrite (proj2 (Qltb_ge e a)) by lra ]
    end.

Lemma purchase_category_cases a :
  ((a <= 30)%Q -> purchase_category (Some a) = Some "Very Low")
  /\ ((30 < a)%Q -> (a <= 50)%Q -> purchase_category (Some a) = Some "Low")
  /\ ((50 < a)%Q -> (a <= 75)%Q -> purchase_category (Some a) = Some "Medium")
  /\ ((75 < a)%Q -> (a <= 100)%Q -> purchase_category (Some a) = Some "High")
  /\ ((100 < a)%Q -> purchase_category (Some a) = Some "Very High").
Proof.
  unfold purchase_category, cut, purchase_bins.
  cbn [map head default searchsorted edge_ltb].
  repeat split; intros; decide_lt a; reflexivity.
Qed.

(** X1. With numeric purchase, age and previous-purchase columns,
    [feature_engineering] returns a table whose Purchase_Category labels
    every amount by the bins (-inf,30], (30,50], (50,75], (75,100],
    (100,inf), each closed on the right: a non-missing amount always gets a
    label, a missing amount none. *)
Theorem purchase_category_bins_right_closed (nr : Q -> string) (df : DataFrame)
    (vs : list (option Q)) :
  getitem df "Purchase Amount (USD)" = Some (NumCol vs) ->
  numeric_targets df numeric_sources ->
  exists df' cats,
    feature_engineering nr df = Ok df'
    /\ getitem df' "Purchase_Category" = Some (CatCol cats)
    /\ length cats = length vs
    /\ forall i,
         (vs !! i = Some None -> cats !! i = Some None)
         /\ forall a, vs !! i = Some (Some a) ->
              ((a <= 30)%Q -> cats !! i = Some (Some "Very Low"))
              /\ ((30 < a)%Q -> (a <= 50)%Q -> cats !! i = Some (Some "Low"))
              /\ ((50 < a)%Q -> (a <= 75)%Q -> cats !! i = Some (Some "Medium"))
              /\ ((75 < a)%Q -> (a <= 100)%Q -> cats !! i = Some (Some "High"))
              /\ ((100 < a)%Q -> cats !! i = Some (Some "Very High")).
Proof.
  intros Hp Hnum. destruct (feature_engineering_total nr df Hnum) as [df' Hrun].
  destruct (feature_engineering_derived nr df df' Hrun) as (_ & Hpc & _).
  exists df', (map purchase_category vs). split; [done|]. split; [by apply Hpc|].
  split; [apply length_map|]. intros i. split.
  - intros Hi. by rewrite lookup_map, Hi.
  - intros a Hi. rewrite lookup_map, Hi. simpl.
    destruct (purchase_category_cases a) as (C1 & C2 & C3 & C4 & C5).
    repeat split; intros.
    + by rewrite C1.
    + by rewrite C2.
    + by rewrite C3.
    + by rewrite C4.
    + by rewrite C5.
Qed.

(** X2. With categorical Discount Applied and Promo Code Used columns (and
    numeric columns where numbers are expected), [feature_engineering]
    returns a table whose Discount_or_Promo is "Yes" in the rows where one
    of the two is "Yes" and "No" in all others, a missing value counting as
    not "Yes"; it is never missing. *)
Theorem discount_or_promo_is_disjunction (nr : Q -> string) (df : DataFrame)
    (ds ps : list (option string)) :
  getitem df "Discount Applied" = Some (CatCol ds) ->
  getitem df "Promo Code Used" = Some (CatCol ps) ->
  numeric_targets df numeric_sources ->
  exists df' flags,
    feature_engineering nr df = Ok df'
    /\ getitem df' "Discount_or_Promo" = Some (CatCol flags)
    /\ length flags = Nat.min (length ds) (length ps)
    /\ forall i x y, ds !! i = Some x -> ps !! i = Some y ->
         flags !! i = Some (Some (if is_yes x || is_yes y then "Yes" else "No")).
Proof.
  intros Hd Hp Hnum. destruct (feature_engineering_total nr df Hnum) as [df' Hrun].
  destruct (feature_engineering_derived nr df df' Hrun) as (_ & _ & Hdp & _).
  eexists df', _. split; [done|]. split; [by apply Hdp|]. simpl. split.
  - by rewrite length_map, length_zip_with, !length_map.
  - intros i x y Hx Hy. rewrite lookup_map, lookup_zip_with, !lookup_map, Hx, Hy.
    simpl. by destruct x, y.
Qed.

(** X3. With a numeric Previous Purchases column, [feature_engineering]
    returns a table whose Is_Repeat_Customer is 1 in the rows with at least
    10 previous purchases and 0 in the others, the rows with a missing count
    included. *)
Theorem is_repeat_customer_from_ten (nr : Q -> string) (df : DataFrame)
    (vs : list (option Q)) :
  getitem df "Previous Purchases" = Some (NumCol vs) ->
  numeric_targets df numeric_sources ->
  exists df' flags,
    feature_engineering nr df = Ok df'
    /\ getitem df' "Is_Repeat_Customer" = Some (NumCol flags)
    /\ length flags = length vs
    /\ forall i,
         (vs !! i = Some None -> flags !! i = Some (Some 0%Q))
         /\ forall a, vs !! i = Some (Some a) ->
              ((10 <= a)%Q -> flags !! i = Some (Some 1%Q))
              /\ ((a < 10)%Q -> flags !! i = Some (Some 0%Q)).
Proof.
  intros Hp Hnum. destruct (feature_engineering_total nr df Hnum) as [df' Hrun].
  destruct (feature_engineering_derived nr df df' Hrun) as (_ & _ & _ & Hrc & _).
  eexists df', _. split; [done|]. split; [by apply Hrc|].
  split; [apply length_map|]. intros i. split.
  - intros Hi. by rewrite lookup_map, Hi.
  - intros a Hi. rewrite lookup_map, Hi. simpl. split.
    + intros Ha. apply Qle_bool_iff in Ha. by rewrite Ha.
    + intros Ha. apply Qle_bool_false in Ha. by rewrite Ha.
Qed.


Lemma columns_setitem_cases df n c :
  columns (setitem df n c) = columns df \/ columns (setitem df n c) = columns df ++ [n].
Proof.
  unfold columns. induction df as [|[m c0] df IH]; simpl; [by right|].
  destruct (String.eqb n m); simpl; [by left|].
  destruct IH as [->| ->]; [by left | by right].
Qed.

Lemma appends_only_refl names df : appends_only names df df.
Proof. split; [done | auto]. Qed.

Lemma appends_only_trans names d1 d2 d3 :
  appends_only names d1 d2 -> appends_only names d2 d3 -> appends_only names d1 d3.
Proof.
  intros [P1 E1] [P2 E2]. split; [by etransitivity|].
  intros n Hn. destruct (E2 n Hn) as [H|H]; auto.
Qed.

Lemma appends_only_setitem names df n c :
  n ∈ names -> appends_only names df (setitem df n c).
Proof.
  intros Hn. destruct (columns_setitem_cases df n c) as [E|E]; unfold appends_only; rewrite E.
  - split; [done | auto].
  - split; [by apply prefix_app_r|]. intros m Hm.
    apply elem_of_app in Hm as [?|Hm]; [auto|].
    apply list_elem_of_singleton in Hm as ->. auto.
Qed.

(** ** The derivations keep the table well formed *)

Lemma columns_setitem_new df n c :
  getitem df n = None -> columns (setitem df n c) = columns df ++ [n].
Proof.
  unfold columns. induction df as [|[m c0] df IH]; simpl; [done|].
  destruct (String.eqb n m); [done|]. intros H. simpl. by rewrite IH.
Qed.

Lemma setitem_elem df n c m c' :
  (m, c') ∈ setitem df n c -> (m, c') ∈ df \/ (m = n /\ c' = c).
Proof.
  induction df as [|[m0 c0] df IH]; simpl.
  - intros H. apply list_elem_of_singleton in H. injection H as -> ->. by right.
  - destruct (String.eqb_spec n m0) as [->|Hne]; intros H;
      apply elem_of_cons in H as [H|H].
    + injection H as -> ->. by right.
    + left. by right.
    + injection H as -> ->. left. left.
    + destruct (IH H) as [?|?]; [left; by right | by right].
Qed.

Lemma wf_setitem df n c :
  wf df -> df <> [] -> col_len c = nrows df ->
  wf (setitem df n c) /\ nrows (setitem df n c) = nrows df.
Proof.
  intros [Hnd Hlen] Hne Hc.
  assert (Hrows : nrows (setitem df n c) = nrows df).
  { destruct df as [|[m c0] df]; [done|]. simpl in *. by destruct (String.eqb n m). }
  split; [|done]. split.
  - destruct (getitem df n) as [c0|] eqn:E.
    + by rewrite (columns_setitem df n c c0 E).
    + rewrite (columns_setitem_new df n c E). apply NoDup_app.
      split; [done|]. split; [|apply NoDup_singleton].
      intros x Hx Hx'. apply list_elem_of_singleton in Hx' as ->.
      by apply getitem_None in E.
  - apply Forall_forall. intros [m c'] Hin. simpl. rewrite Hrows.
    apply setitem_elem in Hin as [Hin|[-> ->]]; [|done].
    rewrite Forall_forall in Hlen. apply (Hlen _ Hin).
Qed.

Lemma getitem_nonempty df col c : getitem df col = Some c -> df <> [].
Proof. by destruct df. Qed.

Lemma setitem_nonempty df n c : setitem df n c <> [].
Proof. destruct df as [|[m c0] df]; simpl; [done|]. by destruct (String.eqb n m). Qed.

Lemma length_eq_str c v : length (eq_str c v) = col_len c.
Proof. destruct c; simpl; apply length_map. Qed.

Lemma length_astype_str nr c : length (astype_str nr c) = col_len c.
Proof. destruct c; simpl; apply length_map. Qed.

Ltac derived_name := unfold derived_names; in_concrete_list.

Lemma add_age_group_step df df' :
  add_age_group df = Ok df' ->
  appends_only derived_names df df' /\ (wf df -> wf df' /\ nrows df' = nrows df).
Proof.
  intros H. apply add_age_group_inv in H as [_ H].
  destruct (getitem df "Age") as [[vs|vs]|] eqn:E; [|done|subst; split; [apply appends_only_refl | done]].
  subst df'. split.
  - eapply appends_only_trans; apply appends_only_setitem; derived_name.
  - intros Hwf. pose proof (wf_col_len df _ _ Hwf E) as Hlen. simpl in Hlen.
    destruct (wf_setitem df "Age_Group" (CatCol (map age_group vs)) Hwf) as [Hwf1 Hr1];
      [by eapply getitem_nonempty | by simpl; rewrite length_map |].
    destruct (wf_setitem _ "Age_Group_Ordinal"
                (NumCol (cat_codes age_labels (map age_group vs))) Hwf1) as [Hwf2 Hr2].
    + apply setitem_nonempty.
    + unfold cat_codes. simpl. rewrite !length_map. congruence.
    + split; [done | congruence].
Qed.

Lemma add_purchase_category_step df df' :
  add_purchase_category df = Ok df' ->
  appends_only derived_names df df' /\ (wf df -> wf df' /\ nrows df' = nrows df).
Proof.
  intros H. apply add_purchase_category_inv in H as [_ H].
  destruct (getitem df "Purchase Amount (USD)") as [[vs|vs]|] eqn:E;
    [|done|subst; split; [apply appends_only_refl | done]].
  subst df'. split; [apply appends_only_setitem; derived_name|].
  intros Hwf. pose proof (wf_col_len df _ _ Hwf E) as Hlen. simpl in Hlen.
  apply wf_setitem; [done | by eapply getitem_nonempty | by simpl; rewrite length_map].
Qed.

Lemma add_discount_or_promo_step df df' :
  add_discount_or_promo df = Ok df' ->
  appends_only derived_names df df' /\ (wf df -> wf df' /\ nrows df' = nrows df).
Proof.
  intros H. apply add_discount_or_promo_inv in H as [_ H].
  destruct (getitem df "Discount Applied") as [d|] eqn:Ed;
    [|subst; split; [apply appends_only_refl | done]].
  destruct (getitem df "Promo Code Used") as [p|] eqn:Ep;
    [|subst; split; [apply appends_only_refl | done]].
  subst df'. split; [apply appends_only_setitem; derived_name|].
  intros Hwf. pose proof (wf_col_len df _ _ Hwf Ed) as Hd.
  pose proof (wf_col_len df _ _ Hwf Ep) as Hp.
  apply wf_setitem; [done | by eapply getitem_nonempty |].
  simpl. rewrite length_map, length_zip_with, !length_eq_str. lia.
Qed.

Lemma add_is_repeat_customer_step df df' :
  add_is_repeat_customer df = Ok df' ->
  appends_only derived_names df df' /\ (wf df -> wf df' /\ nrows df' = nrows df).
Proof.
  intros H. apply add_is_repeat_customer_inv in H as [_ H].
  destruct (getitem df "Previous Purchases") as [[vs|vs]|] eqn:E;
    [|done|subst; split; [apply appends_only_refl | done]].
  subst df'. split; [apply appends_only_setitem; derived_name|].
  intros Hwf. pose proof (wf_col_len df _ _ Hwf E) as Hlen. simpl in Hlen.
  apply wf_setitem; [done | by eapply getitem_nonempty | by simpl; rewrite length_map].
Qed.

Lemma add_season_category_step nr df df' :
  add_season_category nr df = Ok df' ->
  appends_only derived_names df df' /\ (wf df -> wf df' /\ nrows df' = nrows df).
Proof.
  intros H. apply add_season_category_inv in H as [_ H].
  destruct (getitem df "Season") as [s|] eqn:Es;
    [|subst; split; [apply appends_only_refl | done]].
  destruct (getitem df "Category") as [c|] eqn:Ec;
    [|subst; split; [apply appends_only_refl | done]].
  subst df'. split; [apply appends_only_setitem; derived_name|].
  intros Hwf. pose proof (wf_col_len df _ _ Hwf Es) as Hs.
  pose proof (wf_col_len df _ _ Hwf Ec) as Hc.
  apply wf_setitem; [done | by eapply getitem_nonempty |].
  simpl. rewrite length_zip_with, !length_astype_str. lia.
Qed.

Lemma feature_engineering_appends nr df df' :
  feature_engineering nr df = Ok df' ->
  appends_only derived_names df df' /\ (wf df -> wf df' /\ nrows df' = nrows df).
Proof.
  intros H. apply feature_engineering_steps in H
    as (d1 & d2 & d3 & d4 & H1 & H2 & H3 & H4 & H5).
  apply add_age_group_step in H1 as [A1 W1].
  apply add_purchase_category_step in H2 as [A2 W2].
  apply add_discount_or_promo_step in H3 as [A3 W3].
  apply add_is_repeat_customer_step in H4 as [A4 W4].
  apply add_season_category_step in H5 as [A5 W5].
  split; [eauto using appends_only_trans|].
  intros Hwf. destruct (W1 Hwf) as [Hw1 R1]. destruct (W2 Hw1) as [Hw2 R2].
  destruct (W3 Hw2) as [Hw3 R3]. destruct (W4 Hw3) as [Hw4 R4].
  destruct (W5 Hw4) as [Hw5 R5]. split; [done | congruence].
Qed.

(** X5. [feature_engineering] only appends: the table it returns has the
    input's columns, in their order, followed at most by columns with the
    six derived names; every column of the input that does not bear a
    derived name is returned unchanged; and a derivation whose source
    column is absent leaves the table as it is. *)
Theorem feature_engineering_only_appends (nr : Q -> string) (df df' : DataFrame) :
  feature_engineering nr df = Ok df' ->
  appends_only derived_names df df'
  /\ (forall n, n ∉ derived_names -> getitem df' n = getitem df n)
  /\ (getitem df "Age" = None ->
      getitem df' "Age_Group" = getitem df "Age_Group"
      /\ getitem df' "Age_Group_Ordinal" = getitem df "Age_Group_Ordinal")
  /\ (getitem df "Purchase Amount (USD)" = None ->
      getitem df' "Purchase_Category" = getitem df "Purchase_Category")
  /\ (getitem df "Discount Applied" = None \/ getitem df "Promo Code Used" = None ->
      getitem df' "Discount_or_Promo" = getitem df "Discount_or_Promo")
  /\ (getitem df "Previous Purchases" = None ->
      getitem df' "Is_Repeat_Customer" = getitem df "Is_Repeat_Customer")
  /\ (getitem df "Season" = None \/ getitem df "Category" = None ->
      getitem df' "Season_Category" = getitem df "Season_Category").
Proof.
  intros H. pose proof (proj1 (feature_engineering_appends nr df df' H)) as Happ.
  apply feature_engineering_chain in H
    as (d1 & d2 & d3 & d4 & H1 & H2 & H3 & H4 & H5 & Hsrc).
  assert (Hnd : forall n, n ∈ ["Age"; "Purchase Amount (USD)"; "Discount Applied";
                               "Promo Code Used"; "Previous Purchases"; "Season";
                               "Category"] -> n ∉ derived_names).
  { intros n Hn. unfold derived_names.
    repeat (apply elem_of_cons in Hn as [->|Hn]; [rewrite !not_elem_of_cons;
      repeat split; (discriminate || apply not_elem_of_nil)|]).
    by apply elem_of_nil in Hn. }
  apply add_age_group_inv in H1 as [F1 I1].
  apply add_purchase_category_inv in H2 as [F2 I2].
  apply add_discount_or_promo_inv in H3 as [F3 I3].
  apply add_is_repeat_customer_inv in H4 as [F4 I4].
  apply add_season_category_inv in H5 as [F5 I5].
  destruct (Hsrc "Purchase Amount (USD)") as (E2 & _); [apply Hnd; in_concrete_list|].
  destruct (Hsrc "Discount Applied") as (_ & E3 & _); [apply Hnd; in_concrete_list|].
  destruct (Hsrc "Promo Code Used") as (_ & E3' & _); [apply Hnd; in_concrete_list|].
  destruct (Hsrc "Previous Purchases") as (_ & _ & E4 & _); [apply Hnd; in_concrete_list|].
  destruct (Hsrc "Season") as (_ & _ & _ & E5 & _); [apply Hnd; in_concrete_list|].
  destruct (Hsrc "Category") as (_ & _ & _ & E5' & _); [apply Hnd; in_concrete_list|].
  rewrite E2 in I2. rewrite E3, E3' in I3. rewrite E4 in I4. rewrite E5, E5' in I5.
  split; [|split; [|split; [|split; [|split; [|split]]]]].
  - exact Happ.
  - intros n Hn. by destruct (Hsrc n Hn) as (_ & _ & _ & _ & ?).
  - intros Hage. rewrite Hage in I1. subst d1. by rewrite !F5, !F4, !F3, !F2.
  - intros Hp. rewrite Hp in I2. subst d2. by rewrite F5, F4, F3, F1.
  - intros Hdp. rewrite F5, F4 by done.
    destruct Hdp as [Hdp|Hdp]; rewrite Hdp in I3.
    + subst d3. by rewrite F2, F1.
    + destruct (getitem df "Discount Applied"); subst d3; by rewrite F2, F1.
  - intros Hp. rewrite Hp in I4. subst d4. by rewrite F5, F3, F2, F1.
  - intros Hsc. destruct Hsc as [Hsc|Hsc]; rewrite Hsc in I5.
    + subst df'. by rewrite F4, F3, F2, F1.
    + destruct (getitem df "Season"); subst df'; by rewrite F4, F3, F2, F1.
Qed.



Lemma cat_codes_lookup categories gs i g :
  gs !! i = Some g ->
  cat_codes categories gs !! i
  = Some (match g ≫= (fun s => index_of s categories) with
          | Some j => Some (Q_of_nat j)
          | None => Some (inject_Z (-1))
          end).
Proof. intros H. unfold cat_codes. by rewrite lookup_map, H. Qed.

(** X7. With a numeric Age column, the Age_Group_Ordinal of the table
    returned is, row by row, the position of the age's bin among the seven
    bins, counted from 0, and -1 for an age outside [0,100) and for a
    missing age: it is -1 exactly in the rows where Age_Group is missing. *)
Theorem age_group_ordinal_is_bin_position (nr : Q -> string) (df : DataFrame)
    (vs : list (option Q)) :
  getitem df "Age" = Some (NumCol vs) ->
  numeric_targets df numeric_sources ->
  exists df' codes,
    feature_engineering nr df = Ok df'
    /\ getitem df' "Age_Group_Ordinal" = Some (NumCol codes)
    /\ length codes = length vs
    /\ forall i,
         (vs !! i = Some None -> codes !! i = Some (Some (inject_Z (-1))))
         /\ forall a, vs !! i = Some (Some a) ->
              (forall j lo hi lbl, age_intervals !! j = Some (lo, hi, lbl) ->
                 (lo <= a)%Q -> (a < hi)%Q ->
                 codes !! i = Some (Some (Q_of_nat j)))
              /\ ((a < 0)%Q \/ (100 <= a)%Q ->
                  codes !! i = Some (Some (inject_Z (-1)))).
Proof.
  intros Hage Hnum. destruct (feature_engineering_total nr df Hnum) as [df' Hrun].
  destruct (feature_engineering_derived nr df df' Hrun) as (Hag & _).
  destruct (Hag vs Hage) as [_ Hord].
  eexists df', _. split; [done|]. split; [exact Hord|].
  split; [unfold cat_codes; by rewrite !length_map|]. intros i. split.
  - intros Hi. rewrite (cat_codes_lookup _ _ i None); [done|]. by rewrite lookup_map, Hi.
  - intros a Hi.
    assert (Hg : map age_group vs !! i = Some (age_group (Some a)))
      by (by rewrite lookup_map, Hi).
    rewrite (cat_codes_lookup _ _ i _ Hg). split.
    + intros j lo hi lbl Hj Hlo Hhi.
      rewrite (age_group_interval a lo hi lbl); [| by eapply list_elem_of_lookup_2 | done..].
      unfold age_intervals in Hj.
      do 7 (destruct j as [|j]; [injection Hj as <- <- <-; reflexivity|]).
      done.
    + intros Hout. by rewrite age_group_outside.
Qed.

(** ** Encoding: absent columns, the encoders returned *)



Lemma label_loop_other nr cols st n :
  n ∉ cols ->
  getitem (fst (fold_left (label_encode_column nr) cols st)) n = getitem (fst st) n.
Proof.
  revert st. induction cols as [|c cols IH]; intros st Hn; simpl; [done|].
  rewrite not_elem_of_cons in Hn. destruct Hn as [Hne Hn]. rewrite IH by done.
  destruct st as [df enc]. simpl. destruct (getitem df c); simpl; [|done].
  by rewrite getitem_setitem_ne.
Qed.



Lemma getitems_ok df cols X :
  getitems df cols = Ok X ->
  X = omap (fun c => pair c <$> getitem df c) cols
  /\ forall c, c ∈ cols -> getitem df c <> None.
Proof.
  revert X. induction cols as [|c cols IH]; intros X; simpl.
  - intros [= <-]. split; [done|]. intros c H. by apply elem_of_nil in H.
  - destruct (getitem df c) as [x|] eqn:E; [|done]. intros H.
    apply rbind_ok in H as (X' & HX' & [= <-]). destruct (IH X' HX') as [-> Hall].
    simpl. split; [done|]. intros c' Hc'. apply elem_of_cons in Hc' as [->|Hc'].
    + by rewrite E.
    + by apply Hall.
Qed.

(** The table after the label-encoding block *)
Lemma encode_categorical_unfold nr df cols_onehot cols_label drop_first :
  encode_categorical nr df cols_onehot cols_label drop_first =
  let st := match truthy cols_label with
            | Some cols => fold_left (label_encode_column nr) cols (df, ∅)
            | None => (df, ∅)
            end in
  match truthy cols_onehot with
  | Some cols =>
      X <-r getitems (fst st) cols ;;
      Ok (drop_columns (fst st) cols ++ concat (map (onehot_column nr drop_first) X),
          <["onehot" := OneHotEncoder (map (fun nc => onehot_categories (snd nc)) X)]>
            (snd st))
  | None => Ok st
  end.
Proof.
  unfold encode_categorical, copy.
  destruct (truthy cols_label) as [cols|];
    [destruct (fold_left _ cols _) as [df1 enc1] | ]; by destruct (truthy cols_onehot).
Qed.

Lemma truthy_elem {A} (l : option (list A)) x :
  x ∈ default [] l <-> exists cols, truthy l = Some cols /\ x ∈ cols.
Proof.
  destruct l as [[|y l]|]; simpl.
  - split; [intros H; by apply elem_of_nil in H | intros (? & ? & _); done].
  - split; [eauto | intros (? & [= <-] & ?); done].
  - split; [intros H; by apply elem_of_nil in H | intros (? & ? & _); done].
Qed.




(** ** One-hot encoding *)

Lemma insert_sorted_elem x y l : x ∈ insert_sorted y l <-> x = y \/ x ∈ l.
Proof.
  induction l as [|z l IH]; simpl.
  - rewrite list_elem_of_singleton. split; [auto | intros [?|H]; [done|]].
    by apply elem_of_nil in H.
  - destruct (Qle_bool y z); rewrite !elem_of_cons; [tauto|]. rewrite IH. tauto.
Qed.

Lemma sort_values_elem x l : x ∈ sort_values l <-> x ∈ l.
Proof.
  unfold sort_values. induction l as [|y l IH]; simpl; [done|].
  rewrite insert_sorted_elem, elem_of_cons, IH. tauto.
Qed.

Lemma dedup_adjacent_cons x y l :
  dedup_adjacent (x :: y :: l)
  = if Qeq_bool x y then dedup_adjacent (y :: l) else x :: dedup_adjacent (y :: l).
Proof. reflexivity. Qed.

Lemma dedup_adjacent_Forall (P : Q -> Prop) l :
  Forall P l -> Forall P (dedup_adjacent l).
Proof.
  induction l as [|x l IH]; [done|]. intros H. apply Forall_cons in H as [Hx Hl].
  destruct l as [|y l]; [by constructor|]. rewrite dedup_adjacent_cons.
  destruct (Qeq_bool x y); [auto | constructor; auto].
Qed.

Lemma dedup_adjacent_cover l x :
  x ∈ l -> exists y, y ∈ dedup_adjacent l /\ (x == y)%Q.
Proof.
  revert x. induction l as [|z l IH]; intros x Hx; [by apply elem_of_nil in Hx|].
  destruct l as [|y l].
  - apply list_elem_of_singleton in Hx as ->. exists z. split; [left | reflexivity].
  - rewrite dedup_adjacent_cons. apply elem_of_cons in Hx as [->|Hx].
    + destruct (Qeq_bool z y) eqn:E.
      * apply Qeq_bool_iff in E. destruct (IH y ltac:(left)) as (w & Hw & Hyw).
        exists w. split; [done|]. by rewrite E.
      * exists z. split; [left | reflexivity].
    + destruct (IH x Hx) as (w & Hw & Hxw). exists w. split; [|done].
      destruct (Qeq_bool z y); [done | by right].
Qed.

Lemma dedup_adjacent_sorted l :
  StronglySorted Qle l -> StronglySorted Qlt (dedup_adjacent l).
Proof.
  induction l as [|x l IH]; [constructor|]. intros H.
  apply StronglySorted_inv in H as [Hl Hx]. specialize (IH Hl).
  destruct l as [|y l]; [repeat constructor|]. rewrite dedup_adjacent_cons.
  destruct (Qeq_bool x y) eqn:E; [done|]. constructor; [done|].
  apply dedup_adjacent_Forall. apply Forall_cons in Hx as [Hxy Hxl].
  assert (x < y)%Q as Hlt.
  { apply Qle_lt_or_eq in Hxy as [?|Heq]; [done|].
    apply Qeq_bool_iff in Heq. congruence. }
  constructor; [done|]. apply StronglySorted_inv in Hl as [_ Hy].
  eapply Forall_impl; [exact Hy|]. intros z Hz. simpl in Hz.
  by apply Qlt_le_trans with y.
Qed.

Lemma sorted_Qlt_lookup l i j x y :
  StronglySorted Qlt l -> l !! i = Some x -> l !! j = Some y -> (i < j)%nat ->
  (x < y)%Q.
Proof.
  intros Hs. revert i j. induction Hs as [|z l Hs IH Hl]; intros i j Hi Hj Hij.
  - done.
  - destruct i as [|i], j as [|j]; simpl in *; try lia.
    + injection Hi as ->. rewrite Forall_forall in Hl. apply Hl.
      by eapply list_elem_of_lookup_2.
    + apply (IH i j); [done | done | lia].
Qed.

Lemma sorted_Qlt_distinct l i j x y :
  StronglySorted Qlt l -> l !! i = Some x -> l !! j = Some y -> (x == y)%Q -> i = j.
Proof.
  intros Hs Hi Hj Heq. destruct (Nat.lt_trichotomy i j) as [Hlt|[?|Hlt]]; [|done|].
  - pose proof (sorted_Qlt_lookup l i j x y Hs Hi Hj Hlt) as H. rewrite Heq in H.
    by apply Qlt_irrefl in H.
  - pose proof (sorted_Qlt_lookup l j i y x Hs Hj Hi Hlt) as H. rewrite Heq in H.
    by apply Qlt_irrefl in H.
Qed.

Lemma cell_eqb_sym a b : cell_eqb a b = cell_eqb b a.
Proof.
  destruct a as [[x|]|[s|]], b as [[y|]|[t|]]; simpl; try done.
  - destruct (Qeq_bool x y) eqn:E, (Qeq_bool y x) eqn:E'; try done.
    + apply Qeq_bool_iff in E. symmetry in E. apply Qeq_bool_iff in E. congruence.
    + apply Qeq_bool_iff in E'. symmetry in E'. apply Qeq_bool_iff in E'. congruence.
  - apply String.eqb_sym.
Qed.

Lemma isna_any_true {A} (vs : list (option A)) : isna_any vs = true <-> None ∈ vs.
Proof.
  unfold isna_any. induction vs as [|[v|] vs IH]; simpl.
  - split; [done | intros H; by apply elem_of_nil in H].
  - rewrite IH, elem_of_cons. split; [auto | intros [?|?]; [done | auto]].
  - split; [intros _; left | done].
Qed.

(** A list of distinct present categories followed, or not, by the missing
    one is a list of distinct categories. *)
Lemma distinct_cells_app (present : list cell) (missing : cell) (b : bool) :
  distinct_cells present ->
  (forall k, k ∈ present -> cell_eqb k missing = false) ->
  distinct_cells (present ++ (if b then [missing] else [])).
Proof.
  intros Hd Hm j j' k k' Hj Hj' Heq.
  destruct (decide (j < length present)%nat) as [Hlt|Hge],
           (decide (j' < length present)%nat) as [Hlt'|Hge'].
  - rewrite lookup_app_l in Hj, Hj' by done. by eapply Hd.
  - rewrite lookup_app_l in Hj by done. rewrite lookup_app_r in Hj' by lia.
    destruct b; [|done]. apply list_lookup_singleton_Some in Hj' as [_ <-].
    rewrite Hm in Heq; [done|]. by eapply list_elem_of_lookup_2.
  - rewrite lookup_app_l in Hj' by done. rewrite lookup_app_r in Hj by lia.
    destruct b; [|done]. apply list_lookup_singleton_Some in Hj as [_ <-].
    rewrite cell_eqb_sym, Hm in Heq; [done|]. by eapply list_elem_of_lookup_2.
  - rewrite lookup_app_r in Hj, Hj' by lia. destruct b; [|done].
    apply list_lookup_singleton_Some in Hj as [Hj _].
    apply list_lookup_singleton_Some in Hj' as [Hj' _]. lia.
Qed.

Lemma onehot_categories_distinct c : distinct_cells (onehot_categories c).
Proof.
  destruct c as [vs|vs]; simpl.
  - apply distinct_cells_app.
    + intros j j' k k'. rewrite !lookup_map.
      destruct (_ !! j) as [x|] eqn:Ej; [|done]. destruct (_ !! j') as [y|] eqn:Ej'; [|done].
      simpl. intros [= <-] [= <-] Heq. simpl in Heq. apply Qeq_bool_iff in Heq.
      eapply sorted_Qlt_distinct; [|exact Ej|exact Ej'|exact Heq].
      apply dedup_adjacent_sorted, sort_values_sorted.
    + intros k Hk. apply list_elem_of_fmap in Hk as (x & -> & _). done.
  - apply distinct_cells_app.
    + intros j j' k k'. rewrite !lookup_map.
      destruct (_ !! j) as [x|] eqn:Ej; [|done]. destruct (_ !! j') as [y|] eqn:Ej'; [|done].
      simpl. intros [= <-] [= <-] Heq. simpl in Heq. apply String.eqb_eq in Heq. subst y.
      eapply NoDup_lookup; [|exact Ej|exact Ej'].
      apply sorted_lt_NoDup, sorted_unique_sorted.
    + intros k Hk. apply list_elem_of_fmap in Hk as (x & -> & _). done.
Qed.

Lemma onehot_categories_cover c v :
  v ∈ col_cells c -> exists k, k ∈ onehot_categories c /\ cell_eqb v k = true.
Proof.
  destruct c as [vs|vs]; simpl; intros Hv; apply list_elem_of_fmap in Hv as (o & -> & Ho).
  - destruct o as [x|].
    + assert (x ∈ sort_values (s_values (dropna vs))) as Hx.
      { apply sort_values_elem. by apply elem_of_dropna_from. }
      apply dedup_adjacent_cover in Hx as (y & Hy & Hxy).
      exists (NumCell (Some y)). split.
      * apply elem_of_app. left. apply list_elem_of_fmap. eauto.
      * simpl. by apply Qeq_bool_iff.
    + exists (NumCell None). split; [|done]. apply elem_of_app. right.
      apply isna_any_true in Ho. rewrite Ho. left.
  - destruct o as [x|].
    + exists (CatCell (Some x)). split.
      * apply elem_of_app. left. apply list_elem_of_fmap. exists x. split; [done|].
        apply sorted_unique_elem. by apply elem_of_dropna_from.
      * simpl. apply String.eqb_refl.
    + exists (CatCell None). split; [|done]. apply elem_of_app. right.
      apply isna_any_true in Ho. rewrite Ho. left.
Qed.

(** The indicator columns of one encoded column: among the categories of
    the column, the value of a row equals exactly one, and the indicator
    column of a category that was kept holds 1 in that row when the category
    is that one and 0 otherwise. *)
Lemma onehot_column_indicators (nr : Q -> string) (drop_first : bool) (name : string)
    (c : column) (i : nat) (v : cell) :
  col_cells c !! i = Some v ->
  let skip := if drop_first then 1%nat else 0%nat in
  exists j k,
    onehot_categories c !! j = Some k /\ cell_eqb v k = true
    /\ length (onehot_column nr drop_first (name, c))
       = (length (onehot_categories c) - skip)%nat
    /\ forall j', (j' < length (onehot_column nr drop_first (name, c)))%nat ->
         exists k' vals,
           onehot_categories c !! (j' + skip)%nat = Some k'
           /\ onehot_column nr drop_first (name, c) !! j'
              = Some (name +:+ "_" +:+ cell_str nr k', NumCol vals)
           /\ vals !! i = Some (Some (if Nat.eqb (j' + skip) j then 1%Q else 0%Q)).
Proof.
  intros Hv skip.
  destruct (onehot_categories_cover c v) as (k & Hk & Hvk);
    [by eapply list_elem_of_lookup_2|].
  apply list_elem_of_lookup in Hk as [j Hj].
  exists j, k. split; [done|]. split; [done|].
  unfold onehot_column. simpl fst. simpl snd.
  set (cats := onehot_categories c) in *.
  set (kept := if drop_first then tail cats else cats).
  assert (Hkept : forall j', kept !! j' = cats !! (j' + skip)%nat).
  { intros j'. subst kept skip. destruct drop_first.
    - rewrite lookup_tail. f_equal. lia.
    - f_equal. lia. }
  assert (Hlen : length kept = (length cats - skip)%nat).
  { assert (Htail : forall l : list cell, length (tail l) = (length l - 1)%nat)
      by (intros [|? ?]; simpl; lia).
    subst kept skip. destruct drop_first; [apply Htail | lia]. }
  rewrite length_map. split; [done|]. intros j' Hj'.
  destruct (lookup_lt_is_Some_2 kept j' Hj') as [k' Hk'].
  eexists k', _. split; [by rewrite <- Hkept|].
  rewrite lookup_map, Hk'. simpl. split; [reflexivity|].
  rewrite lookup_map, Hv. simpl. do 2 f_equal.
  rewrite Hkept in Hk'.
  destruct (Nat.eqb_spec (j' + skip) j) as [Heq|Hne].
  - rewrite Heq, Hj in Hk'. injection Hk' as <-. by rewrite Hvk.
  - destruct (cell_eqb v k') eqn:E; [|done]. exfalso. apply Hne.
    apply (onehot_categories_distinct c (j' + skip) j k' k Hk' Hj).
    apply cell_eqb_trans with v; [by rewrite cell_eqb_sym | done].
Qed.

(** X8. One-hot encoding can be decoded: for a one-hot column that is not
    label-encoded, the table returned contains the block of its indicator
    columns, one per category of the column (the sorted distinct values, a
    missing value last), without the first category when drop_first is set.
    In every row the value equals exactly one category, and the indicators
    of the row are 1 for that category and 0 for all others; so without
    drop_first exactly one indicator of the row is 1, and with drop_first
    all are 0 exactly in the rows of the first category. *)
Theorem onehot_indicators_decode (nr : Q -> string) (df df' : DataFrame)
    (cols : list string) (cols_label : option (list string)) (drop_first : bool)
    (encoders : gmap string encoder) (col : string) (c : column) :
  col ∈ cols -> col ∉ default [] cols_label -> getitem df col = Some c ->
  encode_categorical nr df (Some cols) cols_label drop_first = Ok (df', encoders) ->
  let cats := onehot_categories c in
  let skip := if drop_first then 1%nat else 0%nat in
  distinct_cells cats
  /\ exists before block after,
       df' = before ++ block ++ after
       /\ length block = (length cats - skip)%nat
       /\ forall i v, col_cells c !! i = Some v ->
            exists j k, cats !! j = Some k /\ cell_eqb v k = true
              /\ forall j', (j' < length block)%nat ->
                   exists k' vals,
                     cats !! (j' + skip)%nat = Some k'
                     /\ block !! j' = Some (col +:+ "_" +:+ cell_str nr k', NumCol vals)
                     /\ vals !! i
                        = Some (Some (if Nat.eqb (j' + skip) j then 1%Q else 0%Q)).
Proof.
  intros Hin Hnl Hget Hrun cats skip. split; [apply onehot_categories_distinct|].
  rewrite encode_categorical_unfold in Hrun. cbv zeta in Hrun.
  set (st := match truthy cols_label with
             | Some cl => fold_left (label_encode_column nr) cl (df, ∅)
             | None => (df, ∅)
             end) in Hrun.
  assert (Hc : getitem (fst st) col = Some c).
  { subst st. destruct (truthy cols_label) as [cl|] eqn:Et; [|done].
    rewrite label_loop_other; [done|]. intros Hcl. apply Hnl.
    apply truthy_elem. eauto. }
  assert (truthy (Some cols) = Some cols) as Ht.
  { destruct cols; [by apply elem_of_nil in Hin | done]. }
  rewrite Ht in Hrun. apply rbind_ok in Hrun as (X & HX & Heq).
  assert (Hdf : df' = drop_columns (fst st) cols
                      ++ concat (map (onehot_column nr drop_first) X)) by congruence.
  clear Heq. apply getitems_ok in HX as [HX _].
  apply list_elem_of_split in Hin as (l1 & l2 & ->).
  rewrite omap_app in HX. simpl in HX. rewrite Hc in HX. simpl in HX.
  rewrite HX, map_app, concat_app in Hdf. simpl in Hdf.
  eexists (drop_columns (fst st) (l1 ++ col :: l2) ++ _),
          (onehot_column nr drop_first (col, c)), _.
  split; [rewrite Hdf; by rewrite <- app_assoc|].
  split.
  - unfold onehot_column. simpl. rewrite length_map. subst skip cats.
    destruct drop_first; [|lia]. destruct (onehot_categories c); simpl; lia.
  - intros i v Hv.
    destruct (onehot_column_indicators nr drop_first col c i v Hv)
      as (j & k & Hj & Hvk & _ & Hind).
    exists j, k. split; [done|]. split; [done|]. exact Hind.
Qed.

(** ** Outlier handling: which exceptions, and when *)

Lemma is_text_setitem_num df col vs vs' n :
  getitem df col = Some (NumCol vs) ->
  is_text (setitem df col (NumCol vs')) n = is_text df n.
Proof.
  intros Hget. unfold is_text. destruct (decide (col = n)) as [<-|Hne].
  - by rewrite getitem_setitem_eq, Hget.
  - by rewrite getitem_setitem_ne.
Qed.

Lemma is_text_filter_rows mask df n : is_text (filter_rows mask df) n = is_text df n.
Proof.
  unfold is_text. rewrite getitem_filter_rows. by destruct (getitem df n) as [[?|?]|].
Qed.

Lemma handle_column_is_text m k a df col df' n :
  handle_column m k a df col = Ok df' -> is_text df' n = is_text df n.
Proof.
  intros H. apply handle_column_cases in H
    as [->|[(_ & vs & vs' & Hget & _ & ->)|(_ & mask & ->)]]; [done | |].
  - by eapply is_text_setitem_num.
  - apply is_text_filter_rows.
Qed.



Lemma outlier_loop_is_text m k a cols n :
  forall df df', foldM (handle_column m k a) cols df = Ok df' ->
  is_text df' n = is_text df n.
Proof.
  induction cols as [|col cols IH]; simpl; intros df df' H; [by injection H as <-|].
  apply rbind_ok in H as (d1 & H1 & H2).
  rewrite (IH _ _ H2). by eapply handle_column_is_text.
Qed.




(** ** Remove mode on a column with missing values *)

Lemma rbind_Ok {A} (m : result A) : rbind m Ok = m.
Proof. by destruct m. Qed.

Lemma series_lookup_Some {A} (s : Series A) i v :
  series_lookup s i = Some v -> i ∈ s_index s.
Proof.
  induction s as [|[j w] s IH]; simpl; [done|].
  destruct (Nat.eqb_spec i j) as [->|_]; [left | right; auto].
Qed.

Lemma dropna_from_index {A} (vs : list (option A)) s j :
  j ∈ s_index (dropna_from s vs) ->
  (s <= j)%nat /\ exists x, vs !! (j - s)%nat = Some (Some x).
Proof.
  revert s. induction vs as [|[x|] vs IH]; intros s; simpl.
  - intros H. by apply elem_of_nil in H.
  - intros H. apply elem_of_cons in H as [->|H].
    + split; [lia|]. exists x. by rewrite Nat.sub_diag.
    + apply IH in H as [Hle (y & Hy)]. split; [lia|]. exists y.
      by replace (j - s)%nat with (S (j - S s)) by lia.
  - intros H. apply IH in H as [Hle (y & Hy)]. split; [lia|]. exists y.
    by replace (j - s)%nat with (S (j - S s)) by lia.
Qed.

Lemma s_index_invert_mask lower upper (series : Series Q) :
  s_index (invert (outlier_mask lower upper series)) = s_index series.
Proof. unfold s_index, invert, outlier_mask. rewrite !map_map. by apply map_ext. Qed.

(** A boolean key made from the non-missing values of a column cannot be
    aligned with the frame when the column has a missing value. *)
Lemma getitem_bool_unalignable df vs lower upper :
  length vs = nrows df -> None ∈ vs ->
  getitem_bool df (invert (outlier_mask lower upper (dropna vs))) = Raise IndexingError.
Proof.
  intros Hlen Hnone. apply list_elem_of_lookup in Hnone as [i Hi].
  assert (Hlt : (i < nrows df)%nat) by (rewrite <- Hlen; by eapply lookup_lt_Some).
  assert (Hout : i ∉ s_index (invert (outlier_mask lower upper (dropna vs)))).
  { rewrite s_index_invert_mask. intros Hin. apply dropna_from_index in Hin as [_ [x Hx]].
    rewrite Nat.sub_0_r in Hx. congruence. }
  assert (Hseq : i ∈ seq 0 (nrows df)) by (apply elem_of_seq; lia).
  unfold getitem_bool. rewrite decide_False by (intros Heq; by rewrite Heq in Hout).
  rewrite (mapM_None_2 (series_lookup _) (seq 0 (nrows df))); [done|].
  apply Exists_exists. exists i. split; [done|].
  destruct (series_lookup _ i) as [b|] eqn:E; [|done].
  by apply series_lookup_Some in E.
Qed.

Lemma filter_id_pos (l : list bool) :
  (0 < length (List.filter id l))%nat -> true ∈ l.
Proof.
  induction l as [|[] l IH]; cbn; intros H; [lia | left | right; auto].
Qed.

Lemma mask_sum_pos lower upper (series : Series Q) :
  (0 < mask_sum (outlier_mask lower upper series))%nat ->
  exists x, x ∈ s_values series /\ flt (Some x) lower || fgt (Some x) upper = true.
Proof.
  intros H. apply filter_id_pos in H. unfold s_values, outlier_mask in *.
  rewrite map_map in H. apply list_elem_of_fmap in H as ([i x] & Hx & Hin).
  exists x. split; [|done]. apply list_elem_of_fmap. by exists (i, x).
Qed.

Lemma has_outlier_true k vs :
  has_outlier k vs = true <->
  exists x, Some x ∈ vs
    /\ flt (Some x) (fst (iqr_bounds k (nonmissing vs)))
       || fgt (Some x) (snd (iqr_bounds k (nonmissing vs))) = true.
Proof.
  unfold has_outlier, within_bounds.
  destruct (iqr_bounds k (nonmissing vs)) as [lower upper]. cbn [fst snd].
  rewrite existsb_exists. split.
  - intros (b & Hb & Hneg). apply in_map_iff in Hb as (v & <- & Hv).
    rewrite negb_involutive in Hneg. destruct v as [x|]; [|by destruct lower, upper].
    exists x. split; [|done]. by apply list_elem_of_In.
  - intros (x & Hx & Ho). exists (negb (flt (Some x) lower || fgt (Some x) upper)).
    split; [|by rewrite Ho].
    apply in_map_iff. exists (Some x). split; [done | by apply list_elem_of_In].
Qed.

Lemma has_outlier_false k vs :
  has_outlier k vs = false -> Forall (fun b => b = true) (within_bounds k vs).
Proof.
  unfold has_outlier. intros H. apply Forall_forall. intros b Hb.
  destruct b; [done|]. exfalso.
  assert (existsb negb (within_bounds k vs) = true); [|congruence].
  apply existsb_exists. exists false. split; [by apply list_elem_of_In | done].
Qed.

(** One iteration in remove mode on a numeric column. *)
Lemma handle_column_remove df col vs k :
  wf df -> getitem df col = Some (NumCol vs) ->
  handle_column "iqr" k "remove" df col
  = if isna_any vs && has_outlier k vs then Raise IndexingError
    else Ok (filter_rows (within_bounds k vs) df).
Proof.
  intros Hwf Hget.
  assert (Hlen : length vs = nrows df)
    by (by rewrite <- (wf_col_len df col (NumCol vs) Hwf Hget)).
  destruct (isna_any vs) eqn:Ena.
  2:{ apply isna_any_false in Ena. simpl.
      by apply handle_column_remove_complete. }
  apply isna_any_true in Ena. simpl.
  destruct (has_outlier k vs) eqn:Eo.
  - apply has_outlier_true in Eo as (x & Hx & Ho).
    unfold handle_column. rewrite Hget.
    change (String.eqb "iqr" "iqr") with true.
    change (String.eqb "remove" "cap") with false.
    change (String.eqb "remove" "remove") with true. cbv iota.
    unfold nonmissing in Ho.
    destruct (iqr_bounds k (s_values (dropna vs))) as [lower upper]. cbn [fst snd] in Ho.
    destruct (Nat.ltb 0 _) eqn:Ec.
    + by apply getitem_bool_unalignable.
    + apply Nat.ltb_ge in Ec.
      assert (Hz : mask_sum (outlier_mask lower upper (dropna vs)) = 0%nat) by lia.
      rewrite (mask_sum_zero _ _ _ Hz x) in Ho; [done|]. by apply elem_of_dropna_from.
  - rewrite filter_rows_all_true;
      [| done | by apply has_outlier_false | by rewrite within_bounds_length].
    unfold handle_column. rewrite Hget.
    change (String.eqb "iqr" "iqr") with true. cbv iota.
    destruct (iqr_bounds k (s_values (dropna vs))) as [lower upper] eqn:Eb.
    destruct (Nat.ltb 0 _) eqn:Ec; [|done].
    apply Nat.ltb_lt, mask_sum_pos in Ec as (x & Hx & Ho). exfalso.
    assert (has_outlier k vs = true); [|congruence].
    apply has_outlier_true. exists x. split; [by apply elem_of_dropna_from in Hx|].
    unfold nonmissing. by rewrite Eb.
Qed.

(** X13. Remove mode on one numeric column, with or without missing values.
    The call raises [IndexingError] exactly when the column has a missing
    value and a value outside its bounds; in every other case it returns the
    rows whose value is within the bounds, a row with a missing value
    included, and the table as it is when no value is outside. *)
Theorem remove_raises_iff_missing_and_outlier (df : DataFrame) (col : string)
    (vs : list (option Q)) (k : Q) :
  wf df -> getitem df col = Some (NumCol vs) ->
  detect_and_handle_outliers df [col] "iqr" k "remove"
  = (if isna_any vs && has_outlier k vs then Raise IndexingError
     else Ok (filter_rows (within_bounds k vs) df))
  /\ (has_outlier k vs = false ->
      detect_and_handle_outliers df [col] "iqr" k "remove" = Ok df).
Proof.
  intros Hwf Hget. unfold detect_and_handle_outliers, copy. simpl. rewrite rbind_Ok.
  rewrite (handle_column_remove df col vs k Hwf Hget). split; [done|].
  intros Ho. rewrite Ho, andb_false_r.
  rewrite filter_rows_all_true; [done | done | by apply has_outlier_false|].
  rewrite within_bounds_length. by rewrite <- (wf_col_len df col (NumCol vs) Hwf Hget).
Qed.

(** ** The threshold: large enough, and of no effect *)

(** Without a value outside the bounds an iteration returns the frame as it
    is, whatever the action. *)
Lemma handle_column_no_outlier k a df col vs :
  getitem df col = Some (NumCol vs) -> has_outlier k vs = false ->
  handle_column "iqr" k a df col = Ok df.
Proof.
  intros Hget Ho. unfold handle_column. rewrite Hget.
  change (String.eqb "iqr" "iqr") with true. cbv iota.
  destruct (iqr_bounds k (s_values (dropna vs))) as [lower upper] eqn:Eb.
  destruct (Nat.ltb 0 _) eqn:Ec; [|done].
  apply Nat.ltb_lt, mask_sum_pos in Ec as (x & Hx & Hxo). exfalso.
  assert (has_outlier k vs = true); [|congruence].
  apply has_outlier_true. exists x. split; [by apply elem_of_dropna_from in Hx|].
  unfold nonmissing. by rewrite Eb.
Qed.

Lemma outlier_loop_no_outlier k a (df : DataFrame) (cols : list string) :
  numeric_targets df cols ->
  (forall col vs, col ∈ cols -> getitem df col = Some (NumCol vs) ->
     has_outlier k vs = false) ->
  foldM (handle_column "iqr" k a) cols df = Ok df.
Proof.
  induction cols as [|col cols IH]; intros Hnum Hno; simpl; [done|].
  assert (handle_column "iqr" k a df col = Ok df) as ->.
  { destruct (getitem df col) as [c|] eqn:Hget; [|by apply handle_column_absent].
    destruct (Hnum col c ltac:(left) Hget) as [vs ->].
    apply (handle_column_no_outlier k a df col vs Hget).
    apply (Hno col vs); [left | done]. }
  simpl. apply IH.
  - intros c x Hin. apply Hnum. by right.
  - intros c vs Hin. apply Hno. by right.
Qed.

Lemma threshold_reaches (d t : Q) :
  (0 < d)%Q -> exists K, (0 <= K)%Q /\ (t <= K * d)%Q.
Proof.
  intros Hd. destruct (Qlt_le_dec 0 t) as [Ht|Ht].
  - exists (t / d)%Q. split.
    + apply Qle_shift_div_l; [done | lra].
    + assert (t / d * d == t)%Q as -> by (field; lra). lra.
  - exists 0%Q. split; lra.
Qed.

Lemma bounds_cover (d q1 q3 : Q) (s : list Q) :
  (0 < d)%Q ->
  exists K, (0 <= K)%Q
    /\ forall k, (K <= k)%Q ->
         Forall (fun x => (q1 - k * d <= x)%Q /\ (x <= q3 + k * d)%Q) s.
Proof.
  intros Hd. induction s as [|x s (K & HK & IH)].
  - exists 0%Q. split; [lra | constructor].
  - destruct (threshold_reaches d (q1 - x) Hd) as (K1 & HK1 & H1).
    destruct (threshold_reaches d (x - q3) Hd) as (K2 & HK2 & H2).
    exists (K + K1 + K2)%Q. split; [lra|]. intros k Hk. constructor.
    + split; nra.
    + apply IH. lra.
Qed.

Lemma has_outlier_empty k vs : nonmissing vs = [] -> has_outlier k vs = false.
Proof.
  intros Hs. destruct (has_outlier k vs) eqn:E; [|done].
  apply has_outlier_true in E as (x & Hx & _).
  apply elem_of_nonmissing in Hx. rewrite Hs in Hx. by apply elem_of_nil in Hx.
Qed.

Lemma iqr_bounds_quartiles k s q1 q3 :
  quantile s (1 # 4) = Some q1 -> quantile s (3 # 4) = Some q3 ->
  exists l u, iqr_bounds k s = (Some l, Some u)
    /\ (l == q1 - k * (q3 - q1))%Q /\ (u == q3 + k * (q3 - q1))%Q.
Proof.
  intros E1 E3. unfold iqr_bounds. rewrite E1, E3. simpl.
  eexists _, _. split; [reflexivity|]. rewrite !Qred_correct. split; reflexivity.
Qed.

Lemma no_outlier_beyond vs :
  quartiles_differ vs ->
  exists K, (0 <= K)%Q /\ forall k, (K <= k)%Q -> has_outlier k vs = false.
Proof.
  intros Hd.
  destruct (quantile (nonmissing vs) (1 # 4)) as [q1|] eqn:E1.
  2:{ apply quantile_None in E1. exists 0%Q. split; [lra|]. intros k _.
      by apply has_outlier_empty. }
  destruct (quantile (nonmissing vs) (3 # 4)) as [q3|] eqn:E3.
  2:{ apply quantile_None in E3. exists 0%Q. split; [lra|]. intros k _.
      by apply has_outlier_empty. }
  assert (q1 <= q3)%Q as Hle
    by (apply (quantile_mono (nonmissing vs) (1#4) (3#4)); [lra | lra | lra | done | done]).
  assert (0 < q3 - q1)%Q as Hpos.
  { specialize (Hd q1 q3 E1 E3). destruct (Qlt_le_dec q1 q3) as [?|Hge]; [lra|].
    exfalso. apply Hd. lra. }
  destruct (bounds_cover (q3 - q1) q1 q3 (nonmissing vs) Hpos) as (K & HK & Hall).
  exists K. split; [done|]. intros k Hk.
  destruct (has_outlier k vs) eqn:E; [|done]. exfalso.
  apply has_outlier_true in E as (x & Hx & Ho).
  destruct (iqr_bounds_quartiles k (nonmissing vs) q1 q3 E1 E3) as (l & u & Eb & Hl & Hu).
  rewrite Eb in Ho. cbn [fst snd] in Ho.
  specialize (Hall k Hk). rewrite Forall_forall in Hall.
  destruct (Hall x) as [Hlo Hhi]; [by apply elem_of_nonmissing|].
  apply orb_true_iff in Ho as [Ho|Ho]; unfold fgt, flt in Ho; apply Qltb_lt in Ho; lra.
Qed.

Lemma no_outlier_beyond_columns (df : DataFrame) (cols : list string) :
  (forall col vs, col ∈ cols -> getitem df col = Some (NumCol vs) -> quartiles_differ vs) ->
  exists K, (0 <= K)%Q
    /\ forall k col vs, (K <= k)%Q -> col ∈ cols -> getitem df col = Some (NumCol vs) ->
         has_outlier k vs = false.
Proof.
  induction cols as [|c cols IH]; intros Hd.
  - exists 0%Q. split; [lra|]. intros k col vs _ Hin. by apply elem_of_nil in Hin.
  - destruct IH as (K & HK & IH); [intros col vs Hin; apply Hd; by right|].
    assert (exists K1, (0 <= K1)%Q /\ forall k vs, (K1 <= k)%Q ->
              getitem df c = Some (NumCol vs) -> has_outlier k vs = false)
      as (K1 & HK1 & H1).
    { destruct (getitem df c) as [[vs|vs]|] eqn:Hget;
        [| exists 0%Q; split; [lra | done] | exists 0%Q; split; [lra | done]].
      destruct (no_outlier_beyond vs) as (K1 & HK1 & H1); [apply (Hd c); [left | done]|].
      exists K1. split; [done|]. intros k vs' Hk [= <-]. by apply H1. }
    exists (K + K1)%Q. split; [lra|]. intros k col vs Hk Hin Hget.
    apply elem_of_cons in Hin as [->|Hin].
    + apply (H1 k vs); [lra | done].
    + apply (IH k col vs); [lra | done | done].
Qed.

(** X14. A large threshold makes outlier handling a no-op, where the
    quartiles differ.  Whatever the action, the call returns the table as it
    is when no listed column has a value outside its bounds; and when the
    quartiles of every listed column differ, there is a threshold from which
    on this is the case. *)
Theorem large_threshold_changes_nothing (df : DataFrame) (cols : list string)
    (a : string) :
  numeric_targets df cols ->
  (forall k,
     (forall col vs, col ∈ cols -> getitem df col = Some (NumCol vs) ->
        has_outlier k vs = false) ->
     detect_and_handle_outliers df cols "iqr" k a = Ok df)
  /\ ((forall col vs, col ∈ cols -> getitem df col = Some (NumCol vs) ->
         quartiles_differ vs) ->
      exists K, forall k, (K <= k)%Q ->
        detect_and_handle_outliers df cols "iqr" k a = Ok df).
Proof.
  intros Hnum. unfold detect_and_handle_outliers, copy. split.
  - intros k Hno. by apply outlier_loop_no_outlier.
  - intros Hd. destruct (no_outlier_beyond_columns df cols Hd) as (K & _ & HK).
    exists K. intros k Hk. apply outlier_loop_no_outlier; [done|].
    intros col vs. by apply HK.
Qed.

Lemma capped_flat k vs q1 q3 :
  quantile (nonmissing vs) (1 # 4) = Some q1 ->
  quantile (nonmissing vs) (3 # 4) = Some q3 -> (q1 == q3)%Q ->
  forall i x, capped k vs !! i = Some (Some x) -> (x == q1)%Q.
Proof.
  intros E1 E3 Heq i x.
  destruct (iqr_bounds_quartiles k (nonmissing vs) q1 q3 E1 E3) as (l & u & Eb & Hl & Hu).
  rewrite (capped_lookup k vs l u i Eb).
  destruct (vs !! i) as [[v|]|]; simpl; [|done|done]. intros [= <-].
  assert (l == q1)%Q as Hl' by (rewrite Hl, Heq; ring).
  assert (u == q1)%Q as Hu' by (rewrite Hu, Heq; ring).
  unfold clamp. destruct (Qltb v l) eqn:E; [done|].
  destruct (Qltb u v) eqn:E'; [done|].
  apply Qltb_ge in E, E'. lra.
Qed.

(** X15. Where the quartiles of a column coincide the threshold has no
    effect: both bounds are the quartile, so capping sets every non-missing
    value of the column to (a number equal to) the quartile, for every
    threshold, and every value different from the quartile is outside the
    bounds. *)
Theorem equal_quartiles_flatten_the_column (df : DataFrame) (col : string)
    (vs : list (option Q)) (q1 q3 : Q) (k : Q) :
  (0 <= k)%Q -> getitem df col = Some (NumCol vs) ->
  quantile (nonmissing vs) (1 # 4) = Some q1 ->
  quantile (nonmissing vs) (3 # 4) = Some q3 -> (q1 == q3)%Q ->
  exists vs',
    detect_and_handle_outliers df [col] "iqr" k "cap" = Ok (setitem df col (NumCol vs'))
    /\ length vs' = length vs
    /\ (forall i, vs !! i = Some None -> vs' !! i = Some None)
    /\ (forall i x, vs' !! i = Some (Some x) -> (x == q1)%Q)
    /\ (has_outlier k vs = true <-> exists x, Some x ∈ vs /\ ~ (x == q1)%Q).
Proof.
  intros Hk Hget E1 E3 Heq. exists (capped k vs).
  destruct (iqr_bounds_quartiles k (nonmissing vs) q1 q3 E1 E3) as (l & u & Eb & Hl & Hu).
  assert (l == q1)%Q as Hl' by (rewrite Hl, Heq; ring).
  assert (u == q1)%Q as Hu' by (rewrite Hu, Heq; ring).
  split; [|split; [|split; [|split]]].
  - unfold detect_and_handle_outliers, copy. simpl.
    by rewrite (handle_column_cap df col vs k Hk Hget).
  - apply capped_length.
  - intros i Hi. by rewrite (capped_lookup k vs l u i Eb), Hi.
  - by apply (capped_flat k vs q1 q3).
  - rewrite has_outlier_true, Eb. cbn [fst snd]. split.
    + intros (x & Hx & Ho). exists x. split; [done|].
      apply orb_true_iff in Ho as [Ho|Ho]; unfold fgt, flt in Ho; apply Qltb_lt in Ho; lra.
    + intros (x & Hx & Hne). exists x. split; [done|]. apply orb_true_iff.
      destruct (Qlt_le_dec x l) as [Hlt|Hge]; [left; by apply Qltb_lt|].
      right. unfold fgt, flt. apply Qltb_lt.
      destruct (Qlt_le_dec u x) as [?|Hle]; [done|]. exfalso. apply Hne. lra.
Qed.

(** ** What the cleaner returns *)

Lemma clean_data_ok df df' :
  wf df -> clean_data df = Ok df' ->
  wf df' /\ columns df' = columns df /\ nrows df' = nrows (drop_duplicates df)
  /\ forall col,
       match getitem (drop_duplicates df) col with
       | None => getitem df' col = None
       | Some (NumCol vs) =>
           getitem df' col = Some (NumCol (fillna (median (nonmissing vs)) vs))
       | Some (CatCol vs) =>
           exists vs', getitem df' col = Some (CatCol vs')
             /\ length vs' = length vs /\ Forall is_Some vs'
             /\ (vs' = vs
                 \/ (isna_any vs = true
                     /\ exists m, first_mode (nonmissing vs) = Ok m
                          /\ vs' = fillna (Some m) vs))
       end.
Proof.
  intros Hwf Hrun. rewrite clean_data_unfold in Hrun.
  pose proof (wf_drop_duplicates df Hwf) as Hwf0.
  set (d0 := drop_duplicates df) in *.
  assert (Hnd : NoDup (columns d0)) by apply Hwf0.
  pose proof (fill_loop (cat_cols d0) (cat_cols_NoDup d0 Hnd) (fill_numeric d0)) as H.
  rewrite Hrun in H. destruct H as (Hcols & Hrows & Hout & Hin).
  assert (Hcols' : columns df' = columns df).
  { rewrite Hcols, columns_fill_numeric. subst d0. apply columns_drop_duplicates. }
  assert (Hrows' : nrows df' = nrows d0).
  { rewrite Hrows. destruct d0 as [|[n [vs|vs]] d0']; simpl; try done.
    apply fillna_length. }
  assert (Hper : forall col,
       match getitem d0 col with
       | None => getitem df' col = None
       | Some (NumCol vs) =>
           getitem df' col = Some (NumCol (fillna (median (nonmissing vs)) vs))
       | Some (CatCol vs) =>
           exists vs', getitem df' col = Some (CatCol vs')
             /\ length vs' = length vs /\ Forall is_Some vs'
             /\ (vs' = vs
                 \/ (isna_any vs = true
                     /\ exists m, first_mode (nonmissing vs) = Ok m
                          /\ vs' = fillna (Some m) vs))
       end).
  { intros col. destruct (getitem d0 col) as [[vs|vs]|] eqn:Hget.
    - assert (Hnc : col ∉ cat_cols d0).
      { intros Hc. apply cat_cols_getitem in Hc as [vs0 Hc]; [|done]. congruence. }
      by rewrite (Hout col Hnc), getitem_fill_numeric, Hget.
    - destruct (Hin col (CatCol vs)) as (c' & Hok & Hget').
      + apply cat_cols_getitem; eauto.
      + by rewrite getitem_fill_numeric, Hget.
      + simpl in Hok. destruct (isna_any vs) eqn:Ena.
        * apply rbind_ok in Hok as (m & Hm & [= <-]).
          exists (fillna (Some m) vs). split; [done|]. split; [apply fillna_length|].
          split; [apply fillna_Some_complete|]. right. split; [done|]. eauto.
        * injection Hok as <-. exists vs. split; [done|]. split; [done|].
          split; [by apply isna_any_false | by left].
    - assert (Hnc : col ∉ cat_cols d0).
      { intros Hc. apply cat_cols_getitem in Hc as [vs0 Hc]; [|done]. congruence. }
      by rewrite (Hout col Hnc), getitem_fill_numeric, Hget. }
  split; [|done]. split; [rewrite Hcols'; apply Hwf|].
  apply Forall_forall. intros [n c] Hnc. simpl.
  assert (Hget : getitem df' n = Some c).
  { apply getitem_elem; [|done]. rewrite Hcols'. apply Hwf. }
  specialize (Hper n). rewrite Hrows'.
  destruct (getitem d0 n) as [[vs|vs]|] eqn:Hget0.
  - rewrite Hper in Hget. injection Hget as <-. simpl. rewrite fillna_length.
    apply (wf_col_len d0 n (NumCol vs) Hwf0 Hget0).
  - destruct Hper as (vs' & Hget' & Hlen & _). rewrite Hget' in Hget.
    injection Hget as <-. simpl. rewrite Hlen.
    apply (wf_col_len d0 n (CatCol vs) Hwf0 Hget0).
  - congruence.
Qed.

(** ** A second pass of the cleaner *)

Lemma clean_data_settled df df' :
  wf df -> clean_data df = Ok df' -> Forall (fun nc => settled (snd nc)) df'.
Proof.
  intros Hwf Hrun. destruct (clean_data_ok df df' Hwf Hrun) as (Hwf' & _ & _ & Hper).
  apply Forall_forall. intros [n c] Hnc. simpl.
  assert (Hget : getitem df' n = Some c) by (apply getitem_elem; [apply Hwf' | done]).
  specialize (Hper n). destruct (getitem (drop_duplicates df) n) as [[vs|vs]|].
  - rewrite Hper in Hget. injection Hget as <-. simpl.
    destruct (median (nonmissing vs)) as [m|] eqn:Em.
    + left. apply fillna_Some_complete.
    + right. apply median_None in Em. rewrite fillna_None. by apply nonmissing_nil.
  - destruct Hper as (vs' & Hget' & _ & Hc & _). rewrite Hget' in Hget.
    by injection Hget as <-.
  - congruence.
Qed.

Lemma settled_filter_rows mask df :
  Forall (fun nc => settled (snd nc)) df ->
  Forall (fun nc => settled (snd nc)) (filter_rows mask df).
Proof.
  intros H. unfold filter_rows. apply Forall_map. eapply Forall_impl; [exact H|].
  intros [n [vs|vs]]; simpl.
  - intros [Hc|Hc]; [left | right]; by apply filter_mask_Forall.
  - by apply filter_mask_Forall.
Qed.

Lemma fill_numeric_settled df :
  Forall (fun nc => settled (snd nc)) df -> fill_numeric df = df.
Proof.
  unfold fill_numeric. induction 1 as [|[n c] df Hc _ IH]; simpl; [done|].
  rewrite IH. destruct c as [vs|vs]; simpl in *; [|done].
  assert (fillna (median (s_values (dropna vs))) vs = vs) as ->; [|done].
  destruct Hc as [Hc|Hc]; [by apply fillna_complete|].
  apply nonmissing_nil in Hc. unfold nonmissing in Hc. rewrite Hc. apply fillna_None.
Qed.

Lemma fill_loop_settled cols df :
  Forall (fun nc => settled (snd nc)) df -> foldM fill_categorical cols df = Ok df.
Proof.
  intros Hs. induction cols as [|col cols IH]; simpl; [done|].
  assert (fill_categorical df col = Ok df) as ->; [|exact IH].
  unfold fill_categorical. destruct (getitem df col) as [[vs|vs]|] eqn:Hget; [done| |done].
  apply getitem_Some_elem in Hget. rewrite Forall_forall in Hs.
  specialize (Hs _ Hget). simpl in Hs. apply isna_any_false in Hs. by rewrite Hs.
Qed.

Lemma clean_data_of_settled df :
  Forall (fun nc => settled (snd nc)) df -> clean_data df = Ok (drop_duplicates df).
Proof.
  intros Hs. rewrite clean_data_unfold.
  assert (Hs' : Forall (fun nc => settled (snd nc)) (drop_duplicates df))
    by (by apply settled_filter_rows).
  rewrite (fill_numeric_settled _ Hs'). by apply fill_loop_settled.
Qed.

(** X16. The cleaner settles after two passes.  A second pass over a table
    the cleaner returned does nothing but drop the rows that filling made
    equal to an earlier row, and from then on the table is a fixed point; a
    returned table without duplicate rows is one already. *)
Theorem clean_data_settles_in_two_passes (df d1 : DataFrame) :
  wf df -> clean_data df = Ok d1 ->
  clean_data d1 = Ok (drop_duplicates d1)
  /\ clean_data (drop_duplicates d1) = Ok (drop_duplicates d1)
  /\ (no_duplicate_rows d1 -> clean_data d1 = Ok d1).
Proof.
  intros Hwf Hrun.
  pose proof (clean_data_settled df d1 Hwf Hrun) as Hs.
  destruct (clean_data_ok df d1 Hwf Hrun) as (Hwf1 & _).
  split; [by apply clean_data_of_settled|]. split.
  - rewrite clean_data_of_settled by (by apply settled_filter_rows). f_equal.
    apply drop_duplicates_clean; [by apply wf_drop_duplicates|].
    by apply drop_duplicates_distinct.
  - intros Hnd. rewrite clean_data_of_settled by done. f_equal.
    by apply drop_duplicates_clean.
Qed.

(** ** The mode: ties go to the smallest string *)

Lemma sorted_filter_head (P : string -> bool) l m rest :
  StronglySorted str_lt l -> List.filter P l = m :: rest ->
  forall s, s ∈ List.filter P l -> s = m \/ str_lt m s.
Proof.
  induction 1 as [|x l Hl IH Hx]; simpl; [done|].
  destruct (P x) eqn:Px.
  - intros [= <- <-] s Hs. apply elem_of_cons in Hs as [->|Hs]; [by left|].
    right. rewrite Forall_forall in Hx. apply Hx.
    apply list_elem_of_In in Hs. apply filter_In in Hs as [Hs _].
    by apply list_elem_of_In.
  - exact IH.
Qed.

Lemma first_mode_least l m :
  first_mode l = Ok m ->
  forall s, s ∈ l -> count_str s l = count_str m l -> s = m \/ str_lt m s.
Proof.
  unfold first_mode. destruct (mode l) as [|m0 ms] eqn:E; [done|]. intros [= <-].
  intros s Hs Hcount.
  assert (m0 ∈ mode l) as Hm by (rewrite E; left).
  apply mode_elem in Hm as [_ Hmax].
  assert (s ∈ mode l) as Hsm by (apply mode_elem; split; [done | congruence]).
  unfold mode in E, Hsm.
  exact (sorted_filter_head _ _ _ _ (sorted_unique_sorted l) E s Hsm).
Qed.

(** X17. The value that fills a categorical column.  Where the cleaner
    returns, a categorical column with a missing value (in the table without
    its duplicate rows) is filled with one of its own values: a most
    frequent one, and among the most frequent ones the smallest in the order
    of strings; the non-missing values stay as they are. *)
Theorem mode_fill_breaks_ties_by_order (df df' : DataFrame) (col : string)
    (vs : list (option string)) :
  wf df -> clean_data df = Ok df' ->
  getitem (drop_duplicates df) col = Some (CatCol vs) -> isna_any vs = true ->
  exists m,
    getitem df' col = Some (CatCol (fillna (Some m) vs))
    /\ m ∈ nonmissing vs
    /\ (forall s, (count_str s (nonmissing vs) <= count_str m (nonmissing vs))%nat)
    /\ (forall s, s ∈ nonmissing vs ->
          count_str s (nonmissing vs) = count_str m (nonmissing vs) ->
          s = m \/ str_lt m s)
    /\ (forall i, fillna (Some m) vs !! i
                  = (fun v => Some (default m v)) <$> vs !! i).
Proof.
  intros Hwf Hrun Hget Hna.
  destruct (clean_data_ok df df' Hwf Hrun) as (_ & _ & _ & Hper).
  specialize (Hper col). rewrite Hget in Hper.
  destruct Hper as (vs' & Hget' & _ & Hc & [->|(_ & m & Hm & ->)]).
  { apply isna_any_false in Hc. congruence. }
  exists m. split; [done|].
  destruct (first_mode_most_frequent _ _ Hm) as [Hin Hmost].
  split; [done|]. split; [done|]. split; [by apply first_mode_least|].
  intros i. unfold fillna. rewrite lookup_map.
  destruct (vs !! i) as [[x|]|]; done.
Qed.

(** ** The pipeline as a whole *)






(** X19. Only the method iqr handles outliers: with any other method name
    the pipeline does what it does with outlier handling switched off. *)
Theorem pipeline_other_method_skips_outliers (file_text : string -> option string)
    (parse_csv : string -> result DataFrame) (nr : Q -> string) (file_path : string)
    (m : string) (encode_categoricals : bool)
    (onehot_cols label_cols : option (list string)) :
  m <> "iqr" ->
  preprocess_pipeline file_text parse_csv nr file_path true m encode_categoricals
    onehot_cols label_cols
  = preprocess_pipeline file_text parse_csv nr file_path false m encode_categoricals
      onehot_cols label_cols.
Proof.
  intros Hm. unfold preprocess_pipeline.
  destruct (load_data file_text parse_csv file_path) as [df|e]; [|done]. simpl.
  destruct (clean_data df) as [d1|e]; [|done]. simpl.
  by rewrite detect_other_method.
Qed.

(** ** Remove mode, column after column *)

Lemma wf_remove_outliers k cols :
  forall df, wf df -> wf (remove_outliers k cols df).
Proof.
  induction cols as [|col cols IH]; intros df Hwf; simpl; [done|].
  destruct (getitem df col) as [[vs|vs]|] eqn:Hget; [|by apply IH|by apply IH].
  apply IH, wf_filter_rows; [done|]. rewrite within_bounds_length.
  by rewrite <- (wf_col_len df col (NumCol vs) Hwf Hget).
Qed.

(** X20. Remove mode filters column after column.  On a well-formed table
    whose listed columns have no missing value the call returns, and what it
    returns is the sequential filter: the listed columns are taken in the
    order of the list, each one drops the rows whose value is outside the
    bounds computed from the rows the earlier columns left.  Rows are only
    dropped: the result is the table or a selection of its rows, it is well
    formed and has the input's columns. *)
Theorem remove_mode_filters_in_order (df : DataFrame) (cols : list string) (k : Q) :
  wf df -> complete_targets df cols ->
  detect_and_handle_outliers df cols "iqr" k "remove" = Ok (remove_outliers k cols df)
  /\ rows_dropped df (remove_outliers k cols df)
  /\ (nrows (remove_outliers k cols df) <= nrows df)%nat
  /\ columns (remove_outliers k cols df) = columns df
  /\ wf (remove_outliers k cols df).
Proof.
  intros Hwf Hct.
  pose proof (remove_filters_sequentially k cols df Hwf Hct) as Hrun.
  split; [done|].
  destruct (remove_never_adds_rows df cols "iqr" k _ Hrun) as [Hdrop Hle].
  split; [done|]. split; [done|]. split; [|by apply wf_remove_outliers].
  destruct Hdrop as [->|[mask ->]]; [done | apply columns_filter_rows].
Qed.

(** ** Enriching twice *)

(** X21. [feature_engineering] is idempotent: applied to a table it
    returned, it returns that table.  The derived columns are functions of
    the source columns, which it never changes, and a second run assigns
    the same values under the same names. *)
Theorem feature_engineering_idempotent (nr : Q -> string) (df df' : DataFrame) :
  feature_engineering nr df = Ok df' -> feature_engineering nr df' = Ok df'.
Proof.
  intros H.
  pose proof (feature_engineering_derived nr df df' H) as (D1 & D2 & D3 & D4 & D5).
  pose proof H as Hc. apply feature_engineering_chain in Hc
    as (d1 & d2 & d3 & d4 & H1 & H2 & H3 & H4 & H5 & Hsrc).
  assert (S : forall n, n ∉ derived_names -> getitem df' n = getitem df n).
  { intros n Hn. by destruct (Hsrc n Hn) as (_ & _ & _ & _ & ?). }
  assert (E1 : getitem d1 "Purchase Amount (USD)" = getitem df "Purchase Amount (USD)").
  { by destruct (Hsrc "Purchase Amount (USD)") as (? & _); [compute_done|]. }
  assert (E3 : getitem d3 "Previous Purchases" = getitem df "Previous Purchases").
  { by destruct (Hsrc "Previous Purchases") as (_ & _ & ? & _); [compute_done|]. }
  apply add_age_group_inv in H1 as [_ I1].
  apply add_purchase_category_inv in H2 as [_ I2]. rewrite E1 in I2.
  apply add_is_repeat_customer_inv in H4 as [_ I4]. rewrite E3 in I4.
  clear H3 H5 Hsrc E1 E3.
  assert (A1 : add_age_group df' = Ok df').
  { assert (exists d, add_age_group df' = Ok d) as [d Hd].
    { unfold add_age_group. rewrite S by compute_done.
      destruct (getitem df "Age") as [[vs|vs]|]; [eauto | done | eauto]. }
    rewrite Hd. f_equal. apply add_age_group_inv in Hd as [_ Hd].
    rewrite S in Hd by compute_done.
    destruct (getitem df "Age") as [[vs|vs]|]; [|done|done].
    destruct (D1 vs eq_refl) as [G1 G2]. subst d.
    rewrite (setitem_same df' "Age_Group" _ G1). by apply setitem_same. }
  assert (A2 : add_purchase_category df' = Ok df').
  { assert (exists d, add_purchase_category df' = Ok d) as [d Hd].
    { unfold add_purchase_category. rewrite S by compute_done.
      destruct (getitem df "Purchase Amount (USD)") as [[vs|vs]|]; [eauto | done | eauto]. }
    rewrite Hd. f_equal. apply add_purchase_category_inv in Hd as [_ Hd].
    rewrite S in Hd by compute_done.
    destruct (getitem df "Purchase Amount (USD)") as [[vs|vs]|]; [|done|done].
    subst d. apply setitem_same. by apply D2. }
  assert (A3 : add_discount_or_promo df' = Ok df').
  { destruct (add_discount_or_promo_frame df') as (d & Hd & _).
    rewrite Hd. f_equal. apply add_discount_or_promo_inv in Hd as [_ Hd].
    rewrite !S in Hd by compute_done.
    destruct (getitem df "Discount Applied") as [dc|]; [|done].
    destruct (getitem df "Promo Code Used") as [pc|]; [|done].
    subst d. apply setitem_same. by apply D3. }
  assert (A4 : add_is_repeat_customer df' = Ok df').
  { assert (exists d, add_is_repeat_customer df' = Ok d) as [d Hd].
    { unfold add_is_repeat_customer. rewrite S by compute_done.
      destruct (getitem df "Previous Purchases") as [[vs|vs]|]; [eauto | done | eauto]. }
    rewrite Hd. f_equal. apply add_is_repeat_customer_inv in Hd as [_ Hd].
    rewrite S in Hd by compute_done.
    destruct (getitem df "Previous Purchases") as [[vs|vs]|]; [|done|done].
    subst d. apply setitem_same. by apply D4. }
  assert (A5 : add_season_category nr df' = Ok df').
  { destruct (add_season_category_frame nr df') as (d & Hd & _).
    rewrite Hd. f_equal. apply add_season_category_inv in Hd as [_ Hd].
    rewrite !S in Hd by compute_done.
    destruct (getitem df "Season") as [sc|]; [|done].
    destruct (getitem df "Category") as [cc|]; [|done].
    subst d. apply setitem_same. by apply D5. }
  apply feature_engineering_steps. by exists df', df', df', df'.
Qed.

(** ** Frames as objects: cleaning and encoding *)

Section HeapSimulationMore.

Implicit Types (h : gmap nat DataFrame) (l : nat).

Lemma fill_each_simulates h0 cols :
  forall h l d,
  h0 ⊆ h -> h0 !! l = None -> h !! l = Some d ->
  simulates h0 (foldM fill_categorical cols d) (Heap.for_each Heap.fill_step cols l h).
Proof.
  induction cols as [|col cols IH]; intros h l d Hsub Hfresh Hd.
  - simpl. eauto.
  - simpl. unfold Heap.bind at 1. unfold Heap.fill_step at 1.
    unfold Heap.bind, Heap.derive, Heap.bind, Heap.load, Heap.lift, Heap.store, Heap.ret.
    rewrite Hd. destruct (fill_categorical d col) as [d1|e]; simpl; [|by split].
    apply IH; [by apply insert_subseteq_r | done | apply lookup_insert_eq].
Qed.

Lemma clean_data_simulates h df d :
  h !! df = Some d -> simulates h (clean_data d) (Heap.clean_data df h).
Proof.
  intros Hd. rewrite clean_data_unfold.
  unfold Heap.clean_data, Heap.bind at 1 2, Heap.load at 1. rewrite Hd.
  unfold Heap.alloc. set (l := fresh (dom h)).
  assert (Hfresh : h !! l = None) by (by apply fresh_not_in).
  unfold Heap.bind at 1, Heap.mutate, Heap.bind, Heap.load, Heap.store.
  rewrite lookup_insert_eq. cbv beta iota. rewrite lookup_insert_eq. cbv beta iota.
  rewrite cat_cols_fill_numeric.
  apply fill_each_simulates; [|done|apply lookup_insert_eq].
  apply insert_subseteq_r; [done|]. by apply insert_subseteq.
Qed.

Lemma label_each_run nr h0 cols :
  forall h l d (enc : gmap string encoder),
  h0 ⊆ h -> h0 !! l = None -> h !! l = Some d ->
  exists h',
    Heap.for_each (Heap.label_step nr l) cols enc h
    = (Ok (snd (fold_left (label_encode_column nr) cols (d, enc))), h')
    /\ h0 ⊆ h'
    /\ h' !! l = Some (fst (fold_left (label_encode_column nr) cols (d, enc))).
Proof.
  induction cols as [|col cols IH]; intros h l d enc Hsub Hfresh Hd.
  - simpl. exists h. done.
  - simpl. unfold Heap.bind at 1. unfold Heap.label_step at 1.
    unfold Heap.bind at 1, Heap.load. rewrite Hd.
    destruct (getitem d col) as [c|] eqn:Hget.
    + unfold Heap.bind, Heap.store, Heap.ret.
      apply IH; [by apply insert_subseteq_r | done | apply lookup_insert_eq].
    + unfold Heap.ret. by apply IH.
Qed.

End HeapSimulationMore.

(** X22. Cleaning and encoding do not touch the caller's table.  Run on a
    store in which the reference [df] holds the frame [d], [clean_data] and
    [encode_categorical] leave every object of that store as it was, whether
    they return or raise; the reference they return is a new object, which
    holds the frame the value-level function computes from [d] (and the
    encoder dictionary is the one it computes). *)
Theorem cleaning_and_encoding_do_not_mutate (h : gmap nat DataFrame) (df : nat)
    (d : DataFrame) (nr : Q -> string) (cols_onehot cols_label : option (list string))
    (drop_first : bool) :
  h !! df = Some d ->
  (forall out h', Heap.clean_data df h = (out, h') ->
     h ⊆ h' /\ h' !! df = Some d
     /\ match out with
        | Ok l => l <> df /\ h !! l = None
                  /\ exists d', h' !! l = Some d' /\ clean_data d = Ok d'
        | Raise e => clean_data d = Raise e
        end)
  /\ (forall out h',
        Heap.encode_categorical nr df cols_onehot cols_label drop_first h = (out, h') ->
        h ⊆ h' /\ h' !! df = Some d
        /\ match out with
           | Ok (l, encoders) =>
               l <> df /\ h !! l = None
               /\ exists d', h' !! l = Some d'
                    /\ encode_categorical nr d cols_onehot cols_label drop_first
                       = Ok (d', encoders)
           | Raise e =>
               encode_categorical nr d cols_onehot cols_label drop_first = Raise e
           end).
Proof.
  intros Hd. split.
  - intros out h' Hrun. pose proof (clean_data_simulates h df d Hd) as Hsim.
    rewrite Hrun in Hsim. destruct out as [l|e]; simpl in Hsim.
    + destruct Hsim as (Hsub & Hfresh & d' & Hl & ->).
      split; [done|]. split; [by eapply lookup_weaken|].
      split; [congruence|]. eauto.
    + destruct Hsim as [Hsub ->]. split; [done|]. split; [by eapply lookup_weaken | done].
  - intros out h'. rewrite encode_categorical_unfold. cbv zeta.
    unfold Heap.encode_categorical, Heap.copy.
    unfold Heap.bind at 1 2 3, Heap.load at 1. rewrite Hd.
    unfold Heap.alloc at 1. set (l := fresh (dom h)). unfold copy.
    assert (Hfresh : h !! l = None) by (by apply fresh_not_in).
    assert (Hne : l <> df) by congruence.
    set (h1 := <[l := d]> h).
    assert (Hsub1 : h ⊆ h1) by (by apply insert_subseteq).
    assert (Hl1 : h1 !! l = Some d) by apply lookup_insert_eq.
    assert (exists h2,
              match truthy cols_label with
              | Some cols => Heap.for_each (Heap.label_step nr l) cols ∅
              | None => Heap.ret ∅
              end h1
              = (Ok (snd match truthy cols_label with
                         | Some cols => fold_left (label_encode_column nr) cols (d, ∅)
                         | None => (d, ∅)
                         end), h2)
              /\ h ⊆ h2
              /\ h2 !! l = Some (fst match truthy cols_label with
                                     | Some cols =>
                                         fold_left (label_encode_column nr) cols (d, ∅)
                                     | None => (d, ∅)
                                     end)) as (h2 & -> & Hsub2 & Hl2).
    { destruct (truthy cols_label) as [cols|].
      - by apply label_each_run.
      - exists h1. done. }
    set (st := match truthy cols_label with
               | Some cols => fold_left (label_encode_column nr) cols (d, ∅)
               | None => (d, ∅)
               end) in *.
    destruct (truthy cols_onehot) as [cols|].
    + unfold Heap.bind, Heap.load, Heap.lift. rewrite Hl2.
      destruct (getitems (fst st) cols) as [X|e]; simpl.
      * unfold Heap.alloc, Heap.ret. intros [= <- <-].
        split; [apply insert_subseteq_r; [by apply fresh_not_in | done]|].
        split; [eapply lookup_weaken; [exact Hd|];
                apply insert_subseteq_r; [by apply fresh_not_in | done]|].
        assert (Hf : h !! fresh (dom h2) = None) by (by apply fresh_not_in).
        split; [congruence|]. split; [done|].
        eexists. split; [apply lookup_insert_eq | done].
      * intros [= <- <-]. split; [done|]. split; [by eapply lookup_weaken | done].
    + unfold Heap.ret. intros [= <- <-].
      split; [done|]. split; [by eapply lookup_weaken|].
      split; [done|]. split; [done|]. exists (fst st). split; [done|].
      by destruct st.
Qed.

(** ** Encoding: what becomes of the columns *)

Lemma default_truthy {A} (l : option (list A)) : default [] (truthy l) = default [] l.
Proof. by destruct l as [[|x l]|]. Qed.

Lemma label_encode_column_columns nr st col :
  columns (fst (label_encode_column nr st col)) = columns (fst st).
Proof.
  destruct st as [df enc]. simpl. destruct (getitem df col) as [c|] eqn:E; simpl; [|done].
  by eapply columns_setitem.
Qed.

Lemma label_loop_columns nr cols st :
  columns (fst (fold_left (label_encode_column nr) cols st)) = columns (fst st).
Proof.
  revert st. induction cols as [|c cols IH]; intros st; simpl; [done|].
  rewrite IH. apply label_encode_column_columns.
Qed.

Lemma columns_drop_columns df cols :
  columns (drop_columns df cols)
  = List.filter (fun n => negb (existsb (String.eqb n) cols)) (columns df).
Proof.
  unfold drop_columns, columns. induction df as [|[n c] df IH]; simpl; [done|].
  destruct (existsb (String.eqb n) cols); simpl; by rewrite IH.
Qed.

Lemma filter_all {A} (l : list A) : List.filter (fun _ => true) l = l.
Proof. induction l as [|x l IH]; simpl; [done | by rewrite IH]. Qed.

Lemma onehot_column_elem nr drop_first nc n c :
  (n, c) ∈ onehot_column nr drop_first nc ->
  exists vals, c = NumCol vals /\ length vals = col_len (snd nc) /\ indicator_values vals.
Proof.
  unfold onehot_column. intros H. apply list_elem_of_fmap in H as (k & [= -> ->] & _).
  eexists. split; [done|]. split.
  - by rewrite length_map, col_cells_length.
  - apply Forall_map, Forall_forall. intros v _. simpl.
    destruct (cell_eqb v k); auto.
Qed.

(** X23. What [encode_categorical] does to the columns.  The table it
    returns is the input's columns without the one-hot encoded ones, in
    their order, followed by the indicator columns; an indicator column is
    numeric and holds only 0 and 1; and a column that is in neither list is
    returned unchanged. *)
Theorem encode_categorical_frame (nr : Q -> string) (df df' : DataFrame)
    (cols_onehot cols_label : option (list string)) (drop_first : bool)
    (encoders : gmap string encoder) :
  encode_categorical nr df cols_onehot cols_label drop_first = Ok (df', encoders) ->
  exists kept indicators,
    df' = kept ++ indicators
    /\ columns kept
       = List.filter (fun n => negb (existsb (String.eqb n) (default [] cols_onehot)))
           (columns df)
    /\ (forall n, n ∈ default [] cols_onehot -> n ∉ columns kept)
    /\ (default [] cols_onehot = [] -> indicators = [])
    /\ (forall n c, (n, c) ∈ indicators ->
          exists vals, c = NumCol vals /\ indicator_values vals)
    /\ (forall n c, n ∉ default [] cols_onehot -> n ∉ default [] cols_label ->
          getitem df n = Some c -> getitem df' n = Some c).
Proof.
  rewrite encode_categorical_unfold. cbv zeta.
  set (st := match truthy cols_label with
             | Some cols => fold_left (label_encode_column nr) cols (df, ∅)
             | None => (df, ∅)
             end).
  assert (Hcols : columns (fst st) = columns df).
  { subst st. destruct (truthy cols_label); [|done]. by rewrite label_loop_columns. }
  assert (Hother : forall n, n ∉ default [] cols_label ->
                     getitem (fst st) n = getitem df n).
  { intros n Hn. subst st. destruct (truthy cols_label) as [cl|] eqn:Et; [|done].
    rewrite label_loop_other; [done|]. intros Hin. apply Hn. apply truthy_elem. eauto. }
  rewrite <- (default_truthy cols_onehot).
  destruct (truthy cols_onehot) as [cols|] eqn:Et; simpl.
  - intros H. apply rbind_ok in H as (X & HX & Heq).
    assert (Hdf : df' = drop_columns (fst st) cols
                        ++ concat (map (onehot_column nr drop_first) X)) by congruence.
    exists (drop_columns (fst st) cols), (concat (map (onehot_column nr drop_first) X)).
    split; [done|]. split; [by rewrite columns_drop_columns, Hcols|].
    split; [|split; [|split]].
    + intros n Hn. rewrite columns_drop_columns. intros Hin.
      apply list_elem_of_In, filter_In in Hin as [_ Hneg].
      apply negb_true_iff in Hneg.
      assert (existsb (String.eqb n) cols = true); [|congruence].
      apply existsb_exists. exists n. split; [by apply list_elem_of_In|].
      apply String.eqb_refl.
    + intros ->. by destruct cols_onehot as [[|]|].
    + intros n c Hin. apply list_elem_of_In, in_concat in Hin as (block & Hblock & Hin).
      apply in_map_iff in Hblock as (nc & <- & _). apply list_elem_of_In in Hin.
      apply onehot_column_elem in Hin as (vals & -> & _ & Hv). eauto.
    + intros n c Hn Hl Hget. rewrite Hdf. apply getitem_app.
      rewrite getitem_drop_columns by done. by rewrite Hother.
  - clearbody st. intros [= ->]. simpl in *. exists df', [].
    split; [by rewrite app_nil_r|].
    split; [by rewrite filter_all|]. split; [intros n Hn; by apply elem_of_nil in Hn|].
    split; [done|]. split; [intros n c Hin; by apply elem_of_nil in Hin|].
    intros n c _ Hl Hget. by rewrite Hother.
Qed.

(** ** The exceptions of the pipeline *)



(** ** The further properties at concrete tables *)

Lemma numeric_targets_ex_shop : numeric_targets ex_shop numeric_sources.
Proof. concrete_targets. Qed.

Lemma purchase_category_bins_right_closed_witness :
  getitem ex_shop "Purchase Amount (USD)" = Some (NumCol (map some_q [30; 60; 150]%Z))
  /\ numeric_targets ex_shop numeric_sources
  /\ exists df' cats,
       feature_engineering no_repr ex_shop = Ok df'
       /\ getitem df' "Purchase_Category" = Some (CatCol cats)
       /\ cats !! 0%nat = Some (Some "Very Low").
Proof.
  assert (H1 : getitem ex_shop "Purchase Amount (USD)"
               = Some (NumCol (map some_q [30; 60; 150]%Z))) by reflexivity.
  assert (H2 : numeric_targets ex_shop numeric_sources) by concrete_targets.
  split; [exact H1|]. split; [exact H2|].
  destruct (purchase_category_bins_right_closed no_repr ex_shop _ H1 H2)
    as (df' & cats & Hrun & Hget & _ & Hall).
  exists df', cats. split; [exact Hrun|]. split; [exact Hget|].
  apply (proj2 (Hall 0%nat) (inject_Z 30) eq_refl). discriminate.
Defined.

Lemma discount_or_promo_is_disjunction_witness :
  numeric_targets ex_shop numeric_sources
  /\ exists df' flags,
       feature_engineering no_repr ex_shop = Ok df'
       /\ getitem df' "Discount_or_Promo" = Some (CatCol flags)
       /\ flags !! 0%nat = Some (Some "Yes")
       /\ flags !! 2%nat = Some (Some "No").
Proof.
  assert (H : numeric_targets ex_shop numeric_sources) by concrete_targets.
  split; [exact H|].
  destruct (discount_or_promo_is_disjunction no_repr ex_shop _ _ eq_refl eq_refl H)
    as (df' & flags & Hrun & Hget & _ & Hall).
  exists df', flags. split; [exact Hrun|]. split; [exact Hget|]. split.
  - exact (Hall 0%nat (Some "Yes") (Some "No") eq_refl eq_refl).
  - exact (Hall 2%nat (Some "No") None eq_refl eq_refl).
Defined.

Lemma is_repeat_customer_from_ten_witness :
  numeric_targets ex_shop numeric_sources
  /\ exists df' flags,
       feature_engineering no_repr ex_shop = Ok df'
       /\ getitem df' "Is_Repeat_Customer" = Some (NumCol flags)
       /\ flags !! 1%nat = Some (Some 1%Q).
Proof.
  assert (H : numeric_targets ex_shop numeric_sources) by concrete_targets.
  split; [exact H|].
  destruct (is_repeat_customer_from_ten no_repr ex_shop _ eq_refl H)
    as (df' & flags & Hrun & Hget & _ & Hall).
  exists df', flags. split; [exact Hrun|]. split; [exact Hget|].
  apply (proj2 (Hall 1%nat) (inject_Z 10) eq_refl). discriminate.
Defined.


Lemma feature_engineering_only_appends_witness :
  exists df',
    feature_engineering no_repr ex_shop = Ok df'
    /\ appends_only derived_names ex_shop df'
    /\ getitem df' "Age" = getitem ex_shop "Age".
Proof.
  destruct (feature_engineering_total no_repr ex_shop numeric_targets_ex_shop)
    as [df' Hrun].
  exists df'. split; [exact Hrun|].
  destruct (feature_engineering_only_appends no_repr ex_shop df' Hrun)
    as (Happ & Hkeep & _).
  split; [exact Happ|]. apply Hkeep. compute_done.
Defined.


Lemma age_group_ordinal_is_bin_position_witness :
  numeric_targets ex_shop numeric_sources
  /\ exists df' codes,
       feature_engineering no_repr ex_shop = Ok df'
       /\ getitem df' "Age_Group_Ordinal" = Some (NumCol codes)
       /\ codes !! 1%nat = Some (Some (Q_of_nat 2)).
Proof.
  assert (H : numeric_targets ex_shop numeric_sources) by concrete_targets.
  split; [exact H|].
  destruct (age_group_ordinal_is_bin_position no_repr ex_shop _ eq_refl H)
    as (df' & codes & Hrun & Hget & _ & Hall).
  exists df', codes. split; [exact Hrun|]. split; [exact Hget|].
  apply (proj1 (proj2 (Hall 1%nat) (inject_Z 30) eq_refl) 2%nat 25%Q 35%Q "25-34" eq_refl);
    [intros ?; discriminate | reflexivity].
Defined.

Lemma onehot_indicators_decode_witness :
  "Season" ∈ ["Season"]
  /\ exists df' encoders before block after,
       encode_categorical no_repr ex_seasons (Some ["Season"]) None false
         = Ok (df', encoders)
       /\ df' = before ++ block ++ after
       /\ length block = 4%nat.
Proof.
  assert (H1 : "Season" ∈ ["Season"]) by left.
  split; [exact H1|].
  assert (Hrun : exists r,
            encode_categorical no_repr ex_seasons (Some ["Season"]) None false = Ok r)
    by (eexists; vm_compute; reflexivity).
  destruct Hrun as [[df' encoders] Hrun].
  destruct (onehot_indicators_decode no_repr ex_seasons df' ["Season"] None false
              encoders "Season" _ H1 (not_elem_of_nil _) eq_refl Hrun)
    as (_ & before & block & after & Hdf & Hlen & _).
  exists df', encoders, before, block, after.
  split; [exact Hrun|]. split; [exact Hdf | exact Hlen].
Defined.





Lemma wf_ex_outlier_missing : wf ex_outlier_missing.
Proof. split; [compute_done | repeat constructor]. Qed.

Lemma remove_raises_iff_missing_and_outlier_witness :
  wf ex_outlier_missing
  /\ detect_and_handle_outliers ex_outlier_missing ["A"] "iqr" (3 # 2) "remove"
     = Raise IndexingError
  /\ detect_and_handle_outliers ex_outlier_missing ["A"] "iqr" 100 "remove"
     = Ok ex_outlier_missing.
Proof.
  split; [exact wf_ex_outlier_missing|]. split.
  - exact (proj1 (remove_raises_iff_missing_and_outlier ex_outlier_missing "A" _ (3 # 2)
                    wf_ex_outlier_missing eq_refl)).
  - apply (proj2 (remove_raises_iff_missing_and_outlier ex_outlier_missing "A" _ 100
                    wf_ex_outlier_missing eq_refl)).
    vm_compute. reflexivity.
Defined.

Lemma large_threshold_changes_nothing_witness :
  numeric_targets ex_outlier ["A"]
  /\ detect_and_handle_outliers ex_outlier ["A"] "iqr" 48 "remove" = Ok ex_outlier.
Proof.
  assert (H : numeric_targets ex_outlier ["A"]) by concrete_targets.
  split; [exact H|].
  apply (proj1 (large_threshold_changes_nothing ex_outlier ["A"] "remove" H) 48%Q).
  intros col vs Hin Hget. apply list_elem_of_singleton in Hin. subst col.
  injection Hget as <-. vm_compute. reflexivity.
Defined.

Lemma equal_quartiles_flatten_the_column_witness :
  (0 <= 1000)%Q
  /\ quantile (nonmissing (map some_q [1; 1; 1; 1; 100]%Z)) (1 # 4) = Some 1%Q
  /\ quantile (nonmissing (map some_q [1; 1; 1; 1; 100]%Z)) (3 # 4) = Some 1%Q
  /\ exists vs',
       detect_and_handle_outliers ex_flat ["A"] "iqr" 1000 "cap"
       = Ok (setitem ex_flat "A" (NumCol vs'))
       /\ length vs' = 5%nat.
Proof.
  assert (H0 : (0 <= 1000)%Q) by (intros ?; discriminate).
  assert (H1 : quantile (nonmissing (map some_q [1; 1; 1; 1; 100]%Z)) (1 # 4) = Some 1%Q)
    by reflexivity.
  assert (H3 : quantile (nonmissing (map some_q [1; 1; 1; 1; 100]%Z)) (3 # 4) = Some 1%Q)
    by reflexivity.
  split; [exact H0|]. split; [exact H1|]. split; [exact H3|].
  destruct (equal_quartiles_flatten_the_column ex_flat "A" _ 1%Q 1%Q 1000%Q H0 eq_refl H1 H3
              (Qeq_refl 1)) as (vs' & Hrun & Hlen & _).
  exists vs'. split; [exact Hrun | exact Hlen].
Defined.

Lemma clean_data_settles_in_two_passes_witness :
  wf ex_fill_makes_duplicate
  /\ exists d1,
       clean_data ex_fill_makes_duplicate = Ok d1
       /\ clean_data d1 = Ok (drop_duplicates d1)
       /\ nrows d1 = 2%nat /\ nrows (drop_duplicates d1) = 1%nat.
Proof.
  assert (H : wf ex_fill_makes_duplicate)
    by (split; [compute_done | repeat constructor]).
  split; [exact H|].
  assert (Hrun : exists d1, clean_data ex_fill_makes_duplicate = Ok d1)
    by (eexists; vm_compute; reflexivity).
  destruct Hrun as [d1 Hrun]. exists d1. split; [exact Hrun|].
  split; [exact (proj1 (clean_data_settles_in_two_passes _ d1 H Hrun))|].
  vm_compute in Hrun. injection Hrun as <-. split; reflexivity.
Defined.

Lemma mode_fill_breaks_ties_by_order_witness :
  wf ex_tie
  /\ exists df' m,
       clean_data ex_tie = Ok df'
       /\ getitem df' "Size"
          = Some (CatCol (fillna (Some m) [Some "M"; Some "L"; None; Some "M"; Some "L"]))
       /\ m = "L".
Proof.
  assert (H : wf ex_tie) by (split; [compute_done | repeat constructor]).
  split; [exact H|].
  assert (Hrun : exists d1, clean_data ex_tie = Ok d1)
    by (eexists; vm_compute; reflexivity).
  destruct Hrun as [df' Hrun].
  destruct (mode_fill_breaks_ties_by_order ex_tie df' "Size" _ H Hrun eq_refl eq_refl)
    as (m & Hget & _ & _ & _ & _).
  exists df', m. split; [exact Hrun|]. split; [exact Hget|].
  vm_compute in Hrun. injection Hrun as <-. vm_compute in Hget. congruence.
Defined.



Lemma pipeline_other_method_skips_outliers_witness :
  "zscore" <> "iqr"
  /\ preprocess_pipeline ex_file_text ex_parse_shop no_repr "shopping_behavior.csv"
       true "zscore" false None None
     = preprocess_pipeline ex_file_text ex_parse_shop no_repr "shopping_behavior.csv"
         false "zscore" false None None.
Proof.
  assert (H : "zscore" <> "iqr") by discriminate.
  split; [exact H|].
  exact (pipeline_other_method_skips_outliers ex_file_text ex_parse_shop no_repr
           "shopping_behavior.csv" "zscore" false None None H).
Defined.

Lemma complete_targets_ex_outlier : complete_targets ex_outlier ["A"; "B"].
Proof.
  intros col c Hin Hget.
  repeat (apply elem_of_cons in Hin as [->|Hin]);
    [| |by apply elem_of_nil in Hin];
    vm_compute in Hget; injection Hget as <-;
    (eexists; split; [reflexivity|]; repeat constructor; by eexists).
Qed.

Lemma remove_mode_filters_in_order_witness :
  wf ex_outlier /\ complete_targets ex_outlier ["A"; "B"]
  /\ detect_and_handle_outliers ex_outlier ["A"; "B"] "iqr" (3 # 2) "remove"
     = Ok (remove_outliers (3 # 2) ["A"; "B"] ex_outlier)
  /\ nrows (remove_outliers (3 # 2) ["A"; "B"] ex_outlier) = 4%nat.
Proof.
  split; [exact wf_ex_outlier|]. split; [exact complete_targets_ex_outlier|].
  split; [|reflexivity].
  exact (proj1 (remove_mode_filters_in_order ex_outlier ["A"; "B"] (3 # 2)
                  wf_ex_outlier complete_targets_ex_outlier)).
Defined.

Lemma feature_engineering_idempotent_witness :
  exists df',
    feature_engineering no_repr ex_shop = Ok df'
    /\ feature_engineering no_repr df' = Ok df'.
Proof.
  destruct (feature_engineering_total no_repr ex_shop numeric_targets_ex_shop)
    as [df' Hrun].
  exists df'. split; [exact Hrun|].
  exact (feature_engineering_idempotent no_repr ex_shop df' Hrun).
Defined.

Lemma cleaning_and_encoding_do_not_mutate_witness :
  ex_store !! 0%nat = Some ex_outlier
  /\ exists l h',
       Heap.clean_data 0%nat ex_store = (Ok l, h')
       /\ l <> 0%nat /\ h' !! 0%nat = Some ex_outlier.
Proof.
  assert (H1 : ex_store !! 0%nat = Some ex_outlier) by reflexivity.
  split; [exact H1|].
  destruct (Heap.clean_data 0%nat ex_store) as [out h'] eqn:Hrun.
  destruct (proj1 (cleaning_and_encoding_do_not_mutate ex_store 0%nat ex_outlier
                     no_repr None None true H1) out h' Hrun)
    as (_ & Hdf & Hout).
  destruct out as [l|e].
  - exists l, h'. split; [reflexivity|]. split; [exact (proj1 Hout) | exact Hdf].
  - exfalso. vm_compute in Hout. discriminate Hout.
Defined.

Lemma encode_categorical_frame_witness :
  exists df' encoders kept indicators,
    encode_categorical no_repr ex_seasons (Some ["Season"]) None true = Ok (df', encoders)
    /\ df' = kept ++ indicators
    /\ columns kept = ["Age"]
    /\ getitem df' "Age" = getitem ex_seasons "Age".
Proof.
  assert (Hrun : exists r,
            encode_categorical no_repr ex_seasons (Some ["Season"]) None true = Ok r)
    by (eexists; vm_compute; reflexivity).
  destruct Hrun as [[df' encoders] Hrun].
  destruct (encode_categorical_frame no_repr ex_seasons df' (Some ["Season"]) None true
              encoders Hrun) as (kept & indicators & Hdf & Hcols & _ & _ & _ & Hother).
  exists df', encoders, kept, indicators.
  split; [exact Hrun|]. split; [exact Hdf|]. split; [exact Hcols|].
  apply Hother; [compute_done | apply not_elem_of_nil | reflexivity].
Defined.

